(** * Flow control core of the contract-analysis service

    A shallow embedding of the three classes of
    [model/core/PerformanceMonitor.js] and [model/core/ResourceManager.js]:

    - [RequestQueue]        bounded-concurrency admission queue,
    - [PerformanceMonitor]  request counters and rolling latency metrics,
    - [ResourceManager]     optimisation passes and graceful degradation.

    Conventions of the embedding.

    - JavaScript numbers that count things or hold millisecond clock
      readings are integers ([Z]), and so are the concurrency ceilings;
      quotients and products computed from them are exact rationals
      ([Q]) where the code rounds to a binary double, so the theorems
      below are kept to what does not depend on that rounding.  The
      rates, the utilisations and the overall confidence, whose divisor
      can be zero, are [ratio]s, which have the infinities and [NaN]: a
      guard of the code shows as a result that is [Finite].
    - [Date.now()] is an input: each call site of an operation is one
      argument of its model, in program order.
    - An [async] method is cut at its [await]: the part that runs
      synchronously when the method is called, and the continuation that
      runs when the awaited promise settles.  The scheduler is single
      threaded, so each part is atomic and a run of the program is a
      sequence of such parts.
    - Calls that leave the class (the work unit, the caller's [resolve] and
      [reject], the collaborators' hooks, the logger) are recorded as a list
      of events returned next to the new state. *)

From Stdlib Require Import ZArith QArith Qround Lia List String Sorted.
From stdpp Require Import base option list gmap.

Local Open Scope Z_scope.

(** ** Values that can be thrown

    [error.message] is read in every [catch] block of the two files.  The
    read itself throws a [TypeError] when the caught value is [null] or
    [undefined]; on any other value it yields a message (possibly
    [undefined], which the logger accepts). *)

Inductive thrown : Type :=
| ThrownNullish
| ThrownError (message : string).

(** How an awaited promise settles. *)
Inductive outcome : Type :=
| Fulfils
| RejectsWith (e : thrown).

(** [error.message]: the message, or the [TypeError] raised by the read. *)
Definition read_message (e : thrown) : string + thrown :=
  match e with
  | ThrownNullish => inr (ThrownError "Cannot read properties of null")
  | ThrownError m => inl m
  end.

(** JavaScript's [ToNumber] on a timestamp slot that may still be [null]. *)
Definition num (o : option Z) : Z := default 0 o.

(** [a || d] on a number that may be absent: absent and [0] are falsy. *)
Definition orZ (a : option Z) (d : Z) : Z :=
  match a with
  | Some v => if v =? 0 then d else v
  | None => d
  end.

Definition orQ (a : option Q) (d : Q) : Q :=
  match a with
  | Some v => if Qeq_bool v 0 then d else v
  | None => d
  end.

(** [{ key: d, ...options }]: a key present in [options] wins. *)
Definition spread {A : Type} (a : option A) (d : A) : A := default d a.

(** [x > y] and [x < y] on rationals, as booleans. *)
Definition Qgtb (x y : Q) : bool := negb (Qle_bool x y).
Definition Qltb (x y : Q) : bool := negb (Qle_bool y x).

(** The result of a division: the quotient, or an infinity or [NaN] when
    the divisor is zero; a comparison with [NaN] is false. *)
Inductive ratio : Type :=
| Finite (q : Q)
| PosInfinity
| NegInfinity
| NaN.

Definition jsdiv (a b : Q) : ratio :=
  if Qeq_bool b 0 then
    if Qeq_bool a 0 then NaN
    else if Qgtb a 0 then PosInfinity else NegInfinity
  else Finite (a / b)%Q.

Definition ratio_gt (x : ratio) (y : Q) : bool :=
  match x with
  | Finite q => Qgtb q y
  | PosInfinity => true
  | NegInfinity => false
  | NaN => false
  end.

Definition ratio_lt (x : ratio) (y : Q) : bool :=
  match x with
  | Finite q => Qltb q y
  | PosInfinity => false
  | NegInfinity => true
  | NaN => false
  end.

Definition ratio_le (x : ratio) (y : Q) : bool :=
  match x with
  | Finite q => Qle_bool q y
  | PosInfinity => false
  | NegInfinity => true
  | NaN => false
  end.

(** The number is finite and equal to [q]. *)
Definition ratio_is (x : ratio) (q : Q) : Prop :=
  match x with
  | Finite v => (v == q)%Q
  | _ => False
  end.

(** * RequestQueue *)

Module RequestQueue.

(** One admitted unit of work.  [ref] is the identity of the JavaScript
    object (the [processing] set compares by identity); [id] is the random
    tag used in log lines. *)
Record QueueItem : Type := mkItem {
  ref : nat;
  id : string;
  enqueuedAt : Z;
  startedAt : option Z;
  completedAt : option Z
}.

Record Metrics : Type := mkMetrics {
  totalRequests : Z;
  completedRequests : Z;
  failedRequests : Z;
  averageWaitTime : Q;
  averageProcessingTime : Q
}.

(** [processing] is a [Set] of item objects; it is kept as a finite map from
    the identity of an item to the item, so that the continuation of
    [processNext] finds the fields of the item it captured.  [nextRef] is the
    allocator of object identities. *)
Record t : Type := mkQueue {
  queue : list QueueItem;
  processing : gmap nat QueueItem;
  maxConcurrent : Z;
  completed : list QueueItem;
  failed : list QueueItem;
  metrics : Metrics;
  nextRef : nat
}.

(** Calls that leave the queue. *)
Inductive event : Type :=
| Enqueued (r : nat)            (* logger.debug('Request enqueued') *)
| Started (r : nat)             (* item.request() is invoked *)
| Resolved (r : nat)            (* item.resolve(result) *)
| Rejected (r : nat)            (* item.reject(error) *)
| FailureLogged (r : nat) (m : string)
| ContinuationThrew (r : nat)   (* the promise of processNext() rejects *)
| HistoryCleared
| LimitUpdated (old new : Z).

Definition zeroMetrics (total : Z) : Metrics :=
  mkMetrics total 0 0 0%Q 0%Q.

(** [constructor(maxConcurrent = 3)] *)
Definition new (maxConcurrent : option Z) : t :=
  mkQueue [] ∅ (default 3 maxConcurrent) [] [] (zeroMetrics 0) 0%nat.

Definition processingSize (q : t) : Z := Z.of_nat (size (processing q)).
Definition queueLength (q : t) : Z := Z.of_nat (length (queue q)).

Definition set_metrics (q : t) (m : Metrics) : t :=
  mkQueue (queue q) (processing q) (maxConcurrent q) (completed q) (failed q)
          m (nextRef q).

Definition waitTime (i : QueueItem) : Z := num (startedAt i) - enqueuedAt i.
Definition processingTime (i : QueueItem) : Z :=
  num (completedAt i) - num (startedAt i).

Definition sumZ (l : list Z) : Z := fold_left Z.add l 0.

Definition mean (l : list Z) : Q :=
  (inject_Z (sumZ l) / inject_Z (Z.of_nat (length l)))%Q.

(** [updateMetrics()] *)
Definition updateMetrics (q : t) : t :=
  let completedItems := completed q ++ failed q in
  if (0 <? Z.of_nat (length completedItems)) then
    let m := metrics q in
    set_metrics q
      (mkMetrics (totalRequests m) (completedRequests m) (failedRequests m)
                 (mean (map waitTime completedItems))
                 (mean (map processingTime completedItems)))
  else q.

(** [processNext()] up to its [await]: the guard, the removal of the head
    of the wait list, and the call of the work unit. *)
Definition processNext (q : t) (now : Z) : t * list event :=
  if (maxConcurrent q <=? processingSize q) || (queueLength q =? 0) then
    (q, [])
  else
    match queue q with
    | [] => (q, [])
    | item :: rest =>
        let item' := mkItem (ref item) (id item) (enqueuedAt item)
                            (Some now) (completedAt item) in
        (mkQueue rest (<[ref item := item']> (processing q))
                 (maxConcurrent q) (completed q) (failed q) (metrics q)
                 (nextRef q),
         [Started (ref item)])
    end.

(** The bookkeeping of [enqueue]: the new item joins the wait list and
    [totalRequests] is incremented. *)
Definition push (q : t) (rid : string) (nowEnq : Z) : t :=
  let queueItem := mkItem (nextRef q) rid nowEnq None None in
  let m := metrics q in
  mkQueue (queue q ++ [queueItem]) (processing q) (maxConcurrent q)
          (completed q) (failed q)
          (mkMetrics (totalRequests m + 1) (completedRequests m)
                     (failedRequests m) (averageWaitTime m)
                     (averageProcessingTime m))
          (S (nextRef q)).

(** [enqueue(request)]: the executor of the returned promise runs at once. *)
Definition enqueue (q : t) (rid : string) (nowEnq nowStart : Z)
  : t * list event :=
  let '(q2, evs) := processNext (push q rid nowEnq) nowStart in
  (q2, Enqueued (nextRef q) :: evs).

(** The bookkeeping shared by the two branches of the continuation of
    [processNext()]: the item leaves the processing set, joins the
    [completed] or the [failed] list, the matching counter is incremented
    and the averages are recomputed. *)
Definition retire (q : t) (r : nat) (item : QueueItem) (ok : bool) : t :=
  let m := metrics q in
  updateMetrics
    (if ok then
       mkQueue (queue q) (delete r (processing q)) (maxConcurrent q)
               (completed q ++ [item]) (failed q)
               (mkMetrics (totalRequests m) (completedRequests m + 1)
                          (failedRequests m) (averageWaitTime m)
                          (averageProcessingTime m))
               (nextRef q)
     else
       mkQueue (queue q) (delete r (processing q)) (maxConcurrent q)
               (completed q) (failed q ++ [item])
               (mkMetrics (totalRequests m) (completedRequests m)
                          (failedRequests m + 1) (averageWaitTime m)
                          (averageProcessingTime m))
               (nextRef q)).

(** The continuation of [processNext()] for the item with identity [r],
    run when the promise of its work unit settles.  Only a dispatched item
    that has not settled yet has such a continuation; for any other [r]
    nothing runs.

    A work unit that throws before it returns a promise makes the
    [catch] block run within the call of [processNext()] itself: in a run
    that is a settlement right after the dispatch.

    On the failure path the [logger.error] call reads [error.message]
    inside the [catch] block, after the bookkeeping and before
    [item.reject] and the chained [processNext()]: when the read throws,
    the continuation ends there and the promise of [processNext()]
    rejects. *)
Definition settle (q : t) (r : nat) (o : outcome) (nowDone nowNext : Z)
  : t * list event :=
  match processing q !! r with
  | None => (q, [])
  | Some item =>
      let item' := mkItem (ref item) (id item) (enqueuedAt item)
                          (startedAt item) (Some nowDone) in
      match o with
      | Fulfils =>
          let '(q3, evs) := processNext (retire q r item' true) nowNext in
          (q3, Resolved r :: evs)
      | RejectsWith e =>
          let q2 := retire q r item' false in
          match read_message e with
          | inr _ => (q2, [ContinuationThrew r])
          | inl msg =>
              let '(q3, evs) := processNext q2 nowNext in
              (q3, FailureLogged r msg :: Rejected r :: evs)
          end
      end
  end.

(** [clearHistory()] *)
Definition clearHistory (q : t) : t * list event :=
  (mkQueue (queue q) (processing q) (maxConcurrent q) [] []
           (zeroMetrics (queueLength q + processingSize q)) (nextRef q),
   [HistoryCleared]).

Definition set_maxConcurrent (q : t) (n : Z) : t :=
  mkQueue (queue q) (processing q) n (completed q) (failed q) (metrics q)
          (nextRef q).

(** [setMaxConcurrent(newLimit)] *)
Definition setMaxConcurrent (q : t) (newLimit : Z) (now : Z)
  : t * list event :=
  let oldLimit := maxConcurrent q in
  let q1 := set_maxConcurrent q (Z.max 1 newLimit) in
  if oldLimit <? maxConcurrent q1 then
    let '(q2, evs) := processNext q1 now in
    (q2, LimitUpdated oldLimit (maxConcurrent q1) :: evs)
  else (q1, [LimitUpdated oldLimit (maxConcurrent q1)]).

(** [getStats()] *)
Record Stats : Type := mkStats {
  stat_queued : Z;
  stat_processing : Z;
  stat_completed : Z;
  stat_failed : Z;
  stat_maxConcurrent : Z;
  stat_metrics : Metrics
}.

Definition getStats (q : t) : Stats :=
  mkStats (queueLength q) (processingSize q)
          (Z.of_nat (length (completed q))) (Z.of_nat (length (failed q)))
          (maxConcurrent q) (metrics q).

Definition getAverageWaitTime (q : t) : Q := averageWaitTime (metrics q).

(** *** Runs of a queue

    What a client and the scheduler can do to a queue, one atomic part at a
    time. *)
Inductive op : Type :=
| Enqueue (rid : string) (nowEnq nowStart : Z)
| Settle (r : nat) (o : outcome) (nowDone nowNext : Z)
| ClearHistory
| SetMaxConcurrent (newLimit : Z) (now : Z).

Definition step (q : t) (o : op) : t * list event :=
  match o with
  | Enqueue rid a b => enqueue q rid a b
  | Settle r oc a b => settle q r oc a b
  | ClearHistory => clearHistory q
  | SetMaxConcurrent n now => setMaxConcurrent q n now
  end.

(** The state and the events, oldest first, after a run. *)
Fixpoint run (q : t) (ops : list op) : t * list event :=
  match ops with
  | [] => (q, [])
  | o :: ops' =>
      let '(q1, e1) := step q o in
      let '(q2, e2) := run q1 ops' in
      (q2, e1 ++ e2)
  end.

(** *** Observations on a run

    The identities of the items in the order in which they were admitted,
    in which their work units were called, and in which their work units
    settled. *)
Definition enqueuedLog (evs : list event) : list nat :=
  omap (λ e, match e with Enqueued r => Some r | _ => None end) evs.

Definition startedLog (evs : list event) : list nat :=
  omap (λ e, match e with Started r => Some r | _ => None end) evs.

Definition settledLog (evs : list event) : list nat :=
  omap (λ e, match e with
             | Resolved r | Rejected r | ContinuationThrew r => Some r
             | _ => None
             end) evs.

(** The processing set is within the ceiling. *)
Definition within_ceiling (q : t) : Prop :=
  processingSize q <= maxConcurrent q.

(** No [setMaxConcurrent] of the run sets the ceiling below the number of
    items in flight at the time of the call. *)
Fixpoint spares_inflight (q : t) (ops : list op) : bool :=
  match ops with
  | [] => true
  | o :: ops' =>
      match o with
      | SetMaxConcurrent n _ => processingSize q <=? Z.max 1 n
      | _ => true
      end && spares_inflight (fst (step q o)) ops'
  end.

(** The largest ceiling in force at some point of a run that starts with
    ceiling [c]. *)
Definition peak (c : Z) (ops : list op) : Z :=
  fold_left (λ p o, match o with
                    | SetMaxConcurrent n _ => Z.max p (Z.max 1 n)
                    | _ => p
                    end) ops c.

(** No [setMaxConcurrent] of the run asks for more than one slot. *)
Definition single_slot (o : op) : bool :=
  match o with
  | SetMaxConcurrent n _ => n <=? 1
  | _ => true
  end.

(** Events that neither admit an item nor call a work unit. *)
Definition quiet (e : event) : bool :=
  match e with
  | Enqueued _ | Started _ => false
  | _ => true
  end.

(** Invariants of a run that started from a new queue, stated on the state
    and the events so far: items are admitted with consecutive identities,
    the items called so far followed by the wait list are the admitted
    items in order, and an item in the processing set has been called. *)
Definition ordered (q : t) (evs : list event) : Prop :=
  enqueuedLog evs = seq 0 (nextRef q)
  ∧ startedLog evs ++ map ref (queue q) = seq 0 (nextRef q)
  ∧ ∀ r it, processing q !! r = Some it → r ∈ startedLog evs.

(** With one slot: at most one item is in flight, and it is the last one
    called. *)
Definition serial (q : t) (evs : list event) : Prop :=
  maxConcurrent q <= 1
  ∧ ((processing q = ∅ ∧ startedLog evs = settledLog evs)
     ∨ ∃ r it, processing q = {[r := it]}
               ∧ startedLog evs = settledLog evs ++ [r]).

(** The queue's counters add up. *)
Definition conserved (q : t) : Prop :=
  totalRequests (metrics q)
  = processingSize q + queueLength q
    + Z.of_nat (length (completed q)) + Z.of_nat (length (failed q)).

(** *** Further observations

    The stages of an item's life, read off its two timestamps. *)
Definition waiting (i : QueueItem) : Prop :=
  startedAt i = None ∧ completedAt i = None.

Definition inflight (i : QueueItem) : Prop :=
  is_Some (startedAt i) ∧ completedAt i = None.

Definition finished (i : QueueItem) : Prop :=
  is_Some (startedAt i) ∧ is_Some (completedAt i).

(** Every item is where its timestamps say it is. *)
Definition lifecycle (q : t) : Prop :=
  Forall waiting (queue q)
  ∧ map_Forall (λ _ i, inflight i) (processing q)
  ∧ Forall finished (completed q)
  ∧ Forall finished (failed q).

(** The items [updateMetrics] averages over. *)
Definition history (q : t) : list QueueItem := completed q ++ failed q.

(** The counters and averages of [metrics] describe the history lists as
    they are now. *)
Definition current_stats (q : t) : Prop :=
  completedRequests (metrics q) = Z.of_nat (length (completed q))
  ∧ failedRequests (metrics q) = Z.of_nat (length (failed q))
  ∧ averageWaitTime (metrics q)
    = (if 0 <? Z.of_nat (length (history q))
       then mean (map waitTime (history q)) else 0%Q)
  ∧ averageProcessingTime (metrics q)
    = (if 0 <? Z.of_nat (length (history q))
       then mean (map processingTime (history q)) else 0%Q).

(** Each work unit is called once and settles once, after it was called. *)
Definition once (q : t) (evs : list event) : Prop :=
  NoDup (startedLog evs)
  ∧ NoDup (settledLog evs)
  ∧ ∀ r, r ∈ settledLog evs → r ∈ startedLog evs ∧ processing q !! r = None.

(** Operations that keep the ceiling and whose continuation reaches the
    chained [processNext()]. *)
Definition steady (o : op) : bool :=
  match o with
  | SetMaxConcurrent _ _ => false
  | Settle _ (RejectsWith ThrownNullish) _ _ => false
  | _ => true
  end.

(** Nothing waits while a slot is free. *)
Definition saturated (q : t) : Prop :=
  queue q = [] ∨ maxConcurrent q <= processingSize q.

(** The part of a queue that decides what is dispatched. *)
Definition live (q : t)
  : list QueueItem * gmap nat QueueItem * Z * nat :=
  (queue q, processing q, maxConcurrent q, nextRef q).

Definition is_clear (o : op) : bool :=
  match o with
  | ClearHistory => true
  | _ => false
  end.

Definition not_cleared (e : event) : bool :=
  match e with
  | HistoryCleared => false
  | _ => true
  end.

End RequestQueue.

(** * PerformanceMonitor *)

Module PerformanceMonitor.

(** The constructor's argument. *)
Record UserOptions : Type := mkUserOptions {
  u_maxMemoryUsage : option Z;
  u_maxProcessingTime : option Z;
  u_monitoringInterval : option Z;
  u_memoryThreshold : option Q;
  u_processingTimeThreshold : option Q;
  u_errorRateThreshold : option Q
}.

Definition noOptions : UserOptions :=
  mkUserOptions None None None None None None.

Record AlertThresholds : Type := mkThresholds {
  th_memoryUsage : Q;
  th_processingTime : Q;
  th_errorRate : Q
}.

Record Options : Type := mkOptions {
  maxMemoryUsage : Z;
  maxProcessingTime : Z;
  monitoringInterval : Z;
  alertThresholds : AlertThresholds
}.

Record Requests : Type := mkRequests {
  total : Z;
  completed : Z;
  failed : Z;
  inProgress : Z
}.

Record Performance : Type := mkPerformance {
  averageResponseTime : Q;
  p95ResponseTime : Q;
  throughput : ratio;
  errorRate : ratio
}.

Record Resources : Type := mkResources {
  memoryUsage : Z;
  cpuUsage : Z;
  activeConnections : Z
}.

Record Timestamps : Type := mkTimestamps {
  startTime : Z;
  lastUpdate : Z
}.

Record Metrics : Type := mkMetrics {
  requests : Requests;
  performance : Performance;
  resources : Resources;
  timestamps : Timestamps
}.

Record t : Type := mkMonitor {
  options : Options;
  metrics : Metrics;
  responseTimes : list Z;
  monitoringTimer : bool;       (* an interval is installed *)
  isMonitoring : bool
}.

(** The tracking object handed out by [recordRequestStart]. *)
Record Request : Type := mkRequest {
  req_id : string;
  req_startTime : Z;
  req_endTime : option Z;
  req_duration : option Z;
  req_success : option bool
}.

Definition freshMetrics (now1 now2 : Z) : Metrics :=
  mkMetrics (mkRequests 0 0 0 0) (mkPerformance 0 0 (Finite 0) (Finite 0))
            (mkResources 0 0 0) (mkTimestamps now1 now2).

(** [constructor(options = {})] *)
Definition new (o : UserOptions) (now1 now2 : Z) : t :=
  mkMonitor
    (mkOptions
       (spread (u_maxMemoryUsage o) (orZ (u_maxMemoryUsage o) 16000))
       (spread (u_maxProcessingTime o) (orZ (u_maxProcessingTime o) 30000))
       (spread (u_monitoringInterval o) (orZ (u_monitoringInterval o) 5000))
       (mkThresholds (orQ (u_memoryThreshold o) 0.8)
                     (orQ (u_processingTimeThreshold o) 0.8)
                     (orQ (u_errorRateThreshold o) 0.1)))
    (freshMetrics now1 now2) [] false false.

Definition set_metrics (m : t) (x : Metrics) : t :=
  mkMonitor (options m) x (responseTimes m) (monitoringTimer m)
            (isMonitoring m).

Definition set_requests (m : t) (r : Requests) : t :=
  let x := metrics m in
  set_metrics m (mkMetrics r (performance x) (resources x) (timestamps x)).

(** [startMonitoring()] *)
Definition startMonitoring (m : t) (now : Z) : t :=
  if isMonitoring m then m
  else
    let x := metrics m in
    mkMonitor (options m)
              (mkMetrics (requests x) (performance x) (resources x)
                         (mkTimestamps now (lastUpdate (timestamps x))))
              (responseTimes m) true true.

(** [stopMonitoring()] *)
Definition stopMonitoring (m : t) : t :=
  if negb (isMonitoring m) then m
  else mkMonitor (options m) (metrics m) (responseTimes m) false false.

(** [recordRequestStart(requestId)] *)
Definition recordRequestStart (m : t) (requestId : string) (now : Z)
  : t * Request :=
  let r := requests (metrics m) in
  (set_requests m
     (mkRequests (total r + 1) (completed r) (failed r) (inProgress r + 1)),
   mkRequest requestId now None None None).

(** Ascending numeric sort, [sort((a, b) => a - b)]. *)
Fixpoint insertSorted (x : Z) (l : list Z) : list Z :=
  match l with
  | [] => [x]
  | y :: l' => if x <=? y then x :: l else y :: insertSorted x l'
  end.

Definition sortTimes (l : list Z) : list Z := fold_right insertSorted [] l.

Definition sumTimes (l : list Z) : Z := fold_left Z.add l 0.

(** [updatePerformanceMetrics()].  [Math.floor(n * 0.95)] is taken on
    exact rationals, [n * 19 / 20] rounded down. *)
Definition updatePerformanceMetrics (m : t) (nowUptime nowLast : Z) : t :=
  if (Z.of_nat (length (responseTimes m)) =? 0) then m
  else
    let x := metrics m in
    let r := requests x in
    let totalTime := sumTimes (responseTimes m) in
    let avg :=
      (inject_Z totalTime / inject_Z (Z.of_nat (length (responseTimes m))))%Q in
    let sortedTimes := sortTimes (responseTimes m) in
    let p95Index :=
      Z.to_nat (Z.of_nat (length sortedTimes) * 19 / 20) in
    let p95 := inject_Z (default 0 (sortedTimes !! p95Index)) in
    let err :=
      if 0 <? total r then jsdiv (inject_Z (failed r)) (inject_Z (total r))
      else Finite 0 in
    let uptime :=
      (inject_Z (nowUptime - startTime (timestamps x)) / 1000)%Q in
    let thr :=
      if Qgtb uptime 0 then jsdiv (inject_Z (completed r)) uptime
      else Finite 0 in
    set_metrics m
      (mkMetrics r (mkPerformance avg p95 thr err) (resources x)
                 (mkTimestamps (startTime (timestamps x)) nowLast)).

(** [responseTimes.slice(-1000)] when the buffer has grown past 1000. *)
Definition trimTimes (l : list Z) : list Z :=
  if 1000 <? Z.of_nat (length l) then drop (length l - 1000) l else l.

(** [recordRequestEnd(request, success = true)] *)
Definition recordRequestEnd (m : t) (request : Request) (success : bool)
           (nowEnd nowUptime nowLast : Z) : t * Request :=
  let duration := nowEnd - req_startTime request in
  let request' :=
    mkRequest (req_id request) (req_startTime request) (Some nowEnd)
              (Some duration) (Some success) in
  let r := requests (metrics m) in
  let r' :=
    if success then
      mkRequests (total r) (completed r + 1) (failed r) (inProgress r - 1)
    else
      mkRequests (total r) (completed r) (failed r + 1) (inProgress r - 1) in
  let m1 := set_requests m r' in
  let m2 :=
    mkMonitor (options m1) (metrics m1)
              (trimTimes (responseTimes m1 ++ [duration]))
              (monitoringTimer m1) (isMonitoring m1) in
  (updatePerformanceMetrics m2 nowUptime nowLast, request').

(** A request that starts at [start] and ends [duration] milliseconds
    later: [recordRequestStart], then [recordRequestEnd] on the object it
    returned. *)
Definition recordRequest (m : t) (requestId : string) (start duration : Z)
           (success : bool) (nowUptime nowLast : Z) : t :=
  let '(m1, request) := recordRequestStart m requestId start in
  (recordRequestEnd m1 request success (start + duration) nowUptime nowLast).1.

(** [updateMetrics()], the first half of the periodic tick. *)
Definition updateMetrics (m : t) (nowUptime nowLast : Z) : t :=
  let x := metrics m in
  let res := resources x in
  let m1 :=
    set_metrics m
      (mkMetrics (requests x) (performance x)
                 (mkResources (memoryUsage res) (cpuUsage res)
                              (inProgress (requests x)))
                 (timestamps x)) in
  updatePerformanceMetrics m1 nowUptime nowLast.

Inductive alert : Type :=
| HighErrorRate
| HighResponseTime.

(** [checkAlerts()]: the warnings it logs.  The response-time ratio is
    the exact quotient. *)
Definition checkAlerts (m : t) : list alert :=
  let th := alertThresholds (options m) in
  let p := performance (metrics m) in
  (if ratio_gt (errorRate p) (th_errorRate th) then [HighErrorRate] else [])
  ++
  (if ratio_gt (jsdiv (averageResponseTime p)
                      (inject_Z (maxProcessingTime (options m))))
               (th_processingTime th)
   then [HighResponseTime] else []).

(** [getMetrics()] *)
Record MetricsReport : Type := mkReport {
  rep_metrics : Metrics;
  rep_uptime : Z;
  rep_isMonitoring : bool
}.

Definition getMetrics (m : t) (now : Z) : MetricsReport :=
  mkReport (metrics m) (now - startTime (timestamps (metrics m)))
           (isMonitoring m).

(** [resetMetrics()] *)
Definition resetMetrics (m : t) (now1 now2 : Z) : t :=
  mkMonitor (options m) (freshMetrics now1 now2) [] (monitoringTimer m)
            (isMonitoring m).

(** [isSystemHealthy()]; the limit of the response time is the exact
    product. *)
Definition isSystemHealthy (m : t) : bool :=
  let p := performance (metrics m) in
  let th := alertThresholds (options m) in
  ratio_le (errorRate p) (th_errorRate th)
  && Qle_bool (averageResponseTime p)
              (inject_Z (maxProcessingTime (options m)) * th_processingTime th)%Q.

(** *** Runs of a monitor *)
Inductive op : Type :=
| RecordStart (requestId : string) (now : Z)
| RecordEnd (request : Request) (success : bool) (nowEnd nowUptime nowLast : Z)
| Tick (nowUptime nowLast : Z)
| Reset (now1 now2 : Z)
| StartMonitoring (now : Z)
| StopMonitoring.

Definition step (m : t) (o : op) : t :=
  match o with
  | RecordStart rid now => fst (recordRequestStart m rid now)
  | RecordEnd rq ok a b c => fst (recordRequestEnd m rq ok a b c)
  | Tick a b => updateMetrics m a b
  | Reset a b => resetMetrics m a b
  | StartMonitoring now => startMonitoring m now
  | StopMonitoring => stopMonitoring m
  end.

Definition run (m : t) (ops : list op) : t := fold_left step ops m.

(** [getSummary()] *)
Record Summary : Type := mkSummary {
  sum_uptime : Z;
  sum_totalRequests : Z;
  sum_successRate : ratio;
  sum_averageResponseTime : Q;
  sum_throughput : ratio;
  sum_currentLoad : Z;
  sum_isHealthy : bool
}.

Definition getSummary (m : t) (now : Z) : Summary :=
  let r := requests (metrics m) in
  let p := performance (metrics m) in
  mkSummary (now - startTime (timestamps (metrics m)))
            (total r)
            (if 0 <? total r
             then jsdiv (inject_Z (completed r)) (inject_Z (total r))
             else Finite 0)
            (averageResponseTime p) (throughput p) (inProgress r)
            (isSystemHealthy m).

(** *** Further observations *)

Definition is_start (o : op) : bool :=
  match o with
  | RecordStart _ _ => true
  | _ => false
  end.

Definition is_end (ok : bool) (o : op) : bool :=
  match o with
  | RecordEnd _ success _ _ _ => Bool.eqb success ok
  | _ => false
  end.

Definition is_reset (o : op) : bool :=
  match o with
  | Reset _ _ => true
  | _ => false
  end.

Definition no_reset (o : op) : bool := negb (is_reset o).

(** Every operation but a [recordRequestEnd] that reports a failure. *)
Definition no_failure (o : op) : bool := negb (is_end false o).

(** How many operations of a run satisfy [f]. *)
Definition count (f : op -> bool) (ops : list op) : Z :=
  Z.of_nat (length (filter (λ o, f o = true) ops)).

(** How many samples are at most, and at least, [x]. *)
Definition countLe (x : Z) (l : list Z) : Z :=
  Z.of_nat (length (filter (λ y, y <= x) l)).

Definition countGe (x : Z) (l : list Z) : Z :=
  Z.of_nat (length (filter (λ y, x <= y) l)).


(** The monitor's counters add up. *)
Definition conserved (m : t) : Prop :=
  let r := requests (metrics m) in
  total r = completed r + failed r + inProgress r.

(** The failure counter is not negative and the stored error rate is a
    finite number that is not negative; both are 0 while no failure is
    recorded. *)
Definition rate_ok (m : t) : Prop :=
  0 <= failed (requests (metrics m))
  ∧ ∃ e, errorRate (performance (metrics m)) = Finite e ∧ (0 <= e)%Q.

Definition rate_zero (m : t) : Prop :=
  failed (requests (metrics m)) = 0
  ∧ ratio_is (errorRate (performance (metrics m))) 0.

End PerformanceMonitor.

(** * ResourceManager *)

Module ResourceManager.

(** The constructor's argument. *)
Record UserOptions : Type := mkUserOptions {
  u_maxMemoryUsage : option Z;
  u_maxConcurrentRequests : option Z;
  u_maxProcessingTime : option Z;
  u_memoryOptimizationThreshold : option Q;
  u_gracefulDegradationThreshold : option Q;
  u_monitoringInterval : option Z
}.

Definition noOptions : UserOptions :=
  mkUserOptions None None None None None None.

Record Options : Type := mkOptions {
  maxMemoryUsage : Z;
  maxConcurrentRequests : Z;
  maxProcessingTime : Z;
  memoryOptimizationThreshold : Q;
  gracefulDegradationThreshold : Q;
  monitoringInterval : Z
}.

Record Limits : Type := mkLimits {
  lim_maxMemoryUsage : Z;
  lim_maxProcessingTime : Z
}.

(** [modelManagers] is a [Set] of collaborator objects, iterated in
    insertion order: a duplicate-free list of object identities. *)
Record t : Type := mkManager {
  options : Options;
  requestQueue : RequestQueue.t;
  performanceMonitor : PerformanceMonitor.t;
  currentMemoryUsage : Z;
  resourceLimits : Limits;
  isOptimizing : bool;
  isDegraded : bool;
  lastOptimization : option Z;
  modelManagers : list nat
}.

(** The argument of [updateResourceLimits]; [None] is an absent key. *)
Record NewLimits : Type := mkNewLimits {
  n_maxMemoryUsage : option Z;
  n_maxProcessingTime : option Z;
  n_maxConcurrentRequests : option Z
}.

(** What the collaborators show at one moment: the [memoryUsage] gauge of
    each (absent when the property is missing). *)
Definition gauges : Type := nat -> option Z.

(** How each collaborator's [optimizeMemory()] call ends: the promise it
    returns fulfils, or the call throws or the promise rejects. *)
Definition hooks : Type := nat -> outcome.

Inductive completion : Type :=
| Normal
| Abrupt (e : thrown).

Inductive event : Type :=
| OptimizationStarted
| OptimizeMemoryCalled (m : nat)
| ManagerOptimizationFailed (msg : string)
| GcForced
| OptimizationCompleted
| OptimizationFailed (msg : string)
| DegradationEnabled
| DegradationDisabled
| RecoveryCheckScheduled
| LimitsUpdated
| Queue (e : RequestQueue.event).

(** [constructor(options = {})] *)
Definition new (o : UserOptions) (now1 now2 : Z) : t :=
  let opts :=
    mkOptions
      (spread (u_maxMemoryUsage o) (orZ (u_maxMemoryUsage o) 16000))
      (spread (u_maxConcurrentRequests o) (orZ (u_maxConcurrentRequests o) 3))
      (spread (u_maxProcessingTime o) (orZ (u_maxProcessingTime o) 30000))
      (spread (u_memoryOptimizationThreshold o)
              (orQ (u_memoryOptimizationThreshold o) 0.8))
      (spread (u_gracefulDegradationThreshold o)
              (orQ (u_gracefulDegradationThreshold o) 0.9))
      (spread (u_monitoringInterval o) (orZ (u_monitoringInterval o) 5000)) in
  mkManager opts
    (RequestQueue.new (Some (maxConcurrentRequests opts)))
    (PerformanceMonitor.new
       (PerformanceMonitor.mkUserOptions
          (Some (maxMemoryUsage opts)) (Some (maxProcessingTime opts))
          (Some (monitoringInterval opts)) None None None)
       now1 now2)
    0 (mkLimits (maxMemoryUsage opts) (maxProcessingTime opts))
    false false None [].

Definition set_options (s : t) (o : Options) : t :=
  mkManager o (requestQueue s) (performanceMonitor s) (currentMemoryUsage s)
            (resourceLimits s) (isOptimizing s) (isDegraded s)
            (lastOptimization s) (modelManagers s).

Definition set_requestQueue (s : t) (q : RequestQueue.t) : t :=
  mkManager (options s) q (performanceMonitor s) (currentMemoryUsage s)
            (resourceLimits s) (isOptimizing s) (isDegraded s)
            (lastOptimization s) (modelManagers s).

Definition set_performanceMonitor (s : t) (m : PerformanceMonitor.t) : t :=
  mkManager (options s) (requestQueue s) m (currentMemoryUsage s)
            (resourceLimits s) (isOptimizing s) (isDegraded s)
            (lastOptimization s) (modelManagers s).

Definition set_currentMemoryUsage (s : t) (x : Z) : t :=
  mkManager (options s) (requestQueue s) (performanceMonitor s) x
            (resourceLimits s) (isOptimizing s) (isDegraded s)
            (lastOptimization s) (modelManagers s).

Definition set_resourceLimits (s : t) (l : Limits) : t :=
  mkManager (options s) (requestQueue s) (performanceMonitor s)
            (currentMemoryUsage s) l (isOptimizing s) (isDegraded s)
            (lastOptimization s) (modelManagers s).

Definition set_isOptimizing (s : t) (b : bool) : t :=
  mkManager (options s) (requestQueue s) (performanceMonitor s)
            (currentMemoryUsage s) (resourceLimits s) b (isDegraded s)
            (lastOptimization s) (modelManagers s).

Definition set_isDegraded (s : t) (b : bool) : t :=
  mkManager (options s) (requestQueue s) (performanceMonitor s)
            (currentMemoryUsage s) (resourceLimits s) (isOptimizing s) b
            (lastOptimization s) (modelManagers s).

Definition set_lastOptimization (s : t) (x : option Z) : t :=
  mkManager (options s) (requestQueue s) (performanceMonitor s)
            (currentMemoryUsage s) (resourceLimits s) (isOptimizing s)
            (isDegraded s) x (modelManagers s).

Definition set_modelManagers (s : t) (l : list nat) : t :=
  mkManager (options s) (requestQueue s) (performanceMonitor s)
            (currentMemoryUsage s) (resourceLimits s) (isOptimizing s)
            (isDegraded s) (lastOptimization s) l.

Definition set_maxMemoryUsage (o : Options) (x : Z) : Options :=
  mkOptions x (maxConcurrentRequests o) (maxProcessingTime o)
            (memoryOptimizationThreshold o) (gracefulDegradationThreshold o)
            (monitoringInterval o).

Definition set_maxConcurrentRequests (o : Options) (x : Z) : Options :=
  mkOptions (maxMemoryUsage o) x (maxProcessingTime o)
            (memoryOptimizationThreshold o) (gracefulDegradationThreshold o)
            (monitoringInterval o).

Definition set_maxProcessingTime (o : Options) (x : Z) : Options :=
  mkOptions (maxMemoryUsage o) (maxConcurrentRequests o) x
            (memoryOptimizationThreshold o) (gracefulDegradationThreshold o)
            (monitoringInterval o).

(** [registerModelManager(modelManager)] *)
Definition registerModelManager (s : t) (m : nat) : t :=
  if bool_decide (m ∈ modelManagers s) then s
  else set_modelManagers s (modelManagers s ++ [m]).

(** [unregisterModelManager(modelManager)] *)
Definition unregisterModelManager (s : t) (m : nat) : t :=
  set_modelManagers s (filter (λ x, x ≠ m) (modelManagers s)).

(** [getCurrentMemoryUsage()]: the sum of the gauges, cached as a side
    effect. *)
Definition totalMemory (g : gauges) (l : list nat) : Z :=
  fold_left (λ acc m, acc + orZ (g m) 0) l 0.

Definition getCurrentMemoryUsage (s : t) (g : gauges) : t * Z :=
  let totalMemory := totalMemory g (modelManagers s) in
  (set_currentMemoryUsage s totalMemory, totalMemory).

(** The callback mapped over the collaborators in [optimizeResources]:
    [try { await modelManager.optimizeMemory() } catch (error) { log }]. *)
Definition optimizeOne (h : outcome) : outcome * list event :=
  match h with
  | Fulfils => (Fulfils, [])
  | RejectsWith e =>
      match read_message e with
      | inl msg => (Fulfils, [ManagerOptimizationFailed msg])
      | inr te => (RejectsWith te, [])
      end
  end.

(** [Promise.all]: fulfils when every promise does, rejects with a
    rejection otherwise (the first in the list is taken). *)
Fixpoint promiseAll (l : list outcome) : outcome :=
  match l with
  | [] => Fulfils
  | Fulfils :: l' => promiseAll l'
  | RejectsWith e :: _ => RejectsWith e
  end.

(** [optimizeResources()] up to its [await].  [None] is the early return of
    the guard.  Otherwise the flag is raised and [optimizeMemory()] is called
    on every collaborator of the snapshot [Array.from(this.modelManagers)],
    which is returned for the continuation. *)
Definition optimizeResources_enter (s : t)
  : option (t * list nat * list event) :=
  if isOptimizing s then None
  else
    let s1 := set_isOptimizing s true in
    let snapshot := modelManagers s1 in
    Some (s1, snapshot,
          OptimizationStarted :: map OptimizeMemoryCalled snapshot).

(** [catch (error) { logger.error(..., { error: error.message }) }] *)
Definition catch_and_log (c : completion) (log : string -> event)
  : completion * list event :=
  match c with
  | Normal => (Normal, [])
  | Abrupt e =>
      match read_message e with
      | inl msg => (Normal, [log msg])
      | inr te => (Abrupt te, [])
      end
  end.

(** The continuation of [optimizeResources()], run on the state [s] the
    manager is in when [Promise.all] settles: the rest of the [try] block,
    the [catch] block and the [finally] block.  [gc] tells whether the
    runtime exposes [global.gc]. *)
Definition optimizeResources_resume (s : t) (snapshot : list nat) (h : hooks)
           (gc : bool) (g : gauges) (now : Z)
  : t * completion * list event :=
  let wrapped := map (λ m, optimizeOne (h m)) snapshot in
  let ev0 := concat (map snd wrapped) in
  let '(s1, c1, ev1) :=
    match promiseAll (map fst wrapped) with
    | RejectsWith e => (s, Abrupt e, [])
    | Fulfils =>
        let '(q, qev) := RequestQueue.clearHistory (requestQueue s) in
        let s' := set_requestQueue s q in
        let s'' := set_lastOptimization s' (Some now) in
        let '(s''', _) := getCurrentMemoryUsage s'' g in
        (s''', Normal,
         (if gc then [GcForced] else []) ++ map Queue qev
         ++ [OptimizationCompleted])
    end in
  let '(c2, ev2) := catch_and_log c1 OptimizationFailed in
  (set_isOptimizing s1 false, c2, ev0 ++ ev1 ++ ev2).

(** A whole call of [optimizeResources()] with nothing interleaved at its
    [await]. *)
Definition optimizeResources (s : t) (h : hooks) (gc : bool) (g : gauges)
           (now : Z) : t * completion * list event :=
  match optimizeResources_enter s with
  | None => (s, Normal, [])
  | Some (s1, snapshot, ev) =>
      let '(s2, c, ev') := optimizeResources_resume s1 snapshot h gc g now in
      (s2, c, ev ++ ev')
  end.

(** [enableGracefulDegradation()] up to its [await]: the guard, the flag,
    the reduced ceiling, and the synchronous part of the
    [optimizeResources()] call.  The snapshot, when there is one, belongs to
    the optimisation pass that was entered. *)
Definition enableGracefulDegradation (s : t) (now : Z)
  : t * option (list nat) * list event :=
  if isDegraded s then (s, None, [])
  else
    let s1 := set_isDegraded s true in
    let reducedConcurrency :=
      Z.max 1 (maxConcurrentRequests (options s1) / 2) in
    let '(q, qev) :=
      RequestQueue.setMaxConcurrent (requestQueue s1) reducedConcurrency now in
    let s2 := set_requestQueue s1 q in
    match optimizeResources_enter s2 with
    | None => (s2, None, DegradationEnabled :: map Queue qev)
    | Some (s3, snapshot, ev) =>
        (s3, Some snapshot, DegradationEnabled :: map Queue qev ++ ev)
    end.

(** [disableGracefulDegradation()] *)
Definition disableGracefulDegradation (s : t) (now : Z) : t * list event :=
  if negb (isDegraded s) then (s, [])
  else
    let s1 := set_isDegraded s false in
    let '(q, qev) :=
      RequestQueue.setMaxConcurrent (requestQueue s1)
                                    (maxConcurrentRequests (options s1)) now in
    (set_requestQueue s1 q, DegradationDisabled :: map Queue qev).

(** [checkDegradationRecovery()] *)
Definition checkDegradationRecovery (s : t) (g : gauges) (now : Z)
  : t * list event :=
  let '(s1, memoryUsage) := getCurrentMemoryUsage s g in
  let memoryUtilization :=
    jsdiv (inject_Z memoryUsage)
          (inject_Z (lim_maxMemoryUsage (resourceLimits s1))) in
  if ratio_lt memoryUtilization (memoryOptimizationThreshold (options s1))
  then disableGracefulDegradation s1 now
  else (s1, [RecoveryCheckScheduled]).

(** A value is truthy when it is present and not [0]. *)
Definition truthy (a : option Z) : option Z :=
  match a with
  | Some v => if v =? 0 then None else Some v
  | None => None
  end.

(** [updateResourceLimits(newLimits)] *)
Definition updateResourceLimits (s : t) (n : NewLimits) (now : Z)
  : t * list event :=
  let s1 :=
    match truthy (n_maxMemoryUsage n) with
    | Some v =>
        set_options
          (set_resourceLimits s
             (mkLimits v (lim_maxProcessingTime (resourceLimits s))))
          (set_maxMemoryUsage (options s) v)
    | None => s
    end in
  let s2 :=
    match truthy (n_maxProcessingTime n) with
    | Some v =>
        set_options
          (set_resourceLimits s1
             (mkLimits (lim_maxMemoryUsage (resourceLimits s1)) v))
          (set_maxProcessingTime (options s1) v)
    | None => s1
    end in
  let '(s3, qev) :=
    match truthy (n_maxConcurrentRequests n) with
    | Some v =>
        let s' := set_options s2 (set_maxConcurrentRequests (options s2) v) in
        if negb (isDegraded s') then
          let '(q, qev) :=
            RequestQueue.setMaxConcurrent (requestQueue s') v now in
          (set_requestQueue s' q, qev)
        else (s', [])
    | None => (s2, [])
    end in
  (s3, map Queue qev ++ [LimitsUpdated]).

(** *** Runs of a manager

    The atomic parts a run is made of.  [processRequest] contributes the
    monitor's [recordRequestStart] and [recordRequestEnd], the queue's
    [enqueue] and the settlement of the queued work unit, and the pressure
    check's calls of [optimizeResources] and [enableGracefulDegradation]. *)
Inductive op : Type :=
| Register (m : nat)
| Unregister (m : nat)
| ReadMemory (g : gauges)
| OptimizeEnter
| OptimizeResume (snapshot : list nat) (h : hooks) (gc : bool) (g : gauges)
                 (now : Z)
| EnableDegradation (now : Z)
| DisableDegradation (now : Z)
| CheckRecovery (g : gauges) (now : Z)
| UpdateLimits (n : NewLimits) (now : Z)
| QueueEnqueue (rid : string) (nowEnq nowStart : Z)
| QueueSettle (r : nat) (o : outcome) (nowDone nowNext : Z)
| Monitor (o : PerformanceMonitor.op).

Definition step (s : t) (o : op) : t :=
  match o with
  | Register m => registerModelManager s m
  | Unregister m => unregisterModelManager s m
  | ReadMemory g => fst (getCurrentMemoryUsage s g)
  | OptimizeEnter =>
      match optimizeResources_enter s with
      | None => s
      | Some (s1, _, _) => s1
      end
  | OptimizeResume snapshot h gc g now =>
      fst (fst (optimizeResources_resume s snapshot h gc g now))
  | EnableDegradation now => fst (fst (enableGracefulDegradation s now))
  | DisableDegradation now => fst (disableGracefulDegradation s now)
  | CheckRecovery g now => fst (checkDegradationRecovery s g now)
  | UpdateLimits n now => fst (updateResourceLimits s n now)
  | QueueEnqueue rid a b =>
      set_requestQueue s (fst (RequestQueue.enqueue (requestQueue s) rid a b))
  | QueueSettle r oc a b =>
      set_requestQueue s
        (fst (RequestQueue.settle (requestQueue s) r oc a b))
  | Monitor o' =>
      set_performanceMonitor s
        (PerformanceMonitor.step (performanceMonitor s) o')
  end.

Definition run (s : t) (ops : list op) : t := fold_left step ops s.

(** *** Observations on a manager *)

(** The ceiling the queue enforces, and the configured ceiling. *)
Definition ceiling (s : t) : Z := RequestQueue.maxConcurrent (requestQueue s).
Definition configured (s : t) : Z := maxConcurrentRequests (options s).

(** The collaborators whose [optimizeMemory()] was called, in order. *)
Definition calledLog (evs : list event) : list nat :=
  omap (λ e, match e with OptimizeMemoryCalled m => Some m | _ => None end)
       evs.



(** The value of a limit after [updateResourceLimits] was given [a] for
    it: [a] when [a] is present and not [0], the old value otherwise. *)
Definition updated (old : Z) (a : option Z) : Z :=
  match a with
  | Some v => if v =? 0 then old else v
  | None => old
  end.

(** *** The pressure check and the inspection methods *)

(** What the environment contributes to one optimisation pass: how the
    hooks end, whether [global.gc] exists, the gauges read for the closing
    log line, and the clock. *)
Record pass : Type := mkPass {
  p_hooks : hooks;
  p_gc : bool;
  p_gauges : gauges;
  p_now : Z
}.

(** [memoryUsage / this.resourceLimits.maxMemoryUsage] *)
Definition memoryUtilization (s : t) (memoryUsage : Z) : ratio :=
  jsdiv (inject_Z memoryUsage)
        (inject_Z (lim_maxMemoryUsage (resourceLimits s))).

(** A whole call of [enableGracefulDegradation()] with nothing interleaved
    at its [await]: the synchronous part, the continuation of the
    optimisation pass it entered, if it entered one, and the timer of the
    recovery check.  The early return of the guard sets no timer. *)
Definition enableGracefulDegradation_call (s : t) (now : Z) (p : pass)
  : t * completion * list event :=
  if isDegraded s then (s, Normal, [])
  else
    let '(s1, snapshot, ev) := enableGracefulDegradation s now in
    match snapshot with
    | None => (s1, Normal, ev ++ [RecoveryCheckScheduled])
    | Some l =>
        let '(s2, c, ev') :=
          optimizeResources_resume s1 l (p_hooks p) (p_gc p) (p_gauges p)
                                   (p_now p) in
        match c with
        | Normal => (s2, Normal, ev ++ ev' ++ [RecoveryCheckScheduled])
        | Abrupt e => (s2, Abrupt e, ev ++ ev')
        end
    end.

(** A whole call of [checkResourcePressure()] with nothing interleaved at
    its two [await]s.  The utilization is computed once, from the gauges
    [g] read on entry, and compared with both thresholds. *)
Definition checkResourcePressure (s : t) (g : gauges) (p1 : pass) (now : Z)
           (p2 : pass) : t * completion * list event :=
  let '(s1, memoryUsage) := getCurrentMemoryUsage s g in
  let memoryUtilization := memoryUtilization s1 memoryUsage in
  let '(s2, c2, ev2) :=
    if ratio_gt memoryUtilization (memoryOptimizationThreshold (options s1))
    then optimizeResources s1 (p_hooks p1) (p_gc p1) (p_gauges p1) (p_now p1)
    else (s1, Normal, []) in
  match c2 with
  | Abrupt e => (s2, Abrupt e, ev2)
  | Normal =>
      if ratio_gt memoryUtilization
                  (gracefulDegradationThreshold (options s2))
      then
        let '(s3, c3, ev3) := enableGracefulDegradation_call s2 now p2 in
        (s3, c3, ev2 ++ ev3)
      else (s2, Normal, ev2)
  end.

(** [isHealthy()] *)
Definition isHealthy (s : t) (g : gauges) : t * bool :=
  let '(s1, memoryUsage) := getCurrentMemoryUsage s g in
  let memoryUtilization := memoryUtilization s1 memoryUsage in
  (s1,
   ratio_lt memoryUtilization (gracefulDegradationThreshold (options s1))
   && PerformanceMonitor.isSystemHealthy (performanceMonitor s1)
   && negb (isDegraded s1)).

(** [getStatus()] *)
Record Status : Type := mkStatus {
  st_memoryUsage : Z;
  st_memoryUtilization : ratio;
  st_resourceLimits : Limits;
  st_isOptimizing : bool;
  st_isDegraded : bool;
  st_lastOptimization : option Z;
  st_queue : RequestQueue.Stats;
  st_performance : PerformanceMonitor.MetricsReport;
  st_registeredManagers : Z
}.

Definition getStatus (s : t) (g : gauges) (now : Z) : t * Status :=
  let '(s1, memoryUsage) := getCurrentMemoryUsage s g in
  (s1,
   mkStatus memoryUsage (memoryUtilization s1 memoryUsage)
            (resourceLimits s1) (isOptimizing s1) (isDegraded s1)
            (lastOptimization s1)
            (RequestQueue.getStats (requestQueue s1))
            (PerformanceMonitor.getMetrics (performanceMonitor s1) now)
            (Z.of_nat (length (modelManagers s1)))).

(** [getPerformanceSummary()] *)
Definition getPerformanceSummary (s : t) (now : Z)
  : PerformanceMonitor.Summary :=
  PerformanceMonitor.getSummary (performanceMonitor s) now.

(** No hook of the snapshot rejects with [null] or [undefined]. *)
Definition clean_hooks (h : hooks) (snapshot : list nat) : bool :=
  forallb (λ m, match h m with
                | RejectsWith ThrownNullish => false
                | _ => true
                end) snapshot.

Definition no_resume (o : op) : bool :=
  match o with
  | OptimizeResume _ _ _ _ _ => false
  | _ => true
  end.

End ResourceManager.

(** * ModelManager: the memory gauge

    The collaborator the contract processor registers with the resource
    manager (in [model/core/ModelManager.js]).  Of its state, the part
    that the gauge [memoryUsage] and the hook [optimizeMemory()] read and
    write: whether a model is loaded, the [quantization] key of
    [modelConfig] (absent while [modelConfig] is [null]), the gauge, and
    the memory limit. *)

Module ModelManager.

Record t : Type := mkModel {
  isLoaded : bool;
  quantization : option string;
  memoryUsage : Z;
  maxMemoryUsage : Z
}.

Inductive event : Type :=
| StillHigh (memoryUsage : Z)
| OptimizationCompleted (memoryFreed : Z).

(** [Math.round] *)
Definition jsround (q : Q) : Z := Qfloor (q + (1 # 2))%Q.

(** [constructor(config = {})]; the default limit is
    [ModelConfig.performance.memoryLimit]. *)
Definition new (maxMemoryUsage : option Z) : t :=
  mkModel false None 0 (orZ maxMemoryUsage 16000).

Definition set_memoryUsage (mm : t) (x : Z) : t :=
  mkModel (isLoaded mm) (quantization mm) x (maxMemoryUsage mm).

(** [estimateMemoryUsage()] *)
Definition estimateMemoryUsage (mm : t) : Z :=
  if negb (isLoaded mm) then 0
  else
    let baseMemory := 8000 in
    let quantizationReduction : Q :=
      if bool_decide (quantization mm = Some "int8"%string) then 0.5%Q
      else 1%Q in
    jsround (inject_Z baseMemory * quantizationReduction).

(** [optimizeMemory()]: nothing in its [try] block throws, so the promise
    it returns fulfils. *)
Definition optimizeMemory (mm : t) : t * outcome * list event :=
  let beforeMemory := memoryUsage mm in
  let '(mm1, ev) :=
    if isLoaded mm then
      let mm1 := set_memoryUsage mm (estimateMemoryUsage mm) in
      (mm1,
       if Qgtb (inject_Z (memoryUsage mm1))
               (inject_Z (maxMemoryUsage mm1) * 0.9)
       then [StillHigh (memoryUsage mm1)] else [])
    else (set_memoryUsage mm 0, []) in
  (mm1, Fulfils, ev ++ [OptimizationCompleted (beforeMemory - memoryUsage mm1)]).

(** [loadModel(modelConfig)] up to its first [await]: the configuration
    is merged over [ModelConfig.primary], whose [quantization] is
    ["int8"]; [None] is a [modelConfig] without that key. *)
Definition loadModel_begin (mm : t) (quantization : option string) : t :=
  mkModel (isLoaded mm) (Some (default "int8"%string quantization))
          (memoryUsage mm) (maxMemoryUsage mm).

(** The end of [loadModel]: the status update after the last check
    passed, or the [catch] block when some step failed. *)
Definition loadModel_end (mm : t) (ok : bool) : t * bool :=
  if ok then
    let mm1 :=
      mkModel true (quantization mm) (memoryUsage mm) (maxMemoryUsage mm) in
    (set_memoryUsage mm1 (estimateMemoryUsage mm1), true)
  else
    (mkModel false (quantization mm) (memoryUsage mm) (maxMemoryUsage mm),
     false).

(** [unloadModel()] *)
Definition unloadModel (mm : t) : t * bool :=
  let mm1 := mkModel false (quantization mm) 0 (maxMemoryUsage mm) in
  ((optimizeMemory mm1).1.1, true).

(** [inference(prompt, options)] up to its first [await]: it throws
    when no model is loaded, and otherwise optimises when the gauge is
    over the limit. *)
Definition inference_check (mm : t) : t :=
  if negb (isLoaded mm) then mm
  else if maxMemoryUsage mm <? memoryUsage mm then (optimizeMemory mm).1.1
  else mm.

Inductive op : Type :=
| LoadBegin (quantization : option string)
| LoadEnd (ok : bool)
| Unload
| Optimize
| InferenceCheck.

Definition step (mm : t) (o : op) : t :=
  match o with
  | LoadBegin q => loadModel_begin mm q
  | LoadEnd ok => (loadModel_end mm ok).1
  | Unload => (unloadModel mm).1
  | Optimize => (optimizeMemory mm).1.1
  | InferenceCheck => inference_check mm
  end.

Definition run (mm : t) (ops : list op) : t := fold_left step ops mm.

(** The values the gauge takes. *)
Definition gauge_ok (mm : t) : Prop :=
  memoryUsage mm = 0 ∨ memoryUsage mm = 4000 ∨ memoryUsage mm = 8000.

End ModelManager.

(** * The contract processor: normalising an analysis result

    Two pure methods of the class that submits work to the resource
    manager ([ContractProcessorWithPerformance]).  A clause or a risk is
    an object of which only [confidence] is read, a number when present. *)

Module ContractProcessor.

Record Item : Type := mkItem {
  item_id : string;
  item_confidence : option Q
}.

Record RawSummary : Type := mkRawSummary {
  r_title : option string;
  r_documentType : option string;
  r_riskScore : option Q;
  r_confidence : option Q
}.

(** A parsed response; a list is [None] when the value is not an array. *)
Record RawResult : Type := mkRawResult {
  r_summary : option RawSummary;
  r_clauses : option (list Item);
  r_risks : option (list Item);
  r_recommendations : option (list Item)
}.

Record Summary : Type := mkSummary {
  title : string;
  documentType : string;
  totalClauses : Z;
  riskScore : Q;
  confidence : Q
}.

Record Result : Type := mkResult {
  summary : Summary;
  clauses : list Item;
  risks : list Item;
  recommendations : list Item
}.

(** [a || d] on strings: absent and the empty string are falsy. *)
Definition orString (a : option string) (d : string) : string :=
  match a with
  | Some v => if String.eqb v "" then d else v
  | None => d
  end.

(** [Math.max(a, b)] and [Math.min(a, b)] *)
Definition maxQ (a b : Q) : Q := if Qle_bool a b then b else a.
Definition minQ (a b : Q) : Q := if Qle_bool a b then a else b.

(** [result.summary || {}] *)
Definition summary_or_empty (s : option RawSummary) : RawSummary :=
  default (mkRawSummary None None None None) s.

(** [Array.isArray(x) ? x : []] *)
Definition array_or_empty (l : option (list Item)) : list Item := default [] l.

(** [validateAndNormalizeResult(result)] *)
Definition validateAndNormalizeResult (result : RawResult) : Result :=
  let s := summary_or_empty (r_summary result) in
  let clauses := array_or_empty (r_clauses result) in
  mkResult
    (mkSummary (orString (r_title s) "Contract Analysis")
               (orString (r_documentType s) "contract")
               (Z.of_nat (length clauses))
               (minQ 100 (maxQ 0 (orQ (r_riskScore s) 50)))
               (minQ 1 (maxQ 0 (orQ (r_confidence s) 0.7))))
    clauses
    (array_or_empty (r_risks result))
    (array_or_empty (r_recommendations result)).

(** The truthy confidences of a list of clauses or risks. *)
Definition scores (l : list Item) : list Q :=
  omap (λ i, match item_confidence i with
             | Some v => if Qeq_bool v 0 then None else Some v
             | None => None
             end) l.

Definition sumQ (l : list Q) : Q := fold_left Qplus l 0%Q.

(** [calculateConfidence(result)]; the sum and the quotient are exact. *)
Definition calculateConfidence (result : Result) : ratio :=
  let confidenceScores := scores (clauses result) ++ scores (risks result) in
  if 0 <? Z.of_nat (length confidenceScores) then
    jsdiv (sumQ confidenceScores)
          (inject_Z (Z.of_nat (length confidenceScores)))
  else Finite 0.7.

End ContractProcessor.

(** * Properties of the request queue *)

Section QueueFacts.

Import RequestQueue.

(** What [processNext] does: nothing, or the head of the wait list moves
    to the processing set and its work unit is called. *)
Lemma processNext_cases (q : t) (now : Z) :
  processNext q now = (q, [])
  ∨ ∃ item rest,
      queue q = item :: rest
      ∧ processingSize q < maxConcurrent q
      ∧ processNext q now
        = (mkQueue rest
             (<[ref item := mkItem (ref item) (id item) (enqueuedAt item)
                                   (Some now) (completedAt item)]>
                (processing q))
             (maxConcurrent q) (completed q) (failed q) (metrics q)
             (nextRef q),
           [Started (ref item)]).
Proof.
  unfold processNext.
  destruct (maxConcurrent q <=? processingSize q) eqn:Hfull; simpl.
  - by left.
  - destruct (queueLength q =? 0) eqn:Hlen; simpl; [by left|].
    destruct (queue q) as [|item rest] eqn:Hq; [by left|].
    right. exists item, rest. repeat split. apply Z.leb_gt in Hfull. lia.
Qed.

Lemma processNext_maxConcurrent (q : t) (now : Z) :
  maxConcurrent (fst (processNext q now)) = maxConcurrent q.
Proof.
  destruct (processNext_cases q now) as [->|(item & rest & _ & _ & ->)]; done.
Qed.

Lemma size_insert_le (m : gmap nat QueueItem) (k : nat) (v : QueueItem) :
  (size (<[k := v]> m) ≤ S (size m))%nat.
Proof.
  destruct (m !! k) eqn:Hk.
  - rewrite map_size_insert_Some; [lia | eauto].
  - rewrite map_size_insert_None; [lia | done].
Qed.

Lemma size_delete_le (m : gmap nat QueueItem) (k : nat) :
  (size (delete k m) ≤ size m)%nat.
Proof.
  destruct (m !! k) eqn:Hk.
  - pose proof (map_size_delete_Some k m ltac:(eauto)). lia.
  - rewrite delete_id; [lia | done].
Qed.

(** [processNext] never takes the processing set beyond the ceiling. *)
Lemma processNext_size (q : t) (now : Z) :
  processingSize (fst (processNext q now))
  <= Z.max (processingSize q) (maxConcurrent q).
Proof.
  destruct (processNext_cases q now) as [->|(item & rest & _ & Hlt & ->)];
    simpl; [lia|].
  unfold processingSize in *. simpl.
  pose proof (size_insert_le (processing q) (ref item)
                (mkItem (ref item) (id item) (enqueuedAt item) (Some now)
                        (completedAt item))).
  lia.
Qed.

Lemma updateMetrics_frame (q : t) :
  queue (updateMetrics q) = queue q
  ∧ processing (updateMetrics q) = processing q
  ∧ maxConcurrent (updateMetrics q) = maxConcurrent q
  ∧ completed (updateMetrics q) = completed q
  ∧ failed (updateMetrics q) = failed q
  ∧ nextRef (updateMetrics q) = nextRef q
  ∧ totalRequests (metrics (updateMetrics q)) = totalRequests (metrics q)
  ∧ completedRequests (metrics (updateMetrics q))
    = completedRequests (metrics q)
  ∧ failedRequests (metrics (updateMetrics q)) = failedRequests (metrics q).
Proof. unfold updateMetrics. by case_match. Qed.

Lemma app_snoc_cons {A : Type} (l k : list A) (x : A) :
  (l ++ [x]) ++ k = l ++ x :: k.
Proof. by rewrite <- app_assoc. Qed.

Lemma retire_frame (q : t) (r : nat) (item : QueueItem) (ok : bool) :
  queue (retire q r item ok) = queue q
  ∧ processing (retire q r item ok) = delete r (processing q)
  ∧ maxConcurrent (retire q r item ok) = maxConcurrent q
  ∧ nextRef (retire q r item ok) = nextRef q.
Proof.
  unfold retire.
  match goal with |- context [updateMetrics ?q0] =>
    pose proof (updateMetrics_frame q0) as (-> & -> & -> & _ & _ & -> & _)
  end.
  by destruct ok.
Qed.

(** *** The order of admission, dispatch and settlement *)

Lemma ordered_head_fresh (q : t) (evs : list event) item rest :
  ordered q evs → queue q = item :: rest → processing q !! ref item = None.
Proof.
  intros (_ & Hst & Hin) Hq.
  destruct (processing q !! ref item) as [it|] eqn:Hl; [|done].
  apply Hin in Hl. rewrite Hq in Hst. simpl in Hst.
  pose proof (NoDup_seq 0 (nextRef q)) as Hnd. rewrite <- Hst in Hnd.
  apply NoDup_app in Hnd as (_ & Hdis & _).
  exfalso. apply (Hdis _ Hl). by left.
Qed.

Lemma processNext_ordered (q : t) (now : Z) (evs : list event) :
  ordered q evs →
  ordered (processNext q now).1 (evs ++ (processNext q now).2).
Proof.
  intros Hord.
  destruct (processNext_cases q now) as [->|(item & rest & Hq & _ & ->)];
    simpl.
  - by rewrite app_nil_r.
  - destruct Hord as (Henq & Hst & Hin).
    unfold ordered, enqueuedLog, startedLog in *. rewrite !omap_app. simpl.
    rewrite app_nil_r. split_and!; [done| |].
    + rewrite Hq in Hst. simpl in Hst. by rewrite app_snoc_cons.
    + intros r it. rewrite lookup_insert_Some.
      intros [[<- _]|[_ Hl]]; apply elem_of_app; [right; by left|left; eauto].
Qed.

Lemma push_ordered (q : t) rid a (evs : list event) :
  ordered q evs → ordered (push q rid a) (evs ++ [Enqueued (nextRef q)]).
Proof.
  intros (Henq & Hst & Hin).
  unfold ordered, enqueuedLog, startedLog in *. rewrite !omap_app. simpl.
  rewrite app_nil_r, map_app, app_assoc, Hst, Henq.
  change (0%nat :: seq 1 (nextRef q)) with (seq 0 (S (nextRef q))).
  rewrite seq_S. split_and!; [done|done|]. eauto.
Qed.

(** An event that admits nothing and calls nothing, next to a change of
    state that can only shrink the processing set. *)
Lemma quiet_ordered (q q1 : t) (evs : list event) (x : event) :
  ordered q evs → quiet x = true →
  queue q1 = queue q → processing q1 ⊆ processing q →
  nextRef q1 = nextRef q → ordered q1 (evs ++ [x]).
Proof.
  intros (Henq & Hst & Hin) Hx Eq Ep En.
  unfold ordered, enqueuedLog, startedLog in *.
  rewrite Eq, En, !omap_app. simpl.
  assert (∀ r it, processing q1 !! r = Some it
                  → r ∈ omap (λ e, match e with
                                   | Started r0 => Some r0
                                   | _ => None
                                   end) evs) as Hin'.
  { intros r it Hl. eapply Hin. eapply lookup_weaken; [exact Hl|exact Ep]. }
  destruct x; try discriminate Hx; simpl; by rewrite !app_nil_r.
Qed.

Lemma retire_ordered (q : t) r item ok (evs : list event) (x : event) :
  ordered q evs → quiet x = true →
  ordered (retire q r item ok) (evs ++ [x]).
Proof.
  intros Hord Hx.
  pose proof (retire_frame q r item ok) as (Eq & Ep & _ & En).
  apply (quiet_ordered q); [done|done|done| |done].
  rewrite Ep. apply delete_subseteq.
Qed.

Lemma step_ordered (q : t) (o : op) (evs : list event) :
  ordered q evs → ordered (step q o).1 (evs ++ (step q o).2).
Proof.
  intros Hord. destruct o as [rid a b|r oc a b| |n now]; simpl.
  - unfold enqueue.
    pose proof (processNext_ordered (push q rid a) b _
                  (push_ordered q rid a evs Hord)) as H.
    destruct (processNext _ b) as [q2 e2]. simpl in *.
    by rewrite <- app_snoc_cons.
  - unfold settle.
    destruct (processing q !! r) as [item|] eqn:Hl;
      [|simpl; by rewrite app_nil_r].
    destruct oc as [|err].
    + match goal with |- context [processNext ?q0 b] =>
        pose proof (processNext_ordered q0 b (evs ++ [Resolved r])) as H
      end.
      destruct (processNext _ b) as [q3 e3]. simpl in *.
      rewrite <- app_snoc_cons. apply H. by apply retire_ordered.
    + destruct (read_message err) as [msg|te]; simpl.
      * match goal with |- context [processNext ?q0 b] =>
          pose proof (processNext_ordered q0 b
                        ((evs ++ [FailureLogged r msg]) ++ [Rejected r])) as H
        end.
        destruct (processNext _ b) as [q3 e3]. simpl in *.
        rewrite <- (app_snoc_cons evs),
          <- (app_snoc_cons (evs ++ [FailureLogged r msg])).
        apply H.
        apply retire_ordered; [|done].
        by apply (quiet_ordered q).
      * by apply retire_ordered.
  - by apply (quiet_ordered q).
  - unfold setMaxConcurrent. case_match.
    + match goal with |- context [processNext ?q0 now] =>
        pose proof (processNext_ordered q0 now
                      (evs ++ [LimitUpdated (maxConcurrent q)
                                            (maxConcurrent q0)])) as Hp
      end.
      destruct (processNext _ now) as [q2 e2]. simpl in *.
      rewrite <- app_snoc_cons. apply Hp. by apply (quiet_ordered q).
    + by apply (quiet_ordered q).
Qed.

Lemma run_cons (q : t) (o : op) (ops : list op) :
  run q (o :: ops)
  = ((run (step q o).1 ops).1, (step q o).2 ++ (run (step q o).1 ops).2).
Proof. simpl. destruct (step q o), (run _ ops). done. Qed.

Lemma run_ordered (ops : list op) (q : t) (evs : list event) :
  ordered q evs → ordered (run q ops).1 (evs ++ (run q ops).2).
Proof.
  revert q evs. induction ops as [|o ops IH]; intros q evs Hord.
  - simpl. by rewrite app_nil_r.
  - rewrite run_cons. simpl. rewrite app_assoc.
    apply IH. by apply step_ordered.
Qed.

Lemma new_ordered (c : option Z) : ordered (new c) [].
Proof.
  split_and!; [done|done|]. intros r it H. simpl in H.
  by rewrite lookup_empty in H.
Qed.

(** *** Conservation of the counters *)

Lemma processNext_conserved (q : t) (now : Z) (evs : list event) :
  ordered q evs → conserved q → conserved (processNext q now).1.
Proof.
  intros Hord Hc.
  destruct (processNext_cases q now) as [->|(item & rest & Hq & _ & ->)];
    [done|].
  pose proof (ordered_head_fresh _ _ _ _ Hord Hq) as Hfresh.
  unfold conserved, processingSize, queueLength in *. simpl.
  rewrite map_size_insert_None by done. rewrite Hq in Hc. simpl in Hc. lia.
Qed.

Lemma push_conserved (q : t) rid a : conserved q → conserved (push q rid a).
Proof.
  unfold conserved, processingSize, queueLength. simpl.
  rewrite length_app. simpl. lia.
Qed.

Lemma retire_conserved (q : t) r (it item : QueueItem) ok :
  processing q !! r = Some it → conserved q → conserved (retire q r item ok).
Proof.
  intros Hl Hc. unfold retire.
  match goal with |- conserved (updateMetrics ?q0) =>
    pose proof (updateMetrics_frame q0)
      as (Eq & Ep & _ & Ec & Ef & _ & Et & _)
  end.
  unfold conserved, processingSize, queueLength in *.
  rewrite Eq, Ep, Ec, Ef, Et.
  pose proof (map_size_delete_Some r (processing q) ltac:(eauto)) as Hd.
  assert (size (processing q) ≠ 0%nat) as Hne.
  { intros H0. apply map_size_empty_inv in H0. rewrite H0 in Hl.
    by rewrite lookup_empty in Hl. }
  destruct ok; simpl; rewrite Hd, length_app; simpl; lia.
Qed.

Lemma step_conserved (q : t) (o : op) (evs : list event) :
  ordered q evs → conserved q → conserved (step q o).1.
Proof.
  intros Hord Hc. destruct o as [rid a b|r oc a b| |n now]; simpl.
  - unfold enqueue.
    pose proof (processNext_conserved (push q rid a) b _
                  (push_ordered q rid a evs Hord) (push_conserved _ _ _ Hc)).
    by destruct (processNext _ b).
  - unfold settle. destruct (processing q !! r) as [item|] eqn:Hl; [|done].
    set (item' := mkItem _ _ _ _ _).
    destruct oc as [|err].
    + pose proof (processNext_conserved (retire q r item' true) b _
                    (retire_ordered q r item' true evs HistoryCleared
                                    Hord eq_refl)
                    (retire_conserved q r item item' true Hl Hc)).
      by destruct (processNext _ b).
    + pose proof (processNext_conserved (retire q r item' false) b _
                    (retire_ordered q r item' false evs HistoryCleared
                                    Hord eq_refl)
                    (retire_conserved q r item item' false Hl Hc)).
      destruct (read_message err); [by destruct (processNext _ b)|].
      simpl. by eapply retire_conserved.
  - unfold conserved, processingSize, queueLength. simpl. lia.
  - unfold setMaxConcurrent.
    pose proof (processNext_conserved
                  (set_maxConcurrent q (Z.max 1 n)) now evs) as Hp.
    case_match; [|done].
    destruct (processNext _ now). simpl in *. apply Hp; [|done].
    destruct Hord as (? & ? & ?). by split_and!.
Qed.

Lemma run_conserved (ops : list op) (q : t) (evs : list event) :
  ordered q evs → conserved q → conserved (run q ops).1.
Proof.
  revert q evs. induction ops as [|o ops IH]; intros q evs Hord Hc; [done|].
  rewrite run_cons. simpl.
  eapply IH; [by apply step_ordered|by eapply step_conserved].
Qed.

(** *** The ceiling *)

Lemma step_size (q : t) (o : op) :
  processingSize (step q o).1
  <= Z.max (processingSize q) (maxConcurrent (step q o).1).
Proof.
  destruct o as [rid a b|r oc a b| |n now]; simpl.
  - unfold enqueue.
    pose proof (processNext_size (push q rid a) b) as Hs.
    pose proof (processNext_maxConcurrent (push q rid a) b) as Hm.
    destruct (processNext _ b). simpl in *.
    unfold processingSize in *. simpl in *. lia.
  - unfold settle. destruct (processing q !! r) as [item|] eqn:Hl;
      [|simpl; lia].
    set (item' := mkItem _ _ _ _ _).
    assert (∀ ok, processingSize (retire q r item' ok) <= processingSize q
                  ∧ maxConcurrent (retire q r item' ok) = maxConcurrent q)
      as Hr.
    { intros ok. pose proof (retire_frame q r item' ok) as (_ & Ep & Em & _).
      unfold processingSize. rewrite Ep, Em.
      pose proof (size_delete_le (processing q) r). split; [lia|done]. }
    destruct oc as [|err].
    + pose proof (processNext_size (retire q r item' true) b) as Hs.
      pose proof (processNext_maxConcurrent (retire q r item' true) b) as Hm.
      destruct (Hr true). destruct (processNext _ b). simpl in *. lia.
    + pose proof (processNext_size (retire q r item' false) b) as Hs.
      pose proof (processNext_maxConcurrent (retire q r item' false) b) as Hm.
      destruct (Hr false).
      destruct (read_message err); [|simpl; lia].
      destruct (processNext _ b). simpl in *. lia.
  - unfold processingSize. simpl. lia.
  - unfold setMaxConcurrent.
    pose proof (processNext_size (set_maxConcurrent q (Z.max 1 n)) now) as Hs.
    pose proof (processNext_maxConcurrent
                  (set_maxConcurrent q (Z.max 1 n)) now) as Hm.
    case_match; [|unfold processingSize; simpl; lia].
    destruct (processNext _ now). simpl in *.
    unfold processingSize in *. simpl in *. lia.
Qed.

(** Only [setMaxConcurrent] changes the ceiling. *)
Lemma step_maxConcurrent (q : t) (o : op) :
  maxConcurrent (step q o).1
  = match o with
    | SetMaxConcurrent n _ => Z.max 1 n
    | _ => maxConcurrent q
    end.
Proof.
  destruct o as [rid a b|r oc a b| |n now]; simpl.
  - unfold enqueue.
    pose proof (processNext_maxConcurrent (push q rid a) b) as Hm.
    by destruct (processNext _ b).
  - unfold settle. destruct (processing q !! r) as [item|]; [|done].
    set (item' := mkItem _ _ _ _ _).
    destruct oc as [|err].
    + pose proof (processNext_maxConcurrent (retire q r item' true) b) as Hm.
      pose proof (retire_frame q r item' true) as (_ & _ & Em & _).
      destruct (processNext _ b). simpl in *. congruence.
    + pose proof (processNext_maxConcurrent (retire q r item' false) b) as Hm.
      pose proof (retire_frame q r item' false) as (_ & _ & Em & _).
      destruct (read_message err); [|done].
      destruct (processNext _ b). simpl in *. congruence.
  - done.
  - unfold setMaxConcurrent.
    pose proof (processNext_maxConcurrent
                  (set_maxConcurrent q (Z.max 1 n)) now) as Hm.
    case_match; [|done]. by destruct (processNext _ now).
Qed.

Lemma run_within_ceiling (ops : list op) (q : t) :
  within_ceiling q → spares_inflight q ops = true →
  within_ceiling (run q ops).1.
Proof.
  revert q. induction ops as [|o ops IH]; intros q Hw Hs; [done|].
  rewrite run_cons. simpl in *. apply andb_prop in Hs as [Ho Hs].
  apply IH; [|done]. unfold within_ceiling in *.
  pose proof (step_size q o) as Hsz.
  pose proof (step_maxConcurrent q o) as Hm.
  destruct o; lia.
Qed.

Lemma run_peak (ops : list op) (q : t) (p : Z) :
  processingSize q <= p → maxConcurrent q <= p →
  processingSize (run q ops).1 <= peak p ops.
Proof.
  revert q p. induction ops as [|o ops IH]; intros q p Hs Hm; [done|].
  rewrite run_cons. simpl.
  pose proof (step_size q o) as Hsz.
  pose proof (step_maxConcurrent q o) as Hmx.
  unfold peak. simpl. apply IH; destruct o; lia.
Qed.

(** *** One slot *)

(** An event that is neither a call nor a settlement leaves both logs as
    they were. *)
Ltac same_logs :=
  unfold startedLog, settledLog; rewrite omap_app; simpl;
  by rewrite app_nil_r.

Lemma serial_same_logs (q q1 : t) (evs evs1 : list event) :
  serial q evs →
  startedLog evs1 = startedLog evs → settledLog evs1 = settledLog evs →
  processing q1 = processing q → maxConcurrent q1 <= 1 → serial q1 evs1.
Proof.
  intros (_ & H) Es Ee Ep Hm. unfold serial. by rewrite Es, Ee, Ep.
Qed.

Lemma processNext_serial (q : t) (now : Z) (evs : list event) :
  serial q evs → serial (processNext q now).1 (evs ++ (processNext q now).2).
Proof.
  intros Hser.
  destruct (processNext_cases q now) as [->|(item & rest & Hq & Hlt & ->)];
    simpl; [by rewrite app_nil_r|].
  destruct Hser as (Hm & [[Hp Hlog]|(r & it & Hp & Hlog)]).
  - split; [done|]. right. eexists _, _. simpl. split.
    + rewrite Hp. apply insert_empty.
    + unfold startedLog, settledLog in *. rewrite !omap_app. simpl.
      by rewrite app_nil_r, Hlog.
  - unfold processingSize in Hlt. rewrite Hp, map_size_singleton in Hlt. lia.
Qed.

Lemma retire_serial (q : t) r (it item : QueueItem) ok
      (evs xs : list event) :
  processing q !! r = Some it → serial q evs →
  startedLog xs = [] → settledLog xs = [r] →
  serial (retire q r item ok) (evs ++ xs).
Proof.
  intros Hl (Hm & [[Hp Hlog]|(r0 & it0 & Hp & Hlog)]) Es Ee.
  - rewrite Hp in Hl. by rewrite lookup_empty in Hl.
  - rewrite Hp in Hl. apply lookup_singleton_Some in Hl as [-> ->].
    pose proof (retire_frame q r item ok) as (_ & Ep & Em & _).
    split; [lia|]. left. rewrite Ep, Hp, delete_singleton_eq.
    split; [done|]. unfold startedLog, settledLog in *.
    by rewrite !omap_app, Es, Ee, app_nil_r.
Qed.

Lemma step_serial (q : t) (o : op) (evs : list event) :
  single_slot o = true → serial q evs →
  serial (step q o).1 (evs ++ (step q o).2).
Proof.
  intros Ho Hser. destruct o as [rid a b|r oc a b| |n now]; simpl.
  - unfold enqueue.
    pose proof (processNext_serial (push q rid a) b
                  (evs ++ [Enqueued (nextRef q)])) as H.
    destruct (processNext _ b) as [q2 e2]. simpl in *.
    rewrite <- app_snoc_cons. apply H.
    apply (serial_same_logs q _ evs);
      [done|same_logs|same_logs|done|by destruct Hser].
  - unfold settle.
    destruct (processing q !! r) as [item|] eqn:Hl;
      [|simpl; by rewrite app_nil_r].
    set (item' := mkItem _ _ _ _ _).
    destruct oc as [|err].
    + pose proof (processNext_serial (retire q r item' true) b
                    (evs ++ [Resolved r])) as H.
      destruct (processNext _ b) as [q3 e3]. simpl in *.
      rewrite <- app_snoc_cons. apply H. by eapply retire_serial.
    + destruct (read_message err) as [msg|te]; simpl.
      * pose proof (processNext_serial (retire q r item' false) b
                      (evs ++ [FailureLogged r msg; Rejected r])) as H.
        destruct (processNext _ b) as [q3 e3]. simpl in *.
        replace (evs ++ FailureLogged r msg :: Rejected r :: e3)
          with ((evs ++ [FailureLogged r msg; Rejected r]) ++ e3)
          by (by rewrite <- app_assoc).
        apply H. by eapply retire_serial.
      * by eapply retire_serial.
  - apply (serial_same_logs q _ evs);
      [done|same_logs|same_logs|done|by destruct Hser].
  - simpl in Ho. apply Z.leb_le in Ho.
    assert (serial (set_maxConcurrent q (Z.max 1 n))
                   (evs ++ [LimitUpdated (maxConcurrent q) (Z.max 1 n)]))
      as Hmid.
    { apply (serial_same_logs q _ evs);
        [done|same_logs|same_logs|done|simpl; lia]. }
    unfold setMaxConcurrent. case_match; [|done].
    pose proof (processNext_serial _ now _ Hmid) as H1.
    destruct (processNext _ now) as [q2 e2]. simpl in *.
    by rewrite <- app_snoc_cons.
Qed.

Lemma run_serial (ops : list op) (q : t) (evs : list event) :
  forallb single_slot ops = true → serial q evs →
  serial (run q ops).1 (evs ++ (run q ops).2).
Proof.
  revert q evs. induction ops as [|o ops IH]; intros q evs Hall Hser.
  - simpl. by rewrite app_nil_r.
  - rewrite run_cons. simpl in *. apply andb_prop in Hall as [Ho Hall].
    rewrite app_assoc. apply IH; [done|]. by apply step_serial.
Qed.

End QueueFacts.

(** * Properties of the performance monitor *)

Section MonitorFacts.

Import PerformanceMonitor.

Lemma updatePerformanceMetrics_requests (m : t) (a b : Z) :
  requests (metrics (updatePerformanceMetrics m a b)) = requests (metrics m).
Proof. unfold updatePerformanceMetrics. by case_match. Qed.

Lemma updatePerformanceMetrics_responseTimes (m : t) (a b : Z) :
  responseTimes (updatePerformanceMetrics m a b) = responseTimes m.
Proof. unfold updatePerformanceMetrics. by case_match. Qed.

Lemma monitor_step_conserved (m : t) (o : op) : conserved m → conserved (step m o).
Proof.
  unfold conserved. intros Hc.
  destruct o as [rid now|rq ok a b c|a b|a b|now|]; simpl.
  - lia.
  - rewrite updatePerformanceMetrics_requests. destruct ok; simpl; lia.
  - unfold updateMetrics. by rewrite updatePerformanceMetrics_requests.
  - done.
  - unfold startMonitoring. by case_match.
  - unfold stopMonitoring. by case_match.
Qed.

Lemma monitor_run_conserved (ops : list op) (m : t) :
  conserved m → conserved (run m ops).
Proof.
  revert m. induction ops as [|o ops IH]; intros m Hc; [done|].
  apply IH. by apply monitor_step_conserved.
Qed.



Lemma trimTimes_snoc_nonempty (l : list Z) (x : Z) :
  (Z.of_nat (length (trimTimes (l ++ [x]))) =? 0) = false.
Proof.
  apply Z.eqb_neq. unfold trimTimes. case_match.
  - rewrite length_drop, length_app. simpl.
    rewrite length_app in H. simpl in H. lia.
  - rewrite length_app. simpl. lia.
Qed.

(** What [recordRequestEnd] leaves in the counters, the sample buffer, the
    average and the error rate. *)
Lemma recordRequestEnd_spec (m : t) (rq : Request) (ok : bool)
      (e u l : Z) :
  let m' := (recordRequestEnd m rq ok e u l).1 in
  let r := requests (metrics m) in
  responseTimes m' = trimTimes (responseTimes m ++ [e - req_startTime rq])
  ∧ requests (metrics m')
    = (if ok then
         mkRequests (total r) (completed r + 1) (failed r) (inProgress r - 1)
       else
         mkRequests (total r) (completed r) (failed r + 1) (inProgress r - 1))
  ∧ averageResponseTime (performance (metrics m'))
    = (inject_Z (sumTimes (responseTimes m'))
       / inject_Z (Z.of_nat (length (responseTimes m'))))%Q
  ∧ errorRate (performance (metrics m'))
    = (if 0 <? total (requests (metrics m'))
       then jsdiv (inject_Z (failed (requests (metrics m'))))
                  (inject_Z (total (requests (metrics m'))))
       else Finite 0).
Proof.
  intros m' r. subst m' r.
  unfold recordRequestEnd, updatePerformanceMetrics.
  cbn [fst responseTimes set_requests set_metrics metrics options
       monitoringTimer isMonitoring].
  rewrite trimTimes_snoc_nonempty.
  cbn [responseTimes set_metrics metrics requests performance
       averageResponseTime errorRate].
  by split_and!.
Qed.

Lemma recordRequest_spec (m : t) (i : string) (s d : Z) (ok : bool)
      (u l : Z) :
  let m' := recordRequest m i s d ok u l in
  let r := requests (metrics m) in
  responseTimes m' = trimTimes (responseTimes m ++ [d])
  ∧ requests (metrics m')
    = (if ok then
         mkRequests (total r + 1) (completed r + 1) (failed r)
                    (inProgress r + 1 - 1)
       else
         mkRequests (total r + 1) (completed r) (failed r + 1)
                    (inProgress r + 1 - 1))
  ∧ averageResponseTime (performance (metrics m'))
    = (inject_Z (sumTimes (responseTimes m'))
       / inject_Z (Z.of_nat (length (responseTimes m'))))%Q
  ∧ errorRate (performance (metrics m'))
    = (if 0 <? total (requests (metrics m'))
       then jsdiv (inject_Z (failed (requests (metrics m'))))
                  (inject_Z (total (requests (metrics m'))))
       else Finite 0).
Proof.
  intros m' r. subst m' r. unfold recordRequest, recordRequestStart.
  match goal with |- context [recordRequestEnd ?m1 ?rq ok ?e u l] =>
    pose proof (recordRequestEnd_spec m1 rq ok e u l) as (H1 & H2 & H3 & H4)
  end.
  cbn [req_startTime] in H1. rewrite Z.add_simpl_l in H1.
  by split_and!.
Qed.

(** A quotient with a divisor other than zero is finite. *)
Lemma jsdiv_finite (a b : Q) : ¬ (b == 0)%Q → jsdiv a b = Finite (a / b)%Q.
Proof.
  intros Hb. unfold jsdiv. destruct (Qeq_bool b 0) eqn:E; [|done].
  by apply Qeq_bool_iff in E.
Qed.

End MonitorFacts.

(** * Properties of the resource manager *)

Section ManagerFacts.

Import ResourceManager.

(** The wrapped hook of a collaborator can only reject with the
    [TypeError] raised by reading the message of a nullish value. *)
Lemma optimizeOne_rejects (h : outcome) (e : thrown) :
  (optimizeOne h).1 = RejectsWith e → ∃ msg, e = ThrownError msg.
Proof.
  destruct h as [|[|m]]; simpl; [done| |done].
  intros [= <-]. eauto.
Qed.

Lemma promiseAll_rejects (l : list outcome) (e : thrown) :
  promiseAll l = RejectsWith e → RejectsWith e ∈ l.
Proof.
  induction l as [|[|e'] l IH]; simpl; [done| |].
  - intros H. right. by apply IH.
  - intros [= ->]. by left.
Qed.

Lemma promiseAll_wrapped (snapshot : list nat) (h : hooks) :
  promiseAll (map fst (map (λ m, optimizeOne (h m)) snapshot)) = Fulfils
  ∨ ∃ msg,
      promiseAll (map fst (map (λ m, optimizeOne (h m)) snapshot))
      = RejectsWith (ThrownError msg).
Proof.
  destruct (promiseAll _) as [|e] eqn:Hp; [by left|right].
  apply promiseAll_rejects in Hp.
  apply list_elem_of_fmap in Hp as (x & Hx & Hin).
  apply list_elem_of_fmap in Hin as (m & -> & _).
  symmetry in Hx. apply optimizeOne_rejects in Hx as [msg ->]. eauto.
Qed.

(** What the continuation of an optimisation pass leaves behind: it
    completes normally with the flag cleared, and touches neither the
    degradation flag, nor the options, nor the ceiling of the queue, nor
    the set of collaborators. *)
Lemma optimizeResources_resume_frame (s : t) (snapshot : list nat)
      (h : hooks) (gc : bool) (g : gauges) (now : Z) :
  let r := optimizeResources_resume s snapshot h gc g now in
  r.1.2 = Normal
  ∧ isOptimizing r.1.1 = false
  ∧ isDegraded r.1.1 = isDegraded s
  ∧ options r.1.1 = options s
  ∧ ceiling r.1.1 = ceiling s
  ∧ resourceLimits r.1.1 = resourceLimits s
  ∧ modelManagers r.1.1 = modelManagers s.
Proof.
  unfold optimizeResources_resume.
  destruct (promiseAll_wrapped snapshot h) as [->|[msg ->]]; simpl;
    by repeat split.
Qed.

Lemma calledLog_calls (l : list nat) :
  calledLog (map OptimizeMemoryCalled l) = l.
Proof. induction l as [|m l IH]; simpl; [done|]. by f_equal. Qed.

(** The events of a continuation contain no call of a hook. *)
Lemma optimizeResources_resume_calls (s : t) (snapshot : list nat)
      (h : hooks) (gc : bool) (g : gauges) (now : Z) :
  calledLog (optimizeResources_resume s snapshot h gc g now).2 = [].
Proof.
  unfold optimizeResources_resume.
  assert (calledLog (concat (map snd (map (λ m, optimizeOne (h m)) snapshot)))
          = []) as H0.
  { induction snapshot as [|m l IH]; simpl; [done|].
    unfold calledLog in *. rewrite omap_app, IH, app_nil_r.
    by destruct (h m) as [|[|msg]]. }
  destruct (promiseAll_wrapped snapshot h) as [->|[msg ->]]; simpl;
    unfold calledLog in *; rewrite !omap_app, H0; simpl; [|done].
  by destruct gc.
Qed.

Lemma queue_setMaxConcurrent_ceiling (q : RequestQueue.t) (n now : Z) :
  RequestQueue.maxConcurrent (RequestQueue.setMaxConcurrent q n now).1
  = Z.max 1 n.
Proof.
  apply (step_maxConcurrent q (RequestQueue.SetMaxConcurrent n now)).
Qed.


Lemma manager_run_snoc (s : t) (ops : list op) (o : op) :
  run s (ops ++ [o]) = step (run s ops) o.
Proof. unfold run. by rewrite fold_left_app. Qed.


End ManagerFacts.

(** * The claims about the queue and the monitor *)

Section QueueClaims.

Import RequestQueue.

(** C1, as stated, fails: three items are in flight under a ceiling of 3,
    then [setMaxConcurrent(1)] lowers the ceiling; the processing set still
    has its three items, which is more than the ceiling of 1.  The same
    happens when the manager enters degraded mode with four items in flight
    under a configured ceiling of 4: the ceiling becomes 2. *)
Lemma concurrency_bound_counterexample :
  let q :=
    (run (new (Some 3))
         [Enqueue "a" 0 0; Enqueue "b" 0 0; Enqueue "c" 0 0;
          SetMaxConcurrent 1 1]).1 in
  let s :=
    ResourceManager.run
      (ResourceManager.new
         (ResourceManager.mkUserOptions None (Some 4) None None None None) 0 0)
      [ResourceManager.QueueEnqueue "a" 1 1;
       ResourceManager.QueueEnqueue "b" 1 1;
       ResourceManager.QueueEnqueue "c" 1 1;
       ResourceManager.QueueEnqueue "d" 1 1;
       ResourceManager.EnableDegradation 2] in
  (processingSize q = 3 ∧ maxConcurrent q = 1
   ∧ (maxConcurrent q <? processingSize q) = true)
  ∧ (ResourceManager.isDegraded s = true
     ∧ processingSize (ResourceManager.requestQueue s) = 4
     ∧ maxConcurrent (ResourceManager.requestQueue s) = 2).
Proof. vm_compute. by repeat split. Qed.

(** C1, amended: with ceilings that are integers, a queue built with a
    ceiling [c >= 0] keeps the processing set within the current ceiling
    as long as no [setMaxConcurrent] call sets the ceiling below the
    number of items in flight; in every run the processing set is at most
    the largest ceiling in force so far; and no operation grows the
    processing set beyond the ceiling it leaves. *)
Theorem concurrency_bound (c : Z) (ops : list op) (o : op) :
  0 <= c →
  let q := (run (new (Some c)) ops).1 in
  (spares_inflight (new (Some c)) ops = true
   → processingSize q <= maxConcurrent q)
  ∧ processingSize q <= peak c ops
  ∧ processingSize (step q o).1
    <= Z.max (processingSize q) (maxConcurrent (step q o).1).
Proof.
  intros Hc q. split_and!.
  - intros Hs. apply run_within_ceiling; [|done].
    unfold within_ceiling, processingSize. simpl. rewrite map_size_empty. lia.
  - apply run_peak; [|simpl; lia].
    unfold processingSize. simpl. rewrite map_size_empty. lia.
  - apply step_size.
Qed.

Lemma concurrency_bound_witness :
  0 <= 2
  ∧ let ops := [Enqueue "a" 0 0; Enqueue "b" 0 0; Enqueue "c" 0 1;
                SetMaxConcurrent 3 1; Settle 0 Fulfils 2 2;
                SetMaxConcurrent 2 3] in
    let q := (run (new (Some 2)) ops).1 in
    processingSize q <= maxConcurrent q
    ∧ processingSize q <= peak 2 ops
    ∧ processingSize (step q (Enqueue "d" 4 4)).1
      <= Z.max (processingSize q)
               (maxConcurrent (step q (Enqueue "d" 4 4)).1).
Proof.
  split; [lia|].
  pose proof (concurrency_bound 2
                [Enqueue "a" 0 0; Enqueue "b" 0 0; Enqueue "c" 0 1;
                 SetMaxConcurrent 3 1; Settle 0 Fulfils 2 2;
                 SetMaxConcurrent 2 3]
                (Enqueue "d" 4 4) ltac:(lia)) as (H1 & H2 & H3).
  exact (conj (H1 eq_refl) (conj H2 H3)).
Defined.

(** C2: in every run of a new queue the work units are called in the order
    of admission: the items called so far, followed by the wait list, are
    the admitted items in order.  With a ceiling of 1 that no
    [setMaxConcurrent] call raises, the work units also settle in that
    order: the items settled so far, then the item in flight if any, then
    the wait list, are the admitted items in order. *)
Theorem fifo_order (c : option Z) (ops ops1 : list op) :
  forallb single_slot ops1 = true →
  let q := (run (new c) ops).1 in
  let evs := (run (new c) ops).2 in
  let q1 := (run (new (Some 1)) ops1).1 in
  let evs1 := (run (new (Some 1)) ops1).2 in
  enqueuedLog evs = startedLog evs ++ map ref (queue q)
  ∧ startedLog evs `prefix_of` enqueuedLog evs
  ∧ enqueuedLog evs1
    = settledLog evs1 ++ (map_to_list (processing q1)).*1
      ++ map ref (queue q1)
  ∧ settledLog evs1 `prefix_of` startedLog evs1
  ∧ settledLog evs1 `prefix_of` enqueuedLog evs1.
Proof.
  intros Hall q evs q1 evs1.
  pose proof (run_ordered ops (new c) [] (new_ordered c)) as (He & Hs & _).
  pose proof (run_ordered ops1 (new (Some 1)) [] (new_ordered (Some 1)))
    as (He1 & Hs1 & _).
  assert (serial (new (Some 1)) []) as H0.
  { split; [simpl; lia|]. by left. }
  pose proof (run_serial ops1 (new (Some 1)) [] Hall H0) as (_ & Hser).
  simpl in *. fold q evs in He, Hs. fold q1 evs1 in He1, Hs1, Hser.
  assert (startedLog evs1
          = settledLog evs1 ++ (map_to_list (processing q1)).*1) as Hst.
  { destruct Hser as [[-> ->]|(r & it & -> & ->)].
    - by rewrite map_to_list_empty, app_nil_r.
    - by rewrite map_to_list_singleton. }
  split_and!.
  - congruence.
  - rewrite He, <- Hs. by eexists.
  - rewrite He1, <- Hs1, Hst. by rewrite <- app_assoc.
  - rewrite Hst. by eexists.
  - rewrite He1, <- Hs1, Hst, <- app_assoc. by eexists.
Qed.

Lemma fifo_order_witness :
  let ops := [Enqueue "a" 0 0; Enqueue "b" 1 1; Enqueue "c" 2 2;
              Settle 0 Fulfils 5 5; Settle 1 (RejectsWith ThrownNullish) 6 6;
              Enqueue "d" 7 7; Settle 2 Fulfils 8 8] in
  forallb single_slot ops = true
  ∧ enqueuedLog (run (new (Some 1)) ops).2 = [0; 1; 2; 3]%nat
  ∧ startedLog (run (new (Some 1)) ops).2 = [0; 1; 2; 3]%nat
  ∧ settledLog (run (new (Some 1)) ops).2 = [0; 1; 2]%nat
  ∧ settledLog (run (new (Some 1)) ops).2
    `prefix_of` enqueuedLog (run (new (Some 1)) ops).2.
Proof.
  split; [reflexivity|].
  split; [reflexivity|]. split; [reflexivity|]. split; [reflexivity|].
  exact (proj2 (proj2 (proj2 (proj2
           (fifo_order (Some 1)
              [Enqueue "a" 0 0; Enqueue "b" 1 1; Enqueue "c" 2 2;
               Settle 0 Fulfils 5 5;
               Settle 1 (RejectsWith ThrownNullish) 6 6;
               Enqueue "d" 7 7; Settle 2 Fulfils 8 8]
              [Enqueue "a" 0 0; Enqueue "b" 1 1; Enqueue "c" 2 2;
               Settle 0 Fulfils 5 5;
               Settle 1 (RejectsWith ThrownNullish) 6 6;
               Enqueue "d" 7 7; Settle 2 Fulfils 8 8]
              eq_refl))))).
Defined.

(** C9: [setMaxConcurrent(n)] leaves the ceiling at [max(1, n)], which is 1
    for [n <= 0] and never 0; when the new ceiling is above the old one
    [processNext()] is called at once, so that the head of a non-empty wait
    list is dispatched if the processing set is below the new ceiling. *)
Theorem setMaxConcurrent_ceiling (q : t) (n now : Z) :
  let q' := (setMaxConcurrent q n now).1 in
  let raised := set_maxConcurrent q (Z.max 1 n) in
  maxConcurrent q' = Z.max 1 n
  ∧ 1 <= maxConcurrent q'
  ∧ (n <= 0 → maxConcurrent q' = 1)
  ∧ (maxConcurrent q < Z.max 1 n →
     setMaxConcurrent q n now
     = ((processNext raised now).1,
        LimitUpdated (maxConcurrent q) (Z.max 1 n)
        :: (processNext raised now).2))
  ∧ (maxConcurrent q < Z.max 1 n → processingSize q < Z.max 1 n →
     queue q ≠ [] →
     ∃ item rest,
       queue q = item :: rest ∧ queue q' = rest
       ∧ is_Some (processing q' !! ref item)
       ∧ (setMaxConcurrent q n now).2
         = [LimitUpdated (maxConcurrent q) (Z.max 1 n); Started (ref item)]).
Proof.
  intros q' raised.
  pose proof (step_maxConcurrent q (SetMaxConcurrent n now)) as Hm.
  simpl in Hm. fold q' in Hm.
  split_and!; [done|lia|lia| |].
  - intros Hlt. unfold setMaxConcurrent. fold raised.
    assert ((maxConcurrent q <? maxConcurrent raised) = true) as ->
      by (apply Z.ltb_lt; simpl; lia).
    by destruct (processNext raised now).
  - intros Hlt Hsz Hne. subst q'. unfold setMaxConcurrent. fold raised.
    assert ((maxConcurrent q <? maxConcurrent raised) = true) as ->
      by (apply Z.ltb_lt; simpl; lia).
    destruct (processNext_cases raised now)
      as [Hp|(item & rest & Hq & _ & Hp)].
    + exfalso. unfold processNext in Hp.
      assert ((maxConcurrent raised <=? processingSize raised) = false) as E1
        by (apply Z.leb_gt; unfold processingSize in *; simpl; lia).
      assert ((queueLength raised =? 0) = false) as E2.
      { apply Z.eqb_neq. unfold queueLength. simpl.
        destruct (queue q); [done|simpl; lia]. }
      rewrite E1, E2 in Hp. simpl in Hp.
      destruct (queue q); [done|]. discriminate Hp.
    + rewrite Hp. simpl. exists item, rest.
      split_and!; [done|done| |done].
      rewrite lookup_insert_eq. eauto.
Qed.

Lemma setMaxConcurrent_ceiling_witness :
  let q := (run (new (Some 1)) [Enqueue "a" 0 0; Enqueue "b" 1 1]).1 in
  maxConcurrent (setMaxConcurrent q (-4) 2).1 = 1
  ∧ maxConcurrent (setMaxConcurrent q 0 2).1 = 1
  ∧ maxConcurrent (setMaxConcurrent q 2 2).1 = 2
  ∧ (setMaxConcurrent q 2 2).2 = [LimitUpdated 1 2; Started 1%nat].
Proof.
  set (q := (run (new (Some 1)) [Enqueue "a" 0 0; Enqueue "b" 1 1]).1).
  split_and!.
  - exact (proj1 (proj2 (proj2 (setMaxConcurrent_ceiling q (-4) 2)))
                 ltac:(lia)).
  - exact (proj1 (proj2 (proj2 (setMaxConcurrent_ceiling q 0 2)))
                 ltac:(lia)).
  - exact (proj1 (setMaxConcurrent_ceiling q 2 2)).
  - reflexivity.
Defined.

End QueueClaims.

Section MonitorClaims.

Import PerformanceMonitor.

(** C7: a new monitor records three successful requests lasting 100, 200
    and 300 ms and one failed request lasting 50 ms, whatever the clock
    shows when each of them starts; [getMetrics] then reports an error rate
    of 0.25 and an average response time of 162.5, the failed request's
    50 ms being one of the four samples.  The same is reported when the
    four requests overlap and the failed one ends first. *)
Theorem metrics_scenario (o : UserOptions) (n1 n2 now : Z)
        (i1 i2 i3 i4 : string) (s1 s2 s3 s4 : Z)
        (u1 u2 u3 u4 l1 l2 l3 l4 : Z) :
  let m1 := recordRequest (new o n1 n2) i1 s1 100 true u1 l1 in
  let m2 := recordRequest m1 i2 s2 200 true u2 l2 in
  let m3 := recordRequest m2 i3 s3 300 true u3 l3 in
  let m4 := recordRequest m3 i4 s4 50 false u4 l4 in
  let p := performance (rep_metrics (getMetrics m4 now)) in
  let pending i s := mkRequest i s None None None in
  let m4' :=
    run (new o n1 n2)
        [RecordStart i1 s1; RecordStart i2 s2; RecordStart i3 s3;
         RecordStart i4 s4;
         RecordEnd (pending i4 s4) false (s4 + 50) u4 l4;
         RecordEnd (pending i1 s1) true (s1 + 100) u1 l1;
         RecordEnd (pending i2 s2) true (s2 + 200) u2 l2;
         RecordEnd (pending i3 s3) true (s3 + 300) u3 l3] in
  let p' := performance (rep_metrics (getMetrics m4' now)) in
  (ratio_is (errorRate p) 0.25
   ∧ (averageResponseTime p == 162.5)%Q
   ∧ responseTimes m4 = [100; 200; 300; 50])
  ∧ (ratio_is (errorRate p') 0.25
     ∧ (averageResponseTime p' == 162.5)%Q
     ∧ responseTimes m4' = [50; 100; 200; 300]).
Proof.
  intros m1 m2 m3 m4 p pending m4' p'.
  pose proof (recordRequest_spec (new o n1 n2) i1 s1 100 true u1 l1)
    as (T1 & R1 & _).
  pose proof (recordRequest_spec m1 i2 s2 200 true u2 l2) as (T2 & R2 & _).
  pose proof (recordRequest_spec m2 i3 s3 300 true u3 l3) as (T3 & R3 & _).
  pose proof (recordRequest_spec m3 i4 s4 50 false u4 l4)
    as (T4 & R4 & A4 & E4).
  fold m1 in T1, R1. fold m2 in T2, R2. fold m3 in T3, R3.
  fold m4 in T4, R4, A4, E4.
  rewrite T1 in T2. rewrite T2 in T3. rewrite T3 in T4.
  rewrite R1 in R2. rewrite R2 in R3. rewrite R3 in R4.
  split.
  - subst p. cbn [getMetrics rep_metrics]. rewrite E4, A4, R4, T4.
    by split_and!.
  - set (k0 := (recordRequestStart (new o n1 n2) i1 s1).1).
    set (k1 := (recordRequestStart k0 i2 s2).1).
    set (k2 := (recordRequestStart k1 i3 s3).1).
    set (k3 := (recordRequestStart k2 i4 s4).1).
    pose proof (recordRequestEnd_spec k3 (pending i4 s4) false (s4 + 50)
                                      u4 l4) as (U1 & Q1 & _).
    set (k4 := (recordRequestEnd k3 _ false _ u4 l4).1) in *.
    pose proof (recordRequestEnd_spec k4 (pending i1 s1) true (s1 + 100)
                                      u1 l1) as (U2 & Q2 & _).
    set (k5 := (recordRequestEnd k4 _ true _ u1 l1).1) in *.
    pose proof (recordRequestEnd_spec k5 (pending i2 s2) true (s2 + 200)
                                      u2 l2) as (U3 & Q3 & _).
    set (k6 := (recordRequestEnd k5 _ true _ u2 l2).1) in *.
    pose proof (recordRequestEnd_spec k6 (pending i3 s3) true (s3 + 300)
                                      u3 l3) as (U4 & Q4 & A & E).
    set (k7 := (recordRequestEnd k6 _ true _ u3 l3).1) in *.
    assert (m4' = k7) as -> by reflexivity.
    subst pending. cbn [req_startTime] in U1, U2, U3, U4.
    rewrite Z.add_simpl_l in U1, U2, U3, U4.
    rewrite U1 in U2. rewrite U2 in U3. rewrite U3 in U4.
    rewrite Q1 in Q2. rewrite Q2 in Q3. rewrite Q3 in Q4.
    subst p'. cbn [getMetrics rep_metrics]. rewrite E, A, Q4, U4.
    by split_and!.
Qed.



End MonitorClaims.

Section ConservationClaim.

(** C4: in every run of a new monitor, over all its operations,
    [total = completed + failed + inProgress]; in every run of a new queue,
    over enqueue, settlement, [clearHistory] and [setMaxConcurrent],
    [totalRequests] is the size of the processing set plus the lengths of
    the wait list, the completed history and the failed history. *)
Theorem counter_conservation
        (o : PerformanceMonitor.UserOptions) (n1 n2 : Z)
        (mops : list PerformanceMonitor.op)
        (c : option Z) (qops : list RequestQueue.op) :
  let m := PerformanceMonitor.run (PerformanceMonitor.new o n1 n2) mops in
  let r := PerformanceMonitor.requests (PerformanceMonitor.metrics m) in
  let q := (RequestQueue.run (RequestQueue.new c) qops).1 in
  PerformanceMonitor.total r
  = PerformanceMonitor.completed r + PerformanceMonitor.failed r
    + PerformanceMonitor.inProgress r
  ∧ RequestQueue.totalRequests (RequestQueue.metrics q)
    = RequestQueue.processingSize q + RequestQueue.queueLength q
      + Z.of_nat (length (RequestQueue.completed q))
      + Z.of_nat (length (RequestQueue.failed q)).
Proof.
  intros m r q. split.
  - by apply (monitor_run_conserved mops (PerformanceMonitor.new o n1 n2)).
  - apply (run_conserved qops (RequestQueue.new c) []).
    + apply new_ordered.
    + unfold RequestQueue.conserved, RequestQueue.processingSize,
        RequestQueue.queueLength. simpl. by rewrite map_size_empty.
Qed.

End ConservationClaim.

(** * The claims about the resource manager *)

Section ManagerClaims.

Import ResourceManager.




(** C5: when an optimisation pass runs, [optimizeMemory()] is called on
    every registered collaborator, in registration order, however each of
    these calls ends; the pass completes normally, and so does its
    continuation from whatever state the manager is in when the hooks have
    settled. *)
Theorem collaborator_isolation (s s1 : t) (snapshot : list nat) (h : hooks)
        (gc : bool) (g : gauges) (now : Z) :
  isOptimizing s = false →
  calledLog (optimizeResources s h gc g now).2 = modelManagers s
  ∧ (optimizeResources s h gc g now).1.2 = Normal
  ∧ (optimizeResources_resume s1 snapshot h gc g now).1.2 = Normal.
Proof.
  intros Hopt. unfold optimizeResources, optimizeResources_enter.
  rewrite Hopt.
  pose proof (optimizeResources_resume_frame
                (set_isOptimizing s true) (modelManagers s) h gc g now)
    as (Hn & _).
  pose proof (optimizeResources_resume_calls
                (set_isOptimizing s true) (modelManagers s) h gc g now)
    as Hcalls.
  pose proof (optimizeResources_resume_frame s1 snapshot h gc g now)
    as (Hn1 & _).
  change (modelManagers (set_isOptimizing s true)) with (modelManagers s).
  destruct (optimizeResources_resume (set_isOptimizing s true) _ h gc g now)
    as [[s2 c] ev]. simpl in *.
  split_and!; [|done|done].
  change (OptimizationStarted :: map OptimizeMemoryCalled (modelManagers s)
          ++ ev)
    with ([OptimizationStarted]
          ++ map OptimizeMemoryCalled (modelManagers s) ++ ev).
  unfold calledLog in *. rewrite !omap_app, Hcalls. simpl.
  rewrite app_nil_r. apply calledLog_calls.
Qed.

Lemma collaborator_isolation_witness :
  let s :=
    registerModelManager
      (registerModelManager
         (registerModelManager (new noOptions 0 0) 7%nat) 8%nat) 9%nat in
  let h : hooks := λ m,
    if (m =? 7)%nat then RejectsWith (ThrownError "out of memory")
    else if (m =? 8)%nat then RejectsWith ThrownNullish
    else Fulfils in
  isOptimizing s = false
  ∧ calledLog (optimizeResources s h false (λ _, None) 5).2 = [7; 8; 9]%nat
  ∧ (optimizeResources s h false (λ _, None) 5).1.2 = Normal.
Proof.
  split; [reflexivity|].
  exact (let H :=
           collaborator_isolation
             (registerModelManager
                (registerModelManager
                   (registerModelManager (new noOptions 0 0) 7%nat) 8%nat)
                9%nat)
             (new noOptions 0 0) []
             (λ m, if (m =? 7)%nat
                   then RejectsWith (ThrownError "out of memory")
                   else if (m =? 8)%nat then RejectsWith ThrownNullish
                   else Fulfils)
             false (λ _, None) 5 eq_refl in
         conj (proj1 H) (proj1 (proj2 H))).
Defined.

(** C6: a call of [optimizeResources()] made while [isOptimizing] is set
    returns at once and changes nothing; a call made while it is clear sets
    it for the duration of the pass; the continuation of a pass clears it
    on the normal path and on the path through the [catch] block alike, so
    that a call that ran leaves the flag clear when it completes. *)
Theorem optimizing_flag (s : t) (snapshot : list nat) (h : hooks)
        (gc : bool) (g : gauges) (now : Z) :
  (isOptimizing s = true →
   optimizeResources_enter s = None
   ∧ optimizeResources s h gc g now = (s, Normal, []))
  ∧ (isOptimizing s = false →
     ∃ s1 ev, optimizeResources_enter s = Some (s1, modelManagers s, ev)
              ∧ isOptimizing s1 = true
              ∧ isOptimizing (optimizeResources s h gc g now).1.1 = false
              ∧ (optimizeResources s h gc g now).1.2 = Normal)
  ∧ isOptimizing (optimizeResources_resume s snapshot h gc g now).1.1 = false
  ∧ (optimizeResources_resume s snapshot h gc g now).1.2 = Normal.
Proof.
  split_and!.
  - intros Hopt. unfold optimizeResources, optimizeResources_enter.
    by rewrite Hopt.
  - intros Hopt. unfold optimizeResources, optimizeResources_enter.
    rewrite Hopt. eexists _, _. split; [reflexivity|]. split; [done|].
    pose proof (optimizeResources_resume_frame
                  (set_isOptimizing s true) (modelManagers s) h gc g now)
      as (Hn & Hf & _).
    change (modelManagers (set_isOptimizing s true)) with (modelManagers s).
    by destruct (optimizeResources_resume (set_isOptimizing s true) _ h gc g
                                          now) as [[s2 c] ev].
  - apply optimizeResources_resume_frame.
  - apply optimizeResources_resume_frame.
Qed.

Lemma optimizing_flag_witness :
  let s := registerModelManager (new noOptions 0 0) 7%nat in
  let h : hooks := λ _, RejectsWith ThrownNullish in
  let busy := set_isOptimizing s true in
  (isOptimizing busy = true
   ∧ optimizeResources busy h true (λ _, None) 5 = (busy, Normal, []))
  ∧ (isOptimizing s = false
     ∧ isOptimizing (optimizeResources s h true (λ _, None) 5).1.1 = false
     ∧ (optimizeResources s h true (λ _, None) 5).2
       = [OptimizationStarted; OptimizeMemoryCalled 7;
          OptimizationFailed "Cannot read properties of null"]).
Proof.
  split.
  - split; [reflexivity|].
    exact (proj2 (proj1 (optimizing_flag
                           (set_isOptimizing
                              (registerModelManager (new noOptions 0 0)
                                                    7%nat) true)
                           [] (λ _, RejectsWith ThrownNullish) true
                           (λ _, None) 5)
                        eq_refl)).
  - split; [reflexivity|]. split; [|reflexivity].
    destruct (proj1 (proj2 (optimizing_flag
                              (registerModelManager (new noOptions 0 0)
                                                    7%nat)
                              [] (λ _, RejectsWith ThrownNullish) true
                              (λ _, None) 5))
                    eq_refl) as (s1 & ev & _ & _ & Hflag & _).
    exact Hflag.
Defined.

(** C10: [updateResourceLimits(newLimits)] gives each of the three limits
    the value [newLimits] has for it when that value is present and not 0,
    and leaves it as it was otherwise, in [resourceLimits] and in [options]
    alike; so a limit that was not 0 is not 0 afterwards.  The ceiling of
    the queue follows a new concurrency limit only when the manager is not
    degraded.  Nothing else of the manager changes. *)
Theorem updateResourceLimits_frame (s : t) (n : NewLimits) (now : Z) :
  let s' := (updateResourceLimits s n now).1 in
  lim_maxMemoryUsage (resourceLimits s')
  = updated (lim_maxMemoryUsage (resourceLimits s)) (n_maxMemoryUsage n)
  ∧ maxMemoryUsage (options s')
    = updated (maxMemoryUsage (options s)) (n_maxMemoryUsage n)
  ∧ lim_maxProcessingTime (resourceLimits s')
    = updated (lim_maxProcessingTime (resourceLimits s))
              (n_maxProcessingTime n)
  ∧ maxProcessingTime (options s')
    = updated (maxProcessingTime (options s)) (n_maxProcessingTime n)
  ∧ maxConcurrentRequests (options s')
    = updated (maxConcurrentRequests (options s)) (n_maxConcurrentRequests n)
  ∧ ceiling s'
    = (if isDegraded s then ceiling s
       else match truthy (n_maxConcurrentRequests n) with
            | Some v => Z.max 1 v
            | None => ceiling s
            end)
  ∧ (lim_maxMemoryUsage (resourceLimits s) ≠ 0
     → lim_maxMemoryUsage (resourceLimits s') ≠ 0)
  ∧ (lim_maxProcessingTime (resourceLimits s) ≠ 0
     → lim_maxProcessingTime (resourceLimits s') ≠ 0)
  ∧ (maxConcurrentRequests (options s) ≠ 0
     → maxConcurrentRequests (options s') ≠ 0)
  ∧ memoryOptimizationThreshold (options s')
    = memoryOptimizationThreshold (options s)
  ∧ gracefulDegradationThreshold (options s')
    = gracefulDegradationThreshold (options s)
  ∧ monitoringInterval (options s') = monitoringInterval (options s)
  ∧ performanceMonitor s' = performanceMonitor s
  ∧ currentMemoryUsage s' = currentMemoryUsage s
  ∧ isOptimizing s' = isOptimizing s
  ∧ isDegraded s' = isDegraded s
  ∧ lastOptimization s' = lastOptimization s
  ∧ modelManagers s' = modelManagers s.
Proof.
  intros s'. subst s'. unfold updateResourceLimits, updated, truthy.
  destruct (n_maxMemoryUsage n) as [a|]; [destruct (Z.eqb_spec a 0)|];
    (destruct (n_maxProcessingTime n) as [b|]; [destruct (Z.eqb_spec b 0)|]);
    (destruct (n_maxConcurrentRequests n) as [c|];
     [destruct (Z.eqb_spec c 0)|]);
    simpl;
    try (destruct (isDegraded s) eqn:Hd; simpl;
         [|pose proof (queue_setMaxConcurrent_ceiling (requestQueue s) c now);
           destruct (RequestQueue.setMaxConcurrent (requestQueue s) c now);
           simpl in *]);
    try rewrite Hd; unfold ceiling; simpl;
    split_and!; try done; try (by destruct (isDegraded s)).
Qed.

Lemma updateResourceLimits_frame_witness :
  let s := new noOptions 0 0 in
  let s' :=
    (updateResourceLimits s (mkNewLimits (Some 0) None (Some 8)) 1).1 in
  lim_maxMemoryUsage (resourceLimits s) ≠ 0
  ∧ lim_maxMemoryUsage (resourceLimits s') = 16000
  ∧ lim_maxMemoryUsage (resourceLimits s') ≠ 0
  ∧ lim_maxProcessingTime (resourceLimits s') = 30000
  ∧ maxConcurrentRequests (options s') = 8.
Proof.
  assert (lim_maxMemoryUsage (resourceLimits (new noOptions 0 0)) ≠ 0)
    as Hne by discriminate.
  split; [exact Hne|]. split; [reflexivity|].
  split; [|split; reflexivity].
  exact (proj1 (proj2 (proj2 (proj2 (proj2 (proj2 (proj2
           (updateResourceLimits_frame
              (new noOptions 0 0) (mkNewLimits (Some 0) None (Some 8)) 1)))))))
         Hne).
Defined.

End ManagerClaims.

(** * Further properties of the request queue *)

Section QueueLifeFacts.

Import RequestQueue.

Lemma processNext_once (q : t) (now : Z) (evs : list event) :
  ordered q evs → once q evs →
  once (processNext q now).1 (evs ++ (processNext q now).2).
Proof.
  intros Hord (Hs & Hd & Hin).
  destruct (processNext_cases q now) as [->|(item & rest & Hq & _ & ->)];
    simpl; [by rewrite app_nil_r|].
  pose proof Hord as (_ & Hst & Hdom).
  assert (ref item ∉ startedLog evs) as Hfresh.
  { pose proof (NoDup_seq 0 (nextRef q)) as Hnd. rewrite <- Hst, Hq in Hnd.
    simpl in Hnd. apply NoDup_app in Hnd as (_ & Hdis & _).
    intros Hx. apply (Hdis _ Hx). by left. }
  unfold once, startedLog, settledLog in *. rewrite !omap_app. simpl.
  rewrite app_nil_r. split_and!; [|done|].
  - apply NoDup_app. split_and!; [done| |apply NoDup_singleton].
    intros x Hx Hy%list_elem_of_singleton. by subst.
  - intros r Hr. destruct (Hin r Hr) as [Hrs Hnone]. split.
    + apply elem_of_app. by left.
    + rewrite lookup_insert_ne; [done|]. by intros <-.
Qed.

Lemma quiet_once (q q1 : t) (evs xs : list event) :
  once q evs → startedLog xs = [] → settledLog xs = [] →
  processing q1 = processing q → once q1 (evs ++ xs).
Proof.
  intros H Es Ee Ep. unfold once, startedLog, settledLog in *.
  by rewrite !omap_app, Es, Ee, !app_nil_r, Ep.
Qed.

Lemma retire_once (q : t) r (it item : QueueItem) ok (evs xs : list event) :
  ordered q evs → once q evs → processing q !! r = Some it →
  startedLog xs = [] → settledLog xs = [r] →
  once (retire q r item ok) (evs ++ xs).
Proof.
  intros (_ & _ & Hdom) (Hs & Hd & Hin) Hl Es Ee.
  pose proof (retire_frame q r item ok) as (_ & Ep & _).
  unfold once, startedLog, settledLog in *.
  rewrite !omap_app, Es, Ee, app_nil_r, Ep. split_and!; [done| |].
  - apply NoDup_app. split_and!; [done| |apply NoDup_singleton].
    intros x Hx Hy%list_elem_of_singleton. subst.
    destruct (Hin _ Hx) as [_ Hnone]. congruence.
  - intros x [Hx|Hy%list_elem_of_singleton]%elem_of_app; [|subst].
    + destruct (Hin _ Hx) as [? Hnone]. split; [done|].
      rewrite lookup_delete_None. by right.
    + split; [by eapply Hdom|]. apply lookup_delete_eq.
Qed.

Lemma step_once (q : t) (o : op) (evs : list event) :
  ordered q evs → once q evs → once (step q o).1 (evs ++ (step q o).2).
Proof.
  intros Hord Hon. destruct o as [rid a b|r oc a b| |n now]; simpl.
  - unfold enqueue.
    pose proof (processNext_once (push q rid a) b
                  (evs ++ [Enqueued (nextRef q)])
                  (push_ordered q rid a evs Hord)) as H.
    destruct (processNext _ b) as [q2 e2]. simpl in *.
    rewrite <- app_snoc_cons. apply H. by apply (quiet_once q).
  - unfold settle.
    destruct (processing q !! r) as [item|] eqn:Hl;
      [|simpl; by rewrite app_nil_r].
    set (item' := mkItem _ _ _ _ _).
    destruct oc as [|err].
    + pose proof (processNext_once (retire q r item' true) b
                    (evs ++ [Resolved r])
                    (retire_ordered q r item' true evs (Resolved r)
                                    Hord eq_refl)) as H.
      destruct (processNext _ b) as [q3 e3]. simpl in *.
      rewrite <- app_snoc_cons. apply H. by eapply retire_once.
    + destruct (read_message err) as [msg|te]; simpl.
      * assert (ordered (retire q r item' false)
                        (evs ++ [FailureLogged r msg; Rejected r])) as Ho.
        { replace (evs ++ [FailureLogged r msg; Rejected r])
            with ((evs ++ [FailureLogged r msg]) ++ [Rejected r])
            by (by rewrite <- app_assoc).
          apply retire_ordered; [|done]. by apply (quiet_ordered q). }
        pose proof (processNext_once (retire q r item' false) b _ Ho) as H.
        destruct (processNext _ b) as [q3 e3]. simpl in *.
        replace (evs ++ FailureLogged r msg :: Rejected r :: e3)
          with ((evs ++ [FailureLogged r msg; Rejected r]) ++ e3)
          by (by rewrite <- app_assoc).
        apply H. by eapply retire_once.
      * by eapply retire_once.
  - by apply (quiet_once q).
  - unfold setMaxConcurrent. case_match.
    + assert (ordered (set_maxConcurrent q (Z.max 1 n))
                      (evs ++ [LimitUpdated (maxConcurrent q) (Z.max 1 n)]))
        as Ho by (by apply (quiet_ordered q)).
      pose proof (processNext_once _ now _ Ho) as Hp.
      destruct (processNext _ now) as [q2 e2]. simpl in *.
      rewrite <- app_snoc_cons. apply Hp. by apply (quiet_once q).
    + by apply (quiet_once q).
Qed.

Lemma run_ordered_once (ops : list op) (q : t) (evs : list event) :
  ordered q evs → once q evs →
  once (run q ops).1 (evs ++ (run q ops).2).
Proof.
  revert q evs. induction ops as [|o ops IH]; intros q evs Hord Hon.
  - simpl. by rewrite app_nil_r.
  - rewrite run_cons. simpl. rewrite app_assoc.
    apply IH; [by apply step_ordered|by apply step_once].
Qed.

(** X1: in every run of a new queue no work unit is called twice, no work
    unit settles twice (so the caller's promise is resolved or rejected at
    most once), and every work unit that settled had been called. *)
Theorem exactly_once (c : option Z) (ops : list op) :
  let evs := (run (new c) ops).2 in
  NoDup (startedLog evs)
  ∧ NoDup (settledLog evs)
  ∧ (∀ r, r ∈ settledLog evs → r ∈ startedLog evs)
  ∧ (∀ r, r ∈ settledLog evs → (run (new c) ops).1.(processing) !! r = None).
Proof.
  intros evs.
  assert (once (new c) []) as H0.
  { split_and!; [apply NoDup_nil_2|apply NoDup_nil_2|].
    intros r Hr. by apply elem_of_nil in Hr. }
  pose proof (run_ordered_once ops (new c) [] (new_ordered c) H0)
    as (Hs & Hd & Hin).
  simpl in *. fold evs in Hs, Hd, Hin.
  split_and!; [done|done| |]; intros r Hr; by destruct (Hin r Hr).
Qed.

Lemma processNext_lifecycle (q : t) (now : Z) :
  lifecycle q → lifecycle (processNext q now).1.
Proof.
  intros (Hw & Hi & Hc & Hf).
  destruct (processNext_cases q now) as [->|(item & rest & Hq & _ & ->)];
    [done|].
  rewrite Hq in Hw. apply Forall_cons in Hw as [[_ Hcomp] Hw].
  split_and!; simpl; [done| |done|done].
  apply map_Forall_insert_2; [|done]. split; simpl; [eauto|done].
Qed.

Lemma retire_lifecycle (q : t) r (it : QueueItem) ok (now : Z) :
  lifecycle q → processing q !! r = Some it →
  lifecycle (retire q r
               (mkItem (ref it) (id it) (enqueuedAt it) (startedAt it)
                       (Some now)) ok).
Proof.
  intros (Hw & Hi & Hc & Hf) Hl. unfold retire.
  match goal with |- lifecycle (updateMetrics ?q0) =>
    pose proof (updateMetrics_frame q0) as (Eq & Ep & _ & Ec & Ef & _)
  end.
  unfold lifecycle. rewrite Eq, Ep, Ec, Ef.
  assert (finished (mkItem (ref it) (id it) (enqueuedAt it) (startedAt it)
                           (Some now))) as Hfin.
  { destruct (Hi r it Hl) as [Hs _]. split; simpl; eauto. }
  destruct ok; simpl; split_and!; try done;
    try (by apply map_Forall_delete);
    apply Forall_app; split; try done; by apply Forall_singleton.
Qed.

Lemma step_lifecycle (q : t) (o : op) : lifecycle q → lifecycle (step q o).1.
Proof.
  intros Hlife. destruct o as [rid a b|r oc a b| |n now]; simpl.
  - unfold enqueue.
    pose proof (processNext_lifecycle (push q rid a) b) as H.
    destruct (processNext _ b). simpl in *. apply H.
    destruct Hlife as (Hw & Hi & Hc & Hf). split_and!; simpl; try done.
    apply Forall_app. split; [done|]. by apply Forall_singleton.
  - unfold settle. destruct (processing q !! r) as [item|] eqn:Hl; [|done].
    destruct oc as [|err].
    + pose proof (processNext_lifecycle _ b
                    (retire_lifecycle q r item true a Hlife Hl)) as H.
      by destruct (processNext _ b).
    + pose proof (retire_lifecycle q r item false a Hlife Hl) as Hr.
      pose proof (processNext_lifecycle _ b Hr) as H.
      destruct (read_message err); [|done]. by destruct (processNext _ b).
  - destruct Hlife as (Hw & Hi & _). split_and!; simpl; done.
  - unfold setMaxConcurrent.
    pose proof (processNext_lifecycle (set_maxConcurrent q (Z.max 1 n)) now)
      as H.
    case_match; [|done]. destruct (processNext _ now). simpl in *. by apply H.
Qed.

Lemma run_lifecycle (ops : list op) (q : t) :
  lifecycle q → lifecycle (run q ops).1.
Proof.
  revert q. induction ops as [|o ops IH]; intros q Hl; [done|].
  rewrite run_cons. simpl. apply IH. by apply step_lifecycle.
Qed.

(** X2: in every run of a new queue a waiting item has neither timestamp
    set, an item in the processing set has [startedAt] set and
    [completedAt] still [null], and an item of the completed or failed
    history has both set. *)
Theorem item_lifecycle (c : option Z) (ops : list op) :
  let q := (run (new c) ops).1 in
  Forall waiting (queue q)
  ∧ map_Forall (λ _ i, inflight i) (processing q)
  ∧ Forall finished (completed q)
  ∧ Forall finished (failed q).
Proof.
  intros q. apply (run_lifecycle ops (new c)).
  split_and!; simpl; try done.
Qed.

Lemma processNext_metrics (q : t) (now : Z) :
  metrics (processNext q now).1 = metrics q
  ∧ completed (processNext q now).1 = completed q
  ∧ failed (processNext q now).1 = failed q.
Proof.
  destruct (processNext_cases q now) as [->|(item & rest & _ & _ & ->)]; done.
Qed.

Lemma stats_transfer (q q1 : t) :
  current_stats q →
  completedRequests (metrics q1) = completedRequests (metrics q) →
  failedRequests (metrics q1) = failedRequests (metrics q) →
  averageWaitTime (metrics q1) = averageWaitTime (metrics q) →
  averageProcessingTime (metrics q1) = averageProcessingTime (metrics q) →
  completed q1 = completed q → failed q1 = failed q →
  current_stats q1.
Proof.
  unfold current_stats, history. intros (H1 & H2 & H3 & H4) E1 E2 E3 E4 Ec Ef.
  by rewrite E1, E2, E3, E4, Ec, Ef.
Qed.

Lemma processNext_stats (q : t) (now : Z) :
  current_stats q → current_stats (processNext q now).1.
Proof.
  intros H. pose proof (processNext_metrics q now) as (Em & Ec & Ef).
  apply (stats_transfer q); by rewrite ?Em.
Qed.

Lemma retire_stats (q : t) r (item : QueueItem) ok :
  current_stats q → current_stats (retire q r item ok).
Proof.
  intros (H1 & H2 & _). unfold retire, updateMetrics, current_stats, history.
  destruct ok; simpl.
  - assert ((0 <? Z.of_nat (length ((completed q ++ [item]) ++ failed q)))
            = true) as Hpos.
    { apply Z.ltb_lt. rewrite !length_app. simpl. lia. }
    rewrite Hpos. simpl. rewrite Hpos.
    split_and!; try done. rewrite length_app. simpl. lia.
  - assert ((0 <? Z.of_nat (length (completed q ++ failed q ++ [item])))
            = true) as Hpos.
    { apply Z.ltb_lt. rewrite !length_app. simpl. lia. }
    rewrite Hpos. simpl. rewrite Hpos.
    split_and!; try done. rewrite length_app. simpl. lia.
Qed.

Lemma step_stats (q : t) (o : op) :
  current_stats q → current_stats (step q o).1.
Proof.
  intros Hst. destruct o as [rid a b|r oc a b| |n now]; simpl.
  - unfold enqueue.
    pose proof (processNext_stats (push q rid a) b) as H.
    destruct (processNext _ b). simpl in *. apply H.
    by apply (stats_transfer q).
  - unfold settle. destruct (processing q !! r) as [item|]; [|done].
    set (item' := mkItem _ _ _ _ _).
    destruct oc as [|err].
    + pose proof (processNext_stats _ b (retire_stats q r item' true Hst))
        as H.
      by destruct (processNext _ b).
    + pose proof (retire_stats q r item' false Hst) as Hr.
      pose proof (processNext_stats _ b Hr) as H.
      destruct (read_message err); [|done]. by destruct (processNext _ b).
  - by split_and!.
  - unfold setMaxConcurrent.
    pose proof (processNext_stats (set_maxConcurrent q (Z.max 1 n)) now) as H.
    case_match; [|by apply (stats_transfer q)].
    destruct (processNext _ now). simpl in *. apply H.
    by apply (stats_transfer q).
Qed.

Lemma run_stats (ops : list op) (q : t) :
  current_stats q → current_stats (run q ops).1.
Proof.
  revert q. induction ops as [|o ops IH]; intros q Hs; [done|].
  rewrite run_cons. simpl. apply IH. by apply step_stats.
Qed.

(** X3: in every run of a new queue the statistics [getStats] hands out
    are those of the history as it is now: [completedRequests] and
    [failedRequests] are the lengths of the two history lists, and the two
    averages are the means over the items of the history, or 0 when the
    history is empty. *)
Theorem stats_are_current (c : option Z) (ops : list op) :
  let q := (run (new c) ops).1 in
  let s := getStats q in
  completedRequests (stat_metrics s) = stat_completed s
  ∧ failedRequests (stat_metrics s) = stat_failed s
  ∧ getAverageWaitTime q
    = (if 0 <? Z.of_nat (length (history q))
       then mean (map waitTime (history q)) else 0%Q)
  ∧ averageProcessingTime (stat_metrics s)
    = (if 0 <? Z.of_nat (length (history q))
       then mean (map processingTime (history q)) else 0%Q).
Proof.
  intros q s. apply (run_stats ops (new c)). by split_and!.
Qed.

(** [processNext] fills the one slot that can be free. *)
Lemma processNext_saturated (q : t) (now : Z) (evs : list event) :
  ordered q evs →
  (length (queue q) ≤ 1)%nat ∨ maxConcurrent q <= processingSize q + 1 →
  saturated (processNext q now).1.
Proof.
  intros Hord Hpre. unfold saturated, processNext.
  destruct (maxConcurrent q <=? processingSize q) eqn:Hfull; simpl.
  { right. by apply Z.leb_le. }
  destruct (queueLength q =? 0) eqn:Hlen; simpl.
  { left. apply Z.eqb_eq in Hlen. unfold queueLength in Hlen.
    destruct (queue q); [done|simpl in Hlen; lia]. }
  destruct (queue q) as [|item rest] eqn:Hq; [by left|]. simpl.
  destruct Hpre as [Hone|Hslot].
  - left. destruct rest; [done|simpl in Hone; lia].
  - right. unfold processingSize in *. simpl.
    rewrite map_size_insert_None; [lia|].
    by eapply ordered_head_fresh.
Qed.

Lemma step_saturated (q : t) (o : op) (evs : list event) :
  steady o = true → ordered q evs → saturated q → saturated (step q o).1.
Proof.
  intros Hsteady Hord Hsat.
  destruct o as [rid a b|r oc a b| |n now]; simpl; [| | |done].
  - unfold enqueue.
    pose proof (processNext_saturated (push q rid a) b _
                  (push_ordered q rid a evs Hord)) as H.
    destruct (processNext _ b). simpl in *. apply H.
    destruct Hsat as [->|Hfull]; [left; simpl; lia|right].
    unfold processingSize in *. simpl. lia.
  - unfold settle. destruct (processing q !! r) as [item|] eqn:Hl; [|done].
    set (item' := mkItem _ _ _ _ _).
    assert (∀ ok, (length (queue (retire q r item' ok)) ≤ 1)%nat
                  ∨ maxConcurrent (retire q r item' ok)
                    <= processingSize (retire q r item' ok) + 1) as Hpre.
    { intros ok. pose proof (retire_frame q r item' ok) as (Eq & Ep & Em & _).
      unfold processingSize. rewrite Eq, Ep, Em.
      pose proof (map_size_delete_Some r (processing q) ltac:(eauto)) as Hd.
      assert (size (processing q) ≠ 0%nat) as Hne.
      { intros H0. apply map_size_empty_inv in H0. rewrite H0 in Hl.
        by rewrite lookup_empty in Hl. }
      destruct Hsat as [->|Hfull]; [left; simpl; lia|right].
      unfold processingSize in Hfull. lia. }
    destruct oc as [|err].
    + pose proof (processNext_saturated _ b _
                    (retire_ordered q r item' true evs (Resolved r)
                                    Hord eq_refl) (Hpre true)) as H.
      by destruct (processNext _ b).
    + destruct err as [|msg]; [done|]. simpl.
      pose proof (processNext_saturated _ b _
                    (retire_ordered q r item' false evs (Rejected r)
                                    Hord eq_refl) (Hpre false)) as H.
      by destruct (processNext _ b).
  - done.
Qed.

Lemma run_saturated (ops : list op) (q : t) (evs : list event) :
  forallb steady ops = true → ordered q evs → saturated q →
  saturated (run q ops).1.
Proof.
  revert q evs. induction ops as [|o ops IH]; intros q evs Hall Hord Hsat;
    [done|].
  rewrite run_cons. simpl in *. apply andb_prop in Hall as [Ho Hall].
  eapply IH; [done|by apply step_ordered|by eapply step_saturated].
Qed.

(** X4: the queue drains itself.  In a run of a new queue in which the
    ceiling is not changed and no work unit rejects with [null] or
    [undefined], nothing waits while a slot is free: the wait list is empty
    or the processing set has reached the ceiling. *)
Theorem work_conserving (c : option Z) (ops : list op) :
  forallb steady ops = true →
  let q := (run (new c) ops).1 in
  queue q = [] ∨ maxConcurrent q <= processingSize q.
Proof.
  intros Hall q.
  apply (run_saturated ops (new c) []); [done|apply new_ordered|by left].
Qed.

Lemma work_conserving_witness :
  let ops := [Enqueue "a" 0 0; Enqueue "b" 1 1; Enqueue "c" 2 2;
              Settle 0 (RejectsWith (ThrownError "late")) 5 5;
              ClearHistory] in
  let q := (run (new (Some 2)) ops).1 in
  forallb steady ops = true
  ∧ queue q = [] ∧ processingSize q = 2
  ∧ (queue q = [] ∨ maxConcurrent q <= processingSize q).
Proof.
  split; [reflexivity|]. split; [reflexivity|]. split; [reflexivity|].
  exact (work_conserving (Some 2)
           [Enqueue "a" 0 0; Enqueue "b" 1 1; Enqueue "c" 2 2;
            Settle 0 (RejectsWith (ThrownError "late")) 5 5;
            ClearHistory] eq_refl).
Defined.

(** What a step dispatches depends on the wait list, the processing set,
    the ceiling and the allocator only. *)
Lemma processNext_live (q q' : t) (now : Z) :
  live q = live q' →
  live (processNext q now).1 = live (processNext q' now).1
  ∧ (processNext q now).2 = (processNext q' now).2.
Proof.
  destruct q, q'. unfold live. simpl. intros [= -> -> -> ->].
  unfold processNext, processingSize, queueLength. simpl.
  repeat case_match; simplify_eq; done.
Qed.

Lemma retire_live (q q' : t) r (item : QueueItem) ok :
  live q = live q' →
  live (retire q r item ok) = live (retire q' r item ok).
Proof.
  intros Hl.
  pose proof (retire_frame q r item ok) as (E1 & E2 & E3 & E4).
  pose proof (retire_frame q' r item ok) as (E1' & E2' & E3' & E4').
  unfold live in *. rewrite E1, E2, E3, E4, E1', E2', E3', E4'.
  congruence.
Qed.

Lemma step_live (q q' : t) (o : op) :
  is_clear o = false → live q = live q' →
  live (step q o).1 = live (step q' o).1 ∧ (step q o).2 = (step q' o).2.
Proof.
  intros Ho Hl. destruct o as [rid a b|r oc a b| |n now]; simpl; [| |done|].
  - unfold enqueue.
    assert (live (push q rid a) = live (push q' rid a)) as Hp.
    { unfold live in *. simpl. congruence. }
    destruct (processNext_live _ _ b Hp) as [H1 H2].
    assert (nextRef q = nextRef q') as -> by (unfold live in Hl; congruence).
    destruct (processNext (push q rid a) b),
      (processNext (push q' rid a) b). simpl in *. by subst.
  - unfold settle.
    assert (processing q = processing q') as Hpr
      by (unfold live in Hl; congruence).
    rewrite <- Hpr. destruct (processing q !! r) as [item|]; [|done].
    set (item' := mkItem _ _ _ _ _).
    destruct oc as [|err].
    + destruct (processNext_live _ _ b (retire_live q q' r item' true Hl))
        as [H1 H2].
      destruct (processNext (retire q r item' true) b),
        (processNext (retire q' r item' true) b). simpl in *. by subst.
    + pose proof (retire_live q q' r item' false Hl) as Hr.
      destruct (processNext_live _ _ b Hr) as [H1 H2].
      destruct (read_message err); [|done].
      destruct (processNext (retire q r item' false) b),
        (processNext (retire q' r item' false) b). simpl in *. by subst.
  - unfold setMaxConcurrent.
    assert (maxConcurrent q = maxConcurrent q') as Hm
      by (unfold live in Hl; congruence).
    assert (live (set_maxConcurrent q (Z.max 1 n))
            = live (set_maxConcurrent q' (Z.max 1 n))) as Hs.
    { unfold live in *. simpl. congruence. }
    destruct (processNext_live _ _ now Hs) as [H1 H2].
    rewrite <- Hm. simpl. case_match; [|done].
    destruct (processNext (set_maxConcurrent q _) now),
      (processNext (set_maxConcurrent q' _) now). simpl in *. by subst.
Qed.

Lemma run_live (ops : list op) (q q' : t) :
  live q = live q' →
  live (run q ops).1 = live (run q' (filter (λ o, is_clear o = false) ops)).1
  ∧ filter (λ e, not_cleared e = true) (run q ops).2
    = (run q' (filter (λ o, is_clear o = false) ops)).2.
Proof.
  revert q q'. induction ops as [|o ops IH]; intros q q' Hl; [done|].
  rewrite run_cons. simpl fst. simpl snd. rewrite filter_app.
  destruct (is_clear o) eqn:Ho.
  - destruct o; try discriminate Ho. rewrite filter_cons_False by done.
    simpl. apply IH. exact Hl.
  - rewrite filter_cons_True by done. rewrite run_cons. simpl fst. simpl snd.
    destruct (step_live q q' o Ho Hl) as [H1 H2].
    destruct (IH _ _ H1) as [H3 H4]. split; [done|].
    rewrite H4, <- H2. f_equal.
    clear -Ho. destruct o as [rid a b|r oc a b| |n now]; simpl.
    + unfold enqueue. destruct (processNext _ b) as [q2 e2] eqn:Hp. simpl.
      pose proof (processNext_cases (push q rid a) b) as [H|(?&?&?&?&H)];
        rewrite H in Hp; by simplify_eq.
    + unfold settle. destruct (processing q !! r); [|done].
      set (item' := mkItem _ _ _ _ _).
      destruct oc as [|err].
      * destruct (processNext _ b) as [q2 e2] eqn:Hp. simpl.
        pose proof (processNext_cases (retire q r item' true) b)
          as [H|(?&?&?&?&H)]; rewrite H in Hp; by simplify_eq.
      * destruct (read_message err); [|done].
        destruct (processNext _ b) as [q2 e2] eqn:Hp. simpl.
        pose proof (processNext_cases (retire q r item' false) b)
          as [H|(?&?&?&?&H)]; rewrite H in Hp; by simplify_eq.
    + discriminate Ho.
    + unfold setMaxConcurrent. case_match; [|done].
      destruct (processNext _ now) as [q2 e2] eqn:Hp. simpl.
      pose proof (processNext_cases (set_maxConcurrent q (Z.max 1 n)) now)
        as [H0|(?&?&?&?&H0)]; rewrite H0 in Hp; by simplify_eq.
Qed.

(** X5: [clearHistory()] is invisible to dispatch.  Leaving the
    [clearHistory] calls out of a run changes neither the wait list, the
    processing set (with the timestamps of its items) and the ceiling at
    the end of the run, nor the calls the queue makes, in their order. *)
Theorem clearHistory_transparent (q0 : t) (ops : list op) :
  let kept := filter (λ o, is_clear o = false) ops in
  queue (run q0 ops).1 = queue (run q0 kept).1
  ∧ processing (run q0 ops).1 = processing (run q0 kept).1
  ∧ maxConcurrent (run q0 ops).1 = maxConcurrent (run q0 kept).1
  ∧ filter (λ e, not_cleared e = true) (run q0 ops).2 = (run q0 kept).2.
Proof.
  intros kept. destruct (run_live ops q0 q0 eq_refl) as [H1 H2].
  unfold live in H1. injection H1 as E1 E2 E3 E4. by split_and!.
Qed.

End QueueLifeFacts.

(** * Further properties of the performance monitor *)

Section MonitorMoreFacts.

Import PerformanceMonitor.

Lemma count_cons (f : op → bool) (o : op) (ops : list op) :
  count f (o :: ops) = (if f o then 1 else 0) + count f ops.
Proof.
  unfold count. destruct (f o) eqn:Hf.
  - rewrite filter_cons_True by done. simpl length. lia.
  - rewrite filter_cons_False by (by rewrite Hf). lia.
Qed.

Lemma run_counts (ops : list op) (m : t) :
  forallb no_reset ops = true →
  let r := requests (metrics m) in
  let r' := requests (metrics (run m ops)) in
  total r' = total r + count is_start ops
  ∧ completed r' = completed r + count (is_end true) ops
  ∧ failed r' = failed r + count (is_end false) ops
  ∧ inProgress r'
    = inProgress r + count is_start ops
      - count (is_end true) ops - count (is_end false) ops.
Proof.
  revert m. induction ops as [|o ops IH]; intros m Hall r r'.
  - subst r r'. unfold count. simpl. lia.
  - simpl in Hall. apply andb_prop in Hall as [Ho Hall].
    specialize (IH (step m o) Hall). simpl in IH.
    subst r r'. change (run m (o :: ops)) with (run (step m o) ops).
    rewrite !count_cons. destruct IH as (-> & -> & -> & ->).
    destruct o as [rid now|rq ok a b c|a b|a b|now|]; simpl;
      try discriminate Ho.
    + lia.
    + rewrite updatePerformanceMetrics_requests. destruct ok; simpl; lia.
    + unfold updateMetrics. rewrite updatePerformanceMetrics_requests.
      simpl. lia.
    + unfold startMonitoring. case_match; simpl; lia.
    + unfold stopMonitoring. case_match; simpl; lia.
Qed.

(** X6: in a run of a new monitor without [resetMetrics], [total] is the
    number of [recordRequestStart] calls, [completed] and [failed] are the
    numbers of [recordRequestEnd] calls with and without success, and
    [inProgress] is the number of starts minus the number of ends: it is
    negative exactly when more requests were ended than started. *)
Theorem counters_count (o : UserOptions) (n1 n2 : Z) (ops : list op) :
  forallb no_reset ops = true →
  let r := requests (metrics (run (new o n1 n2) ops)) in
  total r = count is_start ops
  ∧ completed r = count (is_end true) ops
  ∧ failed r = count (is_end false) ops
  ∧ inProgress r
    = count is_start ops - count (is_end true) ops - count (is_end false) ops.
Proof.
  intros Hall r.
  pose proof (run_counts ops (new o n1 n2) Hall) as (H1 & H2 & H3 & H4).
  simpl in *. subst r. rewrite H1, H2, H3, H4. by split_and!.
Qed.

Lemma counters_count_witness :
  let pending := mkRequest "a" 0 None None None in
  let ops := [RecordStart "a" 0; RecordEnd pending true 5 5 5;
              RecordEnd pending false 6 6 6; Tick 7 7] in
  forallb no_reset ops = true
  ∧ total (requests (metrics (run (new noOptions 0 0) ops))) = 1
  ∧ inProgress (requests (metrics (run (new noOptions 0 0) ops))) = -1.
Proof.
  split; [reflexivity|].
  pose proof (counters_count noOptions 0 0
                [RecordStart "a" 0;
                 RecordEnd (mkRequest "a" 0 None None None) true 5 5 5;
                 RecordEnd (mkRequest "a" 0 None None None) false 6 6 6;
                 Tick 7 7] eq_refl) as (H1 & _ & _ & H4).
  exact (conj H1 H4).
Defined.

Lemma trimTimes_snoc (l : list Z) (x : Z) :
  (length l ≤ 1000)%nat →
  trimTimes (l ++ [x])
  = (if (length l <? 1000)%nat then l else drop 1 l) ++ [x].
Proof.
  intros Hlen. unfold trimTimes. rewrite length_app. simpl.
  destruct (length l <? 1000)%nat eqn:Hlt.
  - apply Nat.ltb_lt in Hlt.
    assert ((1000 <? Z.of_nat (length l + 1)) = false) as ->
      by (apply Z.ltb_ge; lia).
    done.
  - apply Nat.ltb_ge in Hlt.
    assert ((1000 <? Z.of_nat (length l + 1)) = true) as ->
      by (apply Z.ltb_lt; lia).
    replace (length l + 1 - 1000)%nat with 1%nat by lia.
    rewrite drop_app_le by lia. done.
Qed.

Lemma step_buffer_bound (m : t) (o : op) :
  (length (responseTimes m) ≤ 1000)%nat →
  (length (responseTimes (step m o)) ≤ 1000)%nat.
Proof.
  intros Hlen. destruct o as [rid now|rq ok a b c|a b|a b|now|]; simpl.
  - done.
  - rewrite updatePerformanceMetrics_responseTimes. simpl.
    rewrite trimTimes_snoc by done. rewrite length_app. simpl.
    case_match.
    + apply Nat.ltb_lt in H. lia.
    + rewrite length_drop. lia.
  - unfold updateMetrics. by rewrite updatePerformanceMetrics_responseTimes.
  - lia.
  - unfold startMonitoring. by case_match.
  - unfold stopMonitoring. by case_match.
Qed.

Lemma run_buffer_bound (ops : list op) (m : t) :
  (length (responseTimes m) ≤ 1000)%nat →
  (length (responseTimes (run m ops)) ≤ 1000)%nat.
Proof.
  revert m. induction ops as [|o ops IH]; intros m Hlen; [done|].
  apply IH. by apply step_buffer_bound.
Qed.

(** X7: the sample buffer is a window of the last 1000 durations.  In
    every run of a new monitor the buffer holds at most 1000 samples, and
    [recordRequestEnd] puts the new duration last, dropping the oldest
    sample when the buffer was full. *)
Theorem rolling_window (o : UserOptions) (n1 n2 : Z) (ops : list op)
        (rq : Request) (ok : bool) (nowEnd nowUptime nowLast : Z) :
  let m := run (new o n1 n2) ops in
  let m' := (recordRequestEnd m rq ok nowEnd nowUptime nowLast).1 in
  (length (responseTimes m) ≤ 1000)%nat
  ∧ responseTimes m'
    = (if (length (responseTimes m) <? 1000)%nat then responseTimes m
       else drop 1 (responseTimes m))
      ++ [nowEnd - req_startTime rq]
  ∧ (length (responseTimes m') ≤ 1000)%nat.
Proof.
  intros m m'.
  assert (length (responseTimes m) ≤ 1000)%nat as Hlen.
  { apply run_buffer_bound. simpl. lia. }
  split; [done|]. split.
  - subst m'.
    destruct (recordRequestEnd_spec m rq ok nowEnd nowUptime nowLast)
      as (-> & _).
    by apply trimTimes_snoc.
  - apply (step_buffer_bound m (RecordEnd rq ok nowEnd nowUptime nowLast)).
    done.
Qed.

(** *** The percentile *)

Lemma insertSorted_perm (x : Z) (l : list Z) : insertSorted x l ≡ₚ x :: l.
Proof.
  induction l as [|y l IH]; simpl; [done|].
  case_match; [done|]. rewrite IH. apply Permutation_swap.
Qed.

Lemma sortTimes_perm (l : list Z) : sortTimes l ≡ₚ l.
Proof.
  induction l as [|x l IH]; simpl; [done|].
  rewrite insertSorted_perm. by f_equiv.
Qed.

Lemma insertSorted_sorted (x : Z) (l : list Z) :
  StronglySorted Z.le l → StronglySorted Z.le (insertSorted x l).
Proof.
  induction l as [|y l IH]; simpl; intros Hs.
  - constructor; [constructor|constructor].
  - apply StronglySorted_inv in Hs as [Hs Hall].
    destruct (Z.leb_spec x y).
    + constructor; [by constructor|].
      constructor; [done|].
      eapply Forall_impl; [exact Hall|]. simpl. intros z Hz. lia.
    + constructor; [by apply IH|].
      rewrite insertSorted_perm. constructor; [lia|done].
Qed.

Lemma sortTimes_sorted (l : list Z) : StronglySorted Z.le (sortTimes l).
Proof.
  induction l as [|x l IH]; simpl; [constructor|].
  by apply insertSorted_sorted.
Qed.

Lemma sorted_around (l1 l2 : list Z) (x : Z) :
  StronglySorted Z.le (l1 ++ x :: l2) →
  Forall (λ y, y <= x) l1 ∧ Forall (λ y, x <= y) l2.
Proof.
  induction l1 as [|y l1 IH]; simpl; intros Hs.
  - apply StronglySorted_inv in Hs as [_ Hall]. by split.
  - apply StronglySorted_inv in Hs as [Hs Hall].
    destruct (IH Hs) as [H1 H2]. split; [|done].
    constructor; [|done].
    apply Forall_app in Hall as [_ Hall].
    by apply Forall_cons in Hall as [? _].
Qed.

Lemma filter_all_length (P : Z → Prop) `{∀ y, Decision (P y)} (l : list Z) :
  Forall P l → length (filter P l) = length l.
Proof.
  induction 1 as [|y l Hy Hl IH]; [done|].
  rewrite filter_cons_True by done. simpl. by rewrite IH.
Qed.

(** In a sorted list, the element at index [i] has at least [i + 1]
    elements at most equal to it and at least [length - i] at least equal
    to it. *)
Lemma sorted_rank (s : list Z) (i : nat) (x : Z) :
  StronglySorted Z.le s → s !! i = Some x →
  Z.of_nat i + 1 <= countLe x s
  ∧ Z.of_nat (length s) - Z.of_nat i <= countGe x s.
Proof.
  intros Hs Hi.
  pose proof (take_drop_middle s i x Hi) as Hsplit.
  pose proof (lookup_lt_Some _ _ _ Hi) as Hlt.
  rewrite <- Hsplit in Hs. apply sorted_around in Hs as [Hle Hge].
  unfold countLe, countGe. rewrite <- Hsplit at 1 3.
  rewrite !filter_app, !length_app.
  rewrite (filter_all_length (λ y, y <= x) (take i s)) by done.
  rewrite (filter_cons_True (λ y, y <= x)) by lia.
  rewrite (filter_cons_True (λ y, x <= y)) by lia.
  simpl length.
  rewrite (filter_all_length (λ y, x <= y) (drop (S i) s)) by done.
  rewrite length_take, length_drop. lia.
Qed.

Lemma count_perm (P : Z → Prop) `{∀ y, Decision (P y)} (l k : list Z) :
  l ≡ₚ k → length (filter P l) = length (filter P k).
Proof. intros Hp. by rewrite Hp. Qed.

(** X8: on a non-empty buffer of [n] samples [updatePerformanceMetrics]
    reports as 95th percentile one of the samples, never the fallback
    value of an index out of range: more than 95% of the samples are at
    most equal to it, and at least 5% of them are at least equal to it. *)
Theorem p95_is_a_sample (m : t) (nowUptime nowLast : Z) :
  responseTimes m ≠ [] →
  let m' := updatePerformanceMetrics m nowUptime nowLast in
  let n := Z.of_nat (length (responseTimes m)) in
  ∃ x, x ∈ responseTimes m
       ∧ p95ResponseTime (performance (metrics m')) = inject_Z x
       ∧ 19 * n < 20 * countLe x (responseTimes m)
       ∧ n <= 20 * countGe x (responseTimes m).
Proof.
  intros Hne m' n. subst m'. unfold updatePerformanceMetrics.
  assert (0 < n) as Hn.
  { subst n. destruct (responseTimes m); [done|simpl; lia]. }
  assert ((Z.of_nat (length (responseTimes m)) =? 0) = false) as ->
    by (apply Z.eqb_neq; lia).
  cbn [metrics set_metrics performance p95ResponseTime].
  set (s := sortTimes (responseTimes m)).
  assert (length s = length (responseTimes m)) as Hlen
    by (apply Permutation_length, sortTimes_perm).
  rewrite Hlen. fold n.
  assert (0 <= n * 19 / 20 < n) as Hidx.
  { split; [apply Z.div_pos; lia|].
    apply Z.div_lt_upper_bound; lia. }
  destruct (s !! Z.to_nat (n * 19 / 20)) as [x|] eqn:Hx.
  - exists x. simpl.
    destruct (sorted_rank s _ x (sortTimes_sorted _) Hx) as [Hle Hge].
    rewrite Hlen in Hge. fold n in Hge.
    rewrite Z2Nat.id in Hle, Hge by lia.
    unfold countLe, countGe in *.
    rewrite (count_perm (λ y, y <= x) s (responseTimes m)) in Hle
      by apply sortTimes_perm.
    rewrite (count_perm (λ y, x <= y) s (responseTimes m)) in Hge
      by apply sortTimes_perm.
    split_and!; [|done| |].
    + rewrite <- (sortTimes_perm (responseTimes m)).
      eapply list_elem_of_lookup_2. exact Hx.
    + pose proof (Z.mul_div_le (n * 19) 20 ltac:(lia)).
      pose proof (Z.mod_pos_bound (n * 19) 20 ltac:(lia)).
      pose proof (Z.div_mod (n * 19) 20 ltac:(lia)). lia.
    + pose proof (Z.mul_div_le (n * 19) 20 ltac:(lia)). lia.
  - apply lookup_ge_None in Hx. lia.
Qed.

Lemma p95_is_a_sample_witness :
  let m := run (new noOptions 0 0)
               [RecordEnd (mkRequest "a" 0 None None None) true 30 31 31;
                RecordEnd (mkRequest "b" 0 None None None) true 10 32 32;
                RecordEnd (mkRequest "c" 0 None None None) false 20 33 33] in
  responseTimes m = [30; 10; 20]
  ∧ p95ResponseTime (performance (metrics (updatePerformanceMetrics m 40 40)))
    = inject_Z 30
  ∧ ∃ x, x ∈ responseTimes m
         ∧ 19 * 3 < 20 * countLe x (responseTimes m).
Proof.
  split; [reflexivity|]. split; [reflexivity|].
  destruct (p95_is_a_sample
              (run (new noOptions 0 0)
                 [RecordEnd (mkRequest "a" 0 None None None) true 30 31 31;
                  RecordEnd (mkRequest "b" 0 None None None) true 10 32 32;
                  RecordEnd (mkRequest "c" 0 None None None) false 20 33 33])
              40 40 ltac:(discriminate)) as (x & Hx & _ & Hle & _).
  exists x. exact (conj Hx Hle).
Defined.

(** *** Monitoring on and off *)

Lemma step_timer (m : t) (o : op) :
  monitoringTimer m = isMonitoring m →
  monitoringTimer (step m o) = isMonitoring (step m o).
Proof.
  intros Ht. destruct o as [rid now|rq ok a b c|a b|a b|now|]; simpl;
    try done.
  - unfold updatePerformanceMetrics. by case_match.
  - unfold updateMetrics, updatePerformanceMetrics. by case_match.
  - unfold startMonitoring. destruct (isMonitoring m) eqn:E; simpl; congruence.
  - unfold stopMonitoring. destruct (isMonitoring m) eqn:E; simpl; congruence.
Qed.

Lemma run_timer (ops : list op) (m : t) :
  monitoringTimer m = isMonitoring m →
  monitoringTimer (run m ops) = isMonitoring (run m ops).
Proof.
  revert m. induction ops as [|o ops IH]; intros m Ht; [done|].
  apply IH. by apply step_timer.
Qed.

(** X9: starting and stopping are idempotent.  In every run of a new
    monitor the interval timer is installed exactly while monitoring is
    on; a second [startMonitoring] changes nothing (in particular not the
    start time the first one stamped), [stopMonitoring] on a monitor that
    is not monitoring changes nothing, and neither of them touches the
    request counters or the sample buffer. *)
Theorem monitoring_idempotent (o : UserOptions) (n1 n2 : Z) (ops : list op)
        (a b : Z) :
  let m := run (new o n1 n2) ops in
  monitoringTimer m = isMonitoring m
  ∧ startMonitoring (startMonitoring m a) b = startMonitoring m a
  ∧ stopMonitoring (stopMonitoring m) = stopMonitoring m
  ∧ stopMonitoring (new o n1 n2) = new o n1 n2
  ∧ isMonitoring (startMonitoring m a) = true
  ∧ isMonitoring (stopMonitoring m) = false
  ∧ requests (metrics (startMonitoring m a)) = requests (metrics m)
  ∧ requests (metrics (stopMonitoring m)) = requests (metrics m)
  ∧ responseTimes (startMonitoring m a) = responseTimes m
  ∧ responseTimes (stopMonitoring m) = responseTimes m.
Proof.
  intros m.
  assert (monitoringTimer m = isMonitoring m) as Ht by (by apply run_timer).
  unfold startMonitoring, stopMonitoring.
  destruct (isMonitoring m) eqn:Hm; simpl; rewrite ?Hm; simpl;
    split_and!; done.
Qed.

(** *** Health and alerts *)

Lemma Qle_bool_false (x y : Q) : Qle_bool x y = false ↔ (y < x)%Q.
Proof.
  split.
  - intros Hb. apply Qnot_le_lt. rewrite <- Qle_bool_iff. by rewrite Hb.
  - intros Hlt. destruct (Qle_bool x y) eqn:Hb; [|done].
    apply Qle_bool_iff in Hb. by apply Qlt_not_le in Hlt.
Qed.

(** Dividing by a positive number and comparing is multiplying and
    comparing; dividing by zero gives an infinity or [NaN], and the
    comparison comes out the same for a non-negative limit. *)
Lemma ratio_gt_mult (a t : Q) (lim : Z) :
  0 <= lim →
  ratio_gt (jsdiv a (inject_Z lim)) t = negb (Qle_bool a (inject_Z lim * t)).
Proof.
  intros Hlim. unfold jsdiv.
  destruct (Qeq_bool (inject_Z lim) 0) eqn:Hz.
  - apply Qeq_bool_iff in Hz.
    assert ((inject_Z lim * t == 0)%Q) as Hp by (rewrite Hz; ring).
    destruct (Qeq_bool a 0) eqn:Ha.
    + apply Qeq_bool_iff in Ha. simpl. symmetry. apply negb_false_iff.
      apply Qle_bool_iff. rewrite Ha, Hp. apply Qle_refl.
    + unfold Qgtb. destruct (Qle_bool a 0) eqn:Hle; simpl.
      * symmetry. apply negb_false_iff. apply Qle_bool_iff.
        apply Qle_bool_iff in Hle. by rewrite Hp.
      * symmetry. apply negb_true_iff. apply Qle_bool_false.
        apply Qle_bool_false in Hle. by rewrite Hp.
  - assert ((0 < inject_Z lim)%Q) as Hpos.
    { apply Qeq_bool_neq in Hz.
      assert (lim ≠ 0) by (intros ->; by apply Hz).
      change 0%Q with (inject_Z 0). rewrite <- Zlt_Qlt. lia. }
    simpl. unfold Qgtb. f_equal.
    apply eq_true_iff_eq. rewrite !Qle_bool_iff. split.
    + intros H. apply (Qmult_le_compat_r _ _ (inject_Z lim)) in H;
        [|by apply Qlt_le_weak].
      rewrite Qmult_comm, Qmult_div_r in H by (by apply Qeq_bool_neq).
      by rewrite Qmult_comm.
    + intros H. apply Qle_shift_div_r; [done|]. by rewrite Qmult_comm.
Qed.

(** *** The error rate and its warning *)

Lemma rate_value (f t : Z) :
  0 <= f →
  ∃ e, (if 0 <? t then jsdiv (inject_Z f) (inject_Z t) else Finite 0)
       = Finite e
       ∧ (0 <= e)%Q ∧ (f = 0 → (e == 0)%Q).
Proof.
  intros Hf. destruct (0 <? t) eqn:Ht.
  - apply Z.ltb_lt in Ht.
    assert ((0 < inject_Z t)%Q) as Hpos
      by (change 0%Q with (inject_Z 0); rewrite <- Zlt_Qlt; lia).
    exists (inject_Z f / inject_Z t)%Q. split_and!.
    + apply jsdiv_finite. intros H0. rewrite H0 in Hpos.
      by apply Qlt_irrefl in Hpos.
    + apply Qle_shift_div_l; [done|]. rewrite Qmult_0_l.
      change 0%Q with (inject_Z 0). rewrite <- Zle_Qle. lia.
    + intros ->. unfold Qdiv. by rewrite Qmult_0_l.
  - exists 0%Q. by split_and!.
Qed.

Lemma updatePerformanceMetrics_errorRate (m : t) (a b : Z) :
  let r := requests (metrics m) in
  let e' := errorRate (performance (metrics (updatePerformanceMetrics m a b))) in
  e' = errorRate (performance (metrics m))
  ∨ e' = (if 0 <? total r
          then jsdiv (inject_Z (failed r)) (inject_Z (total r))
          else Finite 0).
Proof.
  unfold updatePerformanceMetrics.
  destruct (Z.of_nat (length (responseTimes m)) =? 0); [by left|by right].
Qed.

Lemma step_rate_ok (m : t) (o : op) : rate_ok m → rate_ok (step m o).
Proof.
  intros [Hf He]. unfold rate_ok.
  destruct o as [rid now|rq ok a b c|a b|a b|now|]; cbn [step].
  - done.
  - pose proof (recordRequestEnd_spec m rq ok a b c) as (_ & Hr & _ & Hrate).
    cbv zeta in Hr, Hrate. cbn [step fst]. rewrite Hrate.
    set (r' := requests (metrics (recordRequestEnd m rq ok a b c).1)) in *.
    assert (0 <= failed r') as Hf'
      by (rewrite Hr; destruct ok; simpl; lia).
    split; [done|].
    destruct (rate_value (failed r') (total r') Hf') as (e & -> & He' & _).
    by exists e.
  - unfold updateMetrics. rewrite updatePerformanceMetrics_requests.
    split; [done|].
    match goal with |- context [updatePerformanceMetrics ?m1 a b] =>
      destruct (updatePerformanceMetrics_errorRate m1 a b) as [->| ->]
    end; [done|].
    cbn [set_metrics metrics requests].
    destruct (rate_value _ (total (requests (metrics m))) Hf)
      as (e & -> & He' & _).
    by exists e.
  - simpl. split; [lia|]. by exists 0%Q.
  - unfold startMonitoring. by case_match.
  - unfold stopMonitoring. by case_match.
Qed.

Lemma step_rate_zero (m : t) (o : op) :
  no_failure o = true → rate_zero m → rate_zero (step m o).
Proof.
  intros Ho [Hf He]. unfold rate_zero.
  destruct o as [rid now|rq ok a b c|a b|a b|now|]; cbn [step].
  - done.
  - destruct ok; [|discriminate Ho].
    pose proof (recordRequestEnd_spec m rq true a b c)
      as (_ & Hr & _ & Hrate).
    cbv zeta in Hr, Hrate. cbn [step fst]. rewrite Hrate.
    set (r' := requests (metrics (recordRequestEnd m rq true a b c).1)) in *.
    assert (failed r' = 0) as Hf' by (by rewrite Hr).
    split; [done|].
    destruct (rate_value (failed r') (total r') ltac:(lia))
      as (e & -> & _ & Hz).
    by apply Hz.
  - unfold updateMetrics. rewrite updatePerformanceMetrics_requests.
    split; [done|].
    match goal with |- context [updatePerformanceMetrics ?m1 a b] =>
      destruct (updatePerformanceMetrics_errorRate m1 a b) as [->| ->]
    end; [done|].
    cbn [set_metrics metrics requests].
    destruct (rate_value (failed (requests (metrics m)))
                         (total (requests (metrics m))) ltac:(lia))
      as (e & -> & _ & Hz).
    by apply Hz.
  - simpl. by split.
  - unfold startMonitoring. by case_match.
  - unfold stopMonitoring. by case_match.
Qed.

Lemma run_rate_ok (ops : list op) (m : t) : rate_ok m → rate_ok (run m ops).
Proof.
  revert m. induction ops as [|o ops IH]; intros m Hm; [done|].
  apply IH. by apply step_rate_ok.
Qed.

Lemma run_rate_zero (ops : list op) (m : t) :
  forallb no_failure ops = true → rate_zero m → rate_zero (run m ops).
Proof.
  revert m. induction ops as [|o ops IH]; intros m Hall Hm; [done|].
  simpl in Hall. apply andb_prop in Hall as [Ho Hall].
  apply IH; [done|]. by apply step_rate_zero.
Qed.

(** X10: the error rate a monitor stores and the warning that follows it.
    In every run of a new monitor the stored error rate is a finite
    number that is not negative.  A monitor that [isSystemHealthy] finds
    healthy has no high-error-rate warning for [checkAlerts] to log: both
    compare the stored rate with the same threshold.  As long as no
    request has been reported as failed the error rate is 0, and with a
    threshold that is not negative [checkAlerts] logs no high-error-rate
    warning. *)
Theorem error_rate_alert (o : UserOptions) (n1 n2 : Z) (ops : list op) :
  let m := run (new o n1 n2) ops in
  (∃ e, errorRate (performance (metrics m)) = Finite e ∧ (0 <= e)%Q)
  ∧ (isSystemHealthy m = true → HighErrorRate ∉ checkAlerts m)
  ∧ (forallb no_failure ops = true →
     ratio_is (errorRate (performance (metrics m))) 0
     ∧ ((0 <= th_errorRate (alertThresholds (options m)))%Q →
        HighErrorRate ∉ checkAlerts m)).
Proof.
  intros m.
  assert (∀ x : t,
            ratio_gt (errorRate (performance (metrics x)))
                     (th_errorRate (alertThresholds (options x))) = false →
            HighErrorRate ∉ checkAlerts x) as Hquiet.
  { intros x Hx. unfold checkAlerts. rewrite Hx. simpl.
    destruct (ratio_gt (jsdiv _ _) _); [|by apply not_elem_of_nil].
    intros Hin%list_elem_of_singleton. discriminate Hin. }
  split_and!.
  - apply (run_rate_ok ops (new o n1 n2)). split; [done|]. by exists 0%Q.
  - unfold isSystemHealthy. intros [He _]%andb_prop. apply Hquiet.
    destruct (errorRate (performance (metrics m))) as [e| | |];
      try discriminate He; [|done].
    simpl in *. unfold Qgtb. by rewrite He.
  - intros Hall.
    destruct (run_rate_zero ops (new o n1 n2) Hall) as [_ Hz];
      [by split|].
    fold m in Hz. split; [done|].
    intros Hth. apply Hquiet.
    destruct (errorRate (performance (metrics m))) as [e| | |];
      try done.
    simpl in *. unfold Qgtb. apply negb_false_iff, Qle_bool_iff.
    by rewrite Hz.
Qed.

Lemma error_rate_alert_witness :
  let ops := [RecordStart "a" 0;
              RecordEnd (mkRequest "a" 0 None None None) true 5 6 6;
              Tick 7 7] in
  let m := run (new noOptions 0 0) ops in
  forallb no_failure ops = true
  ∧ ratio_is (errorRate (performance (metrics m))) 0
  ∧ HighErrorRate ∉ checkAlerts m.
Proof.
  split; [reflexivity|].
  destruct (error_rate_alert noOptions 0 0
              [RecordStart "a" 0;
               RecordEnd (mkRequest "a" 0 None None None) true 5 6 6;
               Tick 7 7]) as (_ & _ & H).
  destruct (H eq_refl) as [Hz Hq].
  split; [exact Hz|]. apply Hq. vm_compute. discriminate.
Defined.

(** X11: right after a [recordRequestEnd], in any run of a new monitor,
    the success rate of [getSummary] is a finite number, never an
    infinity or [NaN]: 0 when no request is counted, and otherwise
    completed / total.  When requests are counted and none is in
    progress, the success rate and the stored error rate add up to 1. *)
Theorem summary_rates (o : UserOptions) (n1 n2 : Z) (ops : list op)
        (rq : Request) (ok : bool) (nowEnd nowUptime nowLast now : Z) :
  let m := run (new o n1 n2)
               (ops ++ [RecordEnd rq ok nowEnd nowUptime nowLast]) in
  let r := requests (metrics m) in
  let s := getSummary m now in
  (0 < total r → inProgress r = 0 →
   ∃ sr er,
     sum_successRate s = Finite sr
     ∧ errorRate (performance (metrics m)) = Finite er
     ∧ (sr + er == 1)%Q)
  ∧ (0 < total r →
     sum_successRate s
     = Finite (inject_Z (completed r) / inject_Z (total r)))
  ∧ (total r <= 0 → sum_successRate s = Finite 0)
  ∧ sum_currentLoad s = inProgress r
  ∧ sum_totalRequests s = total r.
Proof.
  intros m r s.
  assert (conserved m) as Hc by (by apply monitor_run_conserved).
  assert (errorRate (performance (metrics m))
          = (if 0 <? total r
             then jsdiv (inject_Z (failed r)) (inject_Z (total r))
             else Finite 0))
    as He.
  { subst r m. unfold run. rewrite fold_left_app. simpl.
    apply recordRequestEnd_spec. }
  assert (0 < total r → ¬ (inject_Z (total r) == 0)%Q) as Hnz.
  { intros Hpos. change 0%Q with (inject_Z 0). rewrite inject_Z_injective.
    lia. }
  assert (0 < total r →
          sum_successRate s
          = Finite (inject_Z (completed r) / inject_Z (total r))) as Hs.
  { intros Hpos. subst s. unfold getSummary. cbn [sum_successRate]. fold r.
    assert ((0 <? total r) = true) as -> by (by apply Z.ltb_lt).
    by apply jsdiv_finite, Hnz. }
  refine (conj _ (conj Hs (conj _ (conj eq_refl eq_refl)))).
  - intros Hpos H0.
    exists (inject_Z (completed r) / inject_Z (total r))%Q,
           (inject_Z (failed r) / inject_Z (total r))%Q.
    split; [by apply Hs|]. split.
    + rewrite He.
      assert ((0 <? total r) = true) as -> by (by apply Z.ltb_lt).
      by apply jsdiv_finite, Hnz.
    + specialize (Hnz Hpos). unfold conserved in Hc. fold r in Hc.
      assert ((inject_Z (total r)
               == inject_Z (completed r) + inject_Z (failed r))%Q) as Ht.
      { rewrite Hc at 1. rewrite H0, Z.add_0_r. by rewrite inject_Z_plus. }
      rewrite Ht in Hnz |- *. by field.
  - intros H0. subst s. unfold getSummary. cbn [sum_successRate]. fold r.
    by assert ((0 <? total r) = false) as -> by (by apply Z.ltb_ge).
Qed.

Lemma summary_rates_witness :
  let m := run (new noOptions 0 0)
               ([RecordStart "a" 0; RecordStart "b" 0;
                 RecordEnd (mkRequest "a" 0 None None None) false 4 5 5]
                ++ [RecordEnd (mkRequest "b" 0 None None None) true 8 9 9]) in
  0 < total (requests (metrics m))
  ∧ inProgress (requests (metrics m)) = 0
  ∧ ∃ sr er,
      sum_successRate (getSummary m 10) = Finite sr
      ∧ errorRate (performance (metrics m)) = Finite er
      ∧ (sr + er == 1)%Q.
Proof.
  split; [reflexivity|]. split; [reflexivity|].
  exact (proj1 (summary_rates noOptions 0 0
                  [RecordStart "a" 0; RecordStart "b" 0;
                   RecordEnd (mkRequest "a" 0 None None None) false
                             4 5 5]
                  (mkRequest "b" 0 None None None) true 8 9 9 10)
               eq_refl eq_refl).
Defined.

End MonitorMoreFacts.

(** * Further properties of the resource manager *)

Section ManagerMoreFacts.

Import ResourceManager.

(** *** The collaborators and the memory total *)

Lemma totalMemory_from (g : gauges) (l : list nat) (a : Z) :
  fold_left (λ acc m, acc + orZ (g m) 0) l a = a + totalMemory g l.
Proof.
  unfold totalMemory. revert a. induction l as [|m l IH]; intros a; simpl.
  - lia.
  - rewrite (IH (a + orZ (g m) 0)), (IH (0 + orZ (g m) 0)). lia.
Qed.

Lemma totalMemory_cons (g : gauges) (m : nat) (l : list nat) :
  totalMemory g (m :: l) = orZ (g m) 0 + totalMemory g l.
Proof. unfold totalMemory at 1. simpl. by rewrite totalMemory_from. Qed.

Lemma totalMemory_snoc (g : gauges) (m : nat) (l : list nat) :
  totalMemory g (l ++ [m]) = totalMemory g l + orZ (g m) 0.
Proof.
  induction l as [|x l IH]; simpl.
  - rewrite totalMemory_cons. unfold totalMemory. simpl. lia.
  - rewrite !totalMemory_cons, IH. lia.
Qed.

Lemma totalMemory_remove (g : gauges) (m : nat) (l : list nat) :
  NoDup l → m ∈ l →
  totalMemory g (filter (λ x, x ≠ m) l) = totalMemory g l - orZ (g m) 0.
Proof.
  induction 1 as [|x l Hx Hnd IH]; intros Hin.
  - by apply elem_of_nil in Hin.
  - destruct (decide (x = m)) as [->|Hne].
    + rewrite filter_cons_False by (intros H; by apply H).
      rewrite totalMemory_cons.
      assert (filter (λ y, y ≠ m) l = l) as ->; [|lia].
      clear -Hx. induction l as [|y l IH]; [done|].
      apply not_elem_of_cons in Hx as [Hy Hx].
      rewrite filter_cons_True by done. by rewrite IH.
    + rewrite filter_cons_True by done. rewrite !totalMemory_cons.
      apply elem_of_cons in Hin as [->|Hin]; [done|]. rewrite IH by done.
      lia.
Qed.

Lemma step_collaborators (s : t) (o : op) :
  NoDup (modelManagers s) → NoDup (modelManagers (step s o)).
Proof.
  intros Hnd.
  destruct o as [m|m|g| |snapshot h gc g now|now|now|g now|n now
                 |rid a b|r oc a b|o']; simpl; try done.
  - unfold registerModelManager. case_bool_decide; [done|]. simpl.
    apply NoDup_app. split_and!; [done| |apply NoDup_singleton].
    intros x Hx Hy%list_elem_of_singleton. by subst.
  - by apply NoDup_filter.
  - unfold optimizeResources_enter. by destruct (isOptimizing s).
  - by destruct (optimizeResources_resume_frame s snapshot h gc g now)
      as (_ & _ & _ & _ & _ & _ & ->).
  - unfold enableGracefulDegradation. destruct (isDegraded s); [done|].
    simpl. destruct (RequestQueue.setMaxConcurrent _ _ now).
    unfold optimizeResources_enter. simpl. by destruct (isOptimizing s).
  - unfold disableGracefulDegradation. destruct (isDegraded s); [|done].
    simpl. by destruct (RequestQueue.setMaxConcurrent _ _ now).
  - unfold checkDegradationRecovery. simpl. case_match; [|done].
    unfold disableGracefulDegradation. simpl.
    destruct (isDegraded s); [|done].
    simpl. by destruct (RequestQueue.setMaxConcurrent _ _ now).
  - unfold updateResourceLimits.
    destruct (truthy (n_maxMemoryUsage n)),
      (truthy (n_maxProcessingTime n)),
      (truthy (n_maxConcurrentRequests n)); simpl; try done;
      destruct (isDegraded s); simpl; try done;
      by destruct (RequestQueue.setMaxConcurrent _ _ now).
Qed.

Lemma run_collaborators (ops : list op) (s : t) :
  NoDup (modelManagers s) → NoDup (modelManagers (run s ops)).
Proof.
  revert s. induction ops as [|o ops IH]; intros s Hnd; [done|].
  apply IH. by apply step_collaborators.
Qed.

(** X12: every collaborator counts once.  In every run of a new manager
    the registered collaborators are pairwise distinct; registering one
    that is registered changes nothing; registering a new one adds its
    gauge (0 when the gauge is missing) to the total of
    [getCurrentMemoryUsage], unregistering a registered one takes its
    gauge off the total, and unregistering right after registering a new
    one restores the set.  The total read is also the one cached. *)
Theorem collaborators_counted_once (o : UserOptions) (n1 n2 : Z)
        (ops : list op) (m : nat) (g : gauges) :
  let s := run (new o n1 n2) ops in
  let usage s := (getCurrentMemoryUsage s g).2 in
  NoDup (modelManagers s)
  ∧ (m ∈ modelManagers s → registerModelManager s m = s)
  ∧ registerModelManager (registerModelManager s m) m
    = registerModelManager s m
  ∧ (m ∉ modelManagers s →
     usage (registerModelManager s m) = usage s + orZ (g m) 0)
  ∧ (m ∈ modelManagers s →
     usage (unregisterModelManager s m) = usage s - orZ (g m) 0)
  ∧ (m ∉ modelManagers s →
     modelManagers (unregisterModelManager (registerModelManager s m) m)
     = modelManagers s)
  ∧ currentMemoryUsage (getCurrentMemoryUsage s g).1 = usage s.
Proof.
  intros s usage.
  assert (NoDup (modelManagers s)) as Hnd.
  { apply run_collaborators. simpl. apply NoDup_nil_2. }
  split_and!; [done| | | | | |done].
  - intros Hin. unfold registerModelManager. by rewrite bool_decide_eq_true_2.
  - destruct (decide (m ∈ modelManagers s)) as [Hin|Hin].
    + assert (registerModelManager s m = s) as Hsame.
      { unfold registerModelManager. by rewrite bool_decide_eq_true_2. }
      by rewrite !Hsame.
    + assert (registerModelManager s m
              = set_modelManagers s (modelManagers s ++ [m])) as Hnew.
      { unfold registerModelManager. by rewrite bool_decide_eq_false_2. }
      rewrite Hnew. unfold registerModelManager.
      rewrite bool_decide_eq_true_2; [done|].
      simpl. apply elem_of_app. right. by left.
  - intros Hin. subst usage. unfold registerModelManager.
    rewrite bool_decide_eq_false_2 by done. simpl.
    apply totalMemory_snoc.
  - intros Hin. subst usage. simpl. by apply totalMemory_remove.
  - intros Hin. unfold registerModelManager.
    rewrite bool_decide_eq_false_2 by done. simpl.
    rewrite filter_app, filter_cons_False by (intros H; by apply H).
    rewrite filter_nil, app_nil_r.
    clear -Hin. induction (modelManagers s) as [|y l IH]; [done|].
    apply not_elem_of_cons in Hin as [Hy Hin].
    rewrite filter_cons_True by done. by rewrite IH.
Qed.

Lemma collaborators_counted_once_witness :
  let s := run (new noOptions 0 0) [Register 7%nat; Register 7%nat] in
  let g : gauges := (λ m, if (m =? 7)%nat then Some 950 else None) in
  modelManagers s = [7%nat]
  ∧ (8%nat ∉ modelManagers s)
  ∧ (getCurrentMemoryUsage (registerModelManager s 8%nat) g).2
    = (getCurrentMemoryUsage s g).2 + 0
  ∧ (getCurrentMemoryUsage (unregisterModelManager s 7%nat) g).2
    = (getCurrentMemoryUsage s g).2 - 950.
Proof.
  assert (8%nat ∉ [7%nat]) as Hout.
  { intros H. apply list_elem_of_singleton in H. discriminate H. }
  assert (7%nat ∈ [7%nat]) as Hin by (by left).
  split; [reflexivity|]. split; [exact Hout|].
  pose proof (collaborators_counted_once noOptions 0 0
                [Register 7%nat; Register 7%nat] 8%nat
                (λ m, if (m =? 7)%nat then Some 950 else None))
    as (_ & _ & _ & Hadd & _).
  pose proof (collaborators_counted_once noOptions 0 0
                [Register 7%nat; Register 7%nat] 7%nat
                (λ m, if (m =? 7)%nat then Some 950 else None))
    as (_ & _ & _ & _ & Hrem & _).
  exact (conj (Hadd Hout) (Hrem Hin)).
Defined.

(** *** Optimisation passes *)

Lemma optimizeResources_frame (s : t) (h : hooks) (gc : bool) (g : gauges)
      (now : Z) :
  let r := optimizeResources s h gc g now in
  r.1.2 = Normal
  ∧ isOptimizing r.1.1 = isOptimizing s
  ∧ isDegraded r.1.1 = isDegraded s
  ∧ options r.1.1 = options s
  ∧ ceiling r.1.1 = ceiling s
  ∧ resourceLimits r.1.1 = resourceLimits s
  ∧ modelManagers r.1.1 = modelManagers s.
Proof.
  unfold optimizeResources, optimizeResources_enter.
  destruct (isOptimizing s) eqn:Hopt; simpl; [done|].
  pose proof (optimizeResources_resume_frame
                (set_isOptimizing s true) (modelManagers s) h gc g now) as H.
  destruct (optimizeResources_resume _ _ h gc g now) as [[s2 c] ev].
  by simpl in *.
Qed.

Lemma promiseAll_clean (h : hooks) (snapshot : list nat) :
  promiseAll (map fst (map (λ m, optimizeOne (h m)) snapshot))
  = (if clean_hooks h snapshot then Fulfils
     else RejectsWith (ThrownError "Cannot read properties of null")).
Proof.
  unfold clean_hooks.
  induction snapshot as [|m l IH]; simpl; [done|].
  destruct (h m) as [|[|msg]]; simpl; done.
Qed.

(** X13: what an optimisation pass leaves behind depends on how the hooks
    ended.  When no hook rejected with [null] or [undefined], the queue's
    completed and failed histories are empty afterwards, its counters
    cover the waiting and in-flight items only, [lastOptimization] is the
    clock reading and the cached memory total is refreshed.  When some
    hook did, the [catch] block is reached instead: the queue, the
    timestamp and the cache are as they were.  Either way the wait list,
    the processing set and the ceiling are untouched and the flag is
    cleared. *)
Theorem pass_outcome (s : t) (snapshot : list nat) (h : hooks) (gc : bool)
        (g : gauges) (now : Z) :
  let s' := (optimizeResources_resume s snapshot h gc g now).1.1 in
  let q := requestQueue s in
  let q' := requestQueue s' in
  (if clean_hooks h snapshot then
     RequestQueue.completed q' = [] ∧ RequestQueue.failed q' = []
     ∧ RequestQueue.totalRequests (RequestQueue.metrics q')
       = RequestQueue.queueLength q + RequestQueue.processingSize q
     ∧ lastOptimization s' = Some now
     ∧ currentMemoryUsage s' = totalMemory g (modelManagers s)
   else
     q' = q ∧ lastOptimization s' = lastOptimization s
     ∧ currentMemoryUsage s' = currentMemoryUsage s
     ∧ OptimizationFailed "Cannot read properties of null"
       ∈ (optimizeResources_resume s snapshot h gc g now).2)
  ∧ RequestQueue.queue q' = RequestQueue.queue q
  ∧ RequestQueue.processing q' = RequestQueue.processing q
  ∧ RequestQueue.maxConcurrent q' = RequestQueue.maxConcurrent q
  ∧ isOptimizing s' = false.
Proof.
  intros s' q q'. subst s' q q'. unfold optimizeResources_resume.
  rewrite promiseAll_clean. destruct (clean_hooks h snapshot); simpl.
  - by split_and!.
  - split_and!; try done.
    apply elem_of_app. right. by left.
Qed.

(** X14: while a pass is in flight the flag stays set.  From a state with
    [isOptimizing] set, whatever runs before the continuation of the pass
    (other calls of [optimizeResources], which return at once, the pressure
    check, degradation, limit updates, queue and monitor traffic) leaves
    the flag set and the queue's history uncleared by the manager: the
    lengths of the two history lists do not decrease. *)
Theorem flag_held (s : t) (ops : list op) :
  forallb no_resume ops = true → isOptimizing s = true →
  isOptimizing (run s ops) = true
  ∧ optimizeResources_enter (run s ops) = None
  ∧ (length (RequestQueue.completed (requestQueue s))
     ≤ length (RequestQueue.completed (requestQueue (run s ops))))%nat
  ∧ (length (RequestQueue.failed (requestQueue s))
     ≤ length (RequestQueue.failed (requestQueue (run s ops))))%nat.
Proof.
  revert s. induction ops as [|o ops IH]; intros s Hall Hopt.
  - simpl. unfold optimizeResources_enter. rewrite Hopt. by split_and!.
  - simpl in Hall. apply andb_prop in Hall as [Ho Hall].
    change (run s (o :: ops)) with (run (step s o) ops).
    assert (isOptimizing (step s o) = true
            ∧ (length (RequestQueue.completed (requestQueue s))
               ≤ length (RequestQueue.completed (requestQueue (step s o))))%nat
            ∧ (length (RequestQueue.failed (requestQueue s))
               ≤ length (RequestQueue.failed (requestQueue (step s o))))%nat)
      as (Hopt' & Hc & Hf).
    { clear IH Hall.
      assert (∀ q n now,
                RequestQueue.completed (RequestQueue.setMaxConcurrent q n now).1
                = RequestQueue.completed q
                ∧ RequestQueue.failed (RequestQueue.setMaxConcurrent q n now).1
                  = RequestQueue.failed q) as Hset.
      { intros q n now. unfold RequestQueue.setMaxConcurrent.
        pose proof (processNext_metrics
                      (RequestQueue.set_maxConcurrent q (Z.max 1 n)) now)
          as (_ & E1 & E2).
        case_match; [|done]. by destruct (RequestQueue.processNext _ now). }
      destruct o as [m|m|g| |snapshot h gc g now|now|now|g now|n now
                     |rid a b|r oc a b|o']; simpl; try discriminate Ho;
        try done.
      - unfold registerModelManager. by case_bool_decide.
      - unfold optimizeResources_enter. by rewrite Hopt.
      - unfold enableGracefulDegradation. destruct (isDegraded s); [done|].
        simpl. destruct (Hset (requestQueue s)
                           (Z.max 1 (maxConcurrentRequests (options s) / 2))
                           now) as [E1 E2].
        destruct (RequestQueue.setMaxConcurrent _ _ now).
        unfold optimizeResources_enter. simpl in *. rewrite Hopt. simpl.
        by rewrite E1, E2.
      - unfold disableGracefulDegradation. destruct (isDegraded s); [|done].
        simpl. destruct (Hset (requestQueue s)
                           (maxConcurrentRequests (options s)) now)
          as [E1 E2].
        destruct (RequestQueue.setMaxConcurrent _ _ now). simpl in *.
        by rewrite E1, E2.
      - unfold checkDegradationRecovery. simpl. case_match; [|done].
        unfold disableGracefulDegradation. simpl.
        destruct (isDegraded s); [|done].
        simpl. destruct (Hset (requestQueue s)
                           (maxConcurrentRequests (options s)) now)
          as [E1 E2].
        destruct (RequestQueue.setMaxConcurrent _ _ now). simpl in *.
        by rewrite E1, E2.
      - unfold updateResourceLimits.
        destruct (truthy (n_maxMemoryUsage n)),
          (truthy (n_maxProcessingTime n)),
          (truthy (n_maxConcurrentRequests n)) as [v|]; simpl; try done;
          destruct (isDegraded s); simpl; try done;
          destruct (Hset (requestQueue s) v now) as [E1 E2];
          destruct (RequestQueue.setMaxConcurrent _ _ now); simpl in *;
          by rewrite E1, E2.
      - split; [done|]. unfold RequestQueue.enqueue.
        pose proof (processNext_metrics
                      (RequestQueue.push (requestQueue s) rid a) b)
          as (_ & E1 & E2).
        destruct (RequestQueue.processNext _ b). simpl in *.
        by rewrite E1, E2.
      - split; [done|]. unfold RequestQueue.settle.
        destruct (RequestQueue.processing (requestQueue s) !! r) as [it|];
          [|done].
        set (item' := RequestQueue.mkItem _ _ _ _ _).
        assert (∀ ok,
                  (length (RequestQueue.completed (requestQueue s))
                   ≤ length (RequestQueue.completed
                               (RequestQueue.retire (requestQueue s) r item'
                                                    ok)))%nat
                  ∧ (length (RequestQueue.failed (requestQueue s))
                     ≤ length (RequestQueue.failed
                                 (RequestQueue.retire (requestQueue s) r
                                                      item' ok)))%nat)
          as Hret.
        { intros ok. unfold RequestQueue.retire.
          match goal with |- context [RequestQueue.updateMetrics ?q0] =>
            pose proof (updateMetrics_frame q0)
              as (_ & _ & _ & -> & -> & _)
          end.
          destruct ok; simpl; rewrite length_app; simpl; lia. }
        destruct oc as [|err].
        + pose proof (processNext_metrics
                        (RequestQueue.retire (requestQueue s) r item' true) b)
            as (_ & E1 & E2).
          destruct (RequestQueue.processNext _ b). simpl in *.
          rewrite E1, E2. apply Hret.
        + pose proof (processNext_metrics
                        (RequestQueue.retire (requestQueue s) r item' false)
                        b) as (_ & E1 & E2).
          destruct (read_message err); [|apply Hret].
          destruct (RequestQueue.processNext _ b). simpl in *.
          rewrite E1, E2. apply Hret. }
    destruct (IH (step s o) Hall Hopt') as (H1 & H2 & H3 & H4).
    split_and!; [done|done|lia|lia].
Qed.

Lemma flag_held_witness :
  let s0 := registerModelManager (new noOptions 0 0) 7%nat in
  let s := step s0 OptimizeEnter in
  let ops := [OptimizeEnter; QueueEnqueue "a" 1 1;
              QueueSettle 0 Fulfils 2 2; EnableDegradation 3] in
  forallb no_resume ops = true
  ∧ isOptimizing s = true
  ∧ isOptimizing (run s ops) = true
  ∧ length (RequestQueue.completed (requestQueue (run s ops))) = 1%nat.
Proof.
  split; [reflexivity|]. split; [reflexivity|]. split; [|reflexivity].
  exact (proj1 (flag_held
                  (step (registerModelManager (new noOptions 0 0) 7%nat)
                        OptimizeEnter)
                  [OptimizeEnter; QueueEnqueue "a" 1 1;
                   QueueSettle 0 Fulfils 2 2; EnableDegradation 3]
                  eq_refl eq_refl)).
Defined.

(** *** The pressure check and recovery *)

Lemma enableGracefulDegradation_call_frame (s : t) (now : Z) (p : pass) :
  let r := enableGracefulDegradation_call s now p in
  r.1.2 = Normal
  ∧ isDegraded r.1.1 = true
  ∧ isOptimizing r.1.1 = isOptimizing s
  ∧ options r.1.1 = options s
  ∧ resourceLimits r.1.1 = resourceLimits s
  ∧ ceiling r.1.1
    = (if isDegraded s then ceiling s else Z.max 1 (configured s / 2)).
Proof.
  unfold enableGracefulDegradation_call, enableGracefulDegradation.
  destruct (isDegraded s) eqn:Hd; simpl; [by rewrite Hd|].
  pose proof (queue_setMaxConcurrent_ceiling
                (requestQueue s)
                (Z.max 1 (maxConcurrentRequests (options s) / 2)) now) as Hq.
  destruct (RequestQueue.setMaxConcurrent _ _ now) as [q qev].
  unfold optimizeResources_enter. simpl in *.
  destruct (isOptimizing s) eqn:Hopt; simpl.
  - unfold ceiling, configured. simpl. rewrite Hq. split_and!; try done. lia.
  - match goal with |- context [optimizeResources_resume ?s1 ?l _ _ _ _] =>
      pose proof (optimizeResources_resume_frame s1 l (p_hooks p) (p_gc p)
                    (p_gauges p) (p_now p))
        as (Hn & Hf & Hdg & Ho & Hc & Hl & _)
    end.
    destruct (optimizeResources_resume _ _ _ _ _ _) as [[s2 c] ev].
    simpl in *. subst c. simpl. rewrite Hf, Hdg, Ho, Hl, Hc.
    unfold ceiling, configured. simpl. rewrite Hq. split_and!; try done. lia.
Qed.

Lemma checkResourcePressure_effect (s : t) (g : gauges) (p1 : pass)
      (now : Z) (p2 : pass) (usage : Z) (u : ratio) (over_opt over_deg : bool) :
  usage = totalMemory g (modelManagers s) →
  u = memoryUtilization s usage →
  over_opt = ratio_gt u (memoryOptimizationThreshold (options s)) →
  over_deg = ratio_gt u (gracefulDegradationThreshold (options s)) →
  let r := checkResourcePressure s g p1 now p2 in
  r.1.2 = Normal
  ∧ isDegraded r.1.1 = isDegraded s || over_deg
  ∧ ceiling r.1.1
    = (if negb (isDegraded s) && over_deg
       then Z.max 1 (configured s / 2) else ceiling s)
  ∧ configured r.1.1 = configured s
  ∧ isOptimizing r.1.1 = isOptimizing s
  ∧ (over_opt = false → over_deg = false →
     r = (set_currentMemoryUsage s usage, Normal, [])).
Proof.
  intros Husage Hu Hoo Hod r. subst r.
  unfold checkResourcePressure, getCurrentMemoryUsage.
  rewrite <- Husage. cbv beta iota zeta.
  change (memoryUtilization (set_currentMemoryUsage s usage) usage)
    with (memoryUtilization s usage).
  change (options (set_currentMemoryUsage s usage)) with (options s).
  rewrite <- Hu, <- Hoo.
  set (s1 := set_currentMemoryUsage s usage).
  assert (∃ s2 ev2,
            (if over_opt
             then optimizeResources s1 (p_hooks p1) (p_gc p1) (p_gauges p1)
                                    (p_now p1)
             else (s1, Normal, [])) = (s2, Normal, ev2)
            ∧ isOptimizing s2 = isOptimizing s
            ∧ isDegraded s2 = isDegraded s
            ∧ options s2 = options s
            ∧ ceiling s2 = ceiling s
            ∧ resourceLimits s2 = resourceLimits s
            ∧ (over_opt = false → s2 = s1 ∧ ev2 = []))
    as (s2 & ev2 & -> & Hopt & Hdg & Ho & Hc & Hl & Hsame).
  { clear Hoo. destruct over_opt.
    - pose proof (optimizeResources_frame s1 (p_hooks p1) (p_gc p1)
                    (p_gauges p1) (p_now p1))
        as (Hn & H1 & H2 & H3 & H4 & H5 & _).
      destruct (optimizeResources s1 _ _ _ _) as [[s2 c] ev]. simpl in *.
      subst c. exists s2, ev. by split_and!.
    - exists s1, []. by split_and!. }
  rewrite Ho, <- Hod. clear Hod.
  destruct over_deg.
  - pose proof (enableGracefulDegradation_call_frame s2 now p2)
      as (Hn & H1 & H2 & H3 & H4 & H5).
    destruct (enableGracefulDegradation_call s2 now p2) as [[s3 c3] ev3].
    simpl in *. subst c3.
    unfold configured in *. rewrite H1, H2, H3, H5, Hdg, Hc, Ho, Hopt.
    rewrite orb_true_r, andb_true_r.
    split_and!; try done. by destruct (isDegraded s).
  - simpl. rewrite Hdg, Hc, Hopt, orb_false_r, andb_false_r.
    unfold configured. rewrite Ho. split_and!; try done.
    intros Hoff _. by destruct (Hsame Hoff) as [-> ->].
Qed.



(** X16: the recovery check leaves degraded mode exactly when the
    utilization read now is below the optimisation threshold: the queue's
    ceiling is then the configured ceiling (at least 1).  Otherwise the
    manager stays as it is and another check is scheduled.  With a memory
    limit of 0 and a non-negative total the utilization is an infinity or
    [NaN], which is below nothing, so the manager never recovers.  The
    check never enters degraded mode. *)
Theorem recovery_check (s : t) (g : gauges) (now : Z) :
  let usage := totalMemory g (modelManagers s) in
  let u := memoryUtilization s usage in
  let below := ratio_lt u (memoryOptimizationThreshold (options s)) in
  let r := checkDegradationRecovery s g now in
  isDegraded r.1 = isDegraded s && negb below
  ∧ ceiling r.1
    = (if isDegraded s && below then Z.max 1 (configured s) else ceiling s)
  ∧ configured r.1 = configured s
  ∧ currentMemoryUsage r.1 = usage
  ∧ (below = false →
     r = (set_currentMemoryUsage s usage, [RecoveryCheckScheduled]))
  ∧ (lim_maxMemoryUsage (resourceLimits s) = 0 → 0 <= usage →
     below = false).
Proof.
  intros usage u below r.
  assert (lim_maxMemoryUsage (resourceLimits s) = 0 → 0 <= usage →
          below = false) as Hzero.
  { intros H0 Hpos. subst below u. unfold memoryUtilization, jsdiv.
    rewrite H0. simpl.
    destruct (Qeq_bool (inject_Z usage) 0) eqn:Hz; [done|].
    assert (Qgtb (inject_Z usage) 0 = true) as ->; [|done].
    unfold Qgtb. apply negb_true_iff.
    destruct (Qle_bool (inject_Z usage) 0) eqn:Hle; [|done].
    apply Qle_bool_iff in Hle. change 0%Q with (inject_Z 0) in Hle.
    rewrite <- Zle_Qle in Hle. assert (usage = 0) as H1 by lia.
    rewrite H1 in Hz. done. }
  assert (r = if below then disableGracefulDegradation
                              (set_currentMemoryUsage s usage) now
              else (set_currentMemoryUsage s usage, [RecoveryCheckScheduled]))
    as -> by reflexivity.
  clearbody below. destruct below.
  - unfold disableGracefulDegradation.
    change (isDegraded (set_currentMemoryUsage s usage))
      with (isDegraded s).
    destruct (isDegraded s) eqn:Hd; simpl.
    + pose proof (queue_setMaxConcurrent_ceiling
                    (requestQueue s) (maxConcurrentRequests (options s)) now)
        as Hq.
      destruct (RequestQueue.setMaxConcurrent _ _ now). simpl in *.
      by split_and!.
    + by split_and!.
  - rewrite andb_true_r, andb_false_r. by split_and!.
Qed.

Lemma recovery_check_witness :
  let s0 :=
    registerModelManager
      (new (mkUserOptions (Some 1000) (Some 4) None None None None) 0 0)
      7%nat in
  let s := step s0 (EnableDegradation 1) in
  let hot : gauges := (λ _, Some 850) in
  let calm : gauges := (λ _, Some 700) in
  (isDegraded s = true ∧ ceiling s = 2)
  ∧ checkDegradationRecovery s hot 2
    = (set_currentMemoryUsage s 850, [RecoveryCheckScheduled])
  ∧ isDegraded (checkDegradationRecovery s calm 2).1 = false
  ∧ ceiling (checkDegradationRecovery s calm 2).1 = 4.
Proof.
  split; [split; reflexivity|].
  split.
  - exact (proj1 (proj2 (proj2 (proj2 (proj2
             (recovery_check
                (step (registerModelManager
                         (new (mkUserOptions (Some 1000) (Some 4) None None
                                             None None) 0 0) 7%nat)
                      (EnableDegradation 1))
                (λ _, Some 850) 2)))))
           eq_refl).
  - pose proof (recovery_check
                  (step (registerModelManager
                           (new (mkUserOptions (Some 1000) (Some 4) None None
                                               None None) 0 0) 7%nat)
                        (EnableDegradation 1))
                  (λ _, Some 700) 2) as (Hd & Hc & _).
    exact (conj Hd Hc).
Defined.

Lemma ratio_lt_not_gt (u : ratio) (t : Q) :
  ratio_lt u t = true → ratio_gt u t = false.
Proof.
  destruct u as [q| | |]; simpl; try done.
  unfold Qltb, Qgtb. intros H. apply negb_true_iff in H.
  apply Qle_bool_false in H. apply negb_false_iff, Qle_bool_iff.
  by apply Qlt_le_weak.
Qed.

(** X17: a manager that [isHealthy] finds healthy is not pushed into
    degraded mode by a pressure check on the same gauges: it is not
    degraded before the check and not degraded after it, and the queue's
    ceiling is unchanged. *)
Theorem healthy_stays_normal (s : t) (g : gauges) (p1 : pass) (now : Z)
        (p2 : pass) :
  (isHealthy s g).2 = true →
  isDegraded s = false
  ∧ PerformanceMonitor.isSystemHealthy (performanceMonitor s) = true
  ∧ isDegraded (checkResourcePressure s g p1 now p2).1.1 = false
  ∧ ceiling (checkResourcePressure s g p1 now p2).1.1 = ceiling s.
Proof.
  unfold isHealthy. simpl.
  intros [[Hu Hp]%andb_prop Hd%negb_true_iff]%andb_prop.
  apply ratio_lt_not_gt in Hu.
  pose proof (checkResourcePressure_effect s g p1 now p2 _ _ _ _
                eq_refl eq_refl eq_refl eq_refl) as (_ & H1 & H2 & _).
  rewrite H1, H2. unfold memoryUtilization in *. simpl in Hu.
  rewrite Hu, Hd. by split_and!.
Qed.

Lemma healthy_stays_normal_witness :
  let s :=
    registerModelManager
      (new (mkUserOptions (Some 1000) None None None None None) 0 0) 7%nat in
  let g : gauges := (λ _, Some 700) in
  let p := mkPass (λ _, Fulfils) false g 5 in
  (isHealthy s g).2 = true
  ∧ isDegraded s = false
  ∧ PerformanceMonitor.isSystemHealthy (performanceMonitor s) = true
  ∧ isDegraded (checkResourcePressure s g p 5 p).1.1 = false
  ∧ ceiling (checkResourcePressure s g p 5 p).1.1 = ceiling s.
Proof.
  split; [reflexivity|].
  exact (healthy_stays_normal
           (registerModelManager
              (new (mkUserOptions (Some 1000) None None None None None) 0 0)
              7%nat)
           (λ _, Some 700)
           (mkPass (λ _, Fulfils) false (λ _, Some 700) 5) 5
           (mkPass (λ _, Fulfils) false (λ _, Some 700) 5)
           eq_refl).
Defined.

(** *** The manager's queue *)

Lemma queue_run_snoc (q : RequestQueue.t) (ops : list RequestQueue.op)
      (o : RequestQueue.op) :
  (RequestQueue.run q (ops ++ [o])).1
  = (RequestQueue.step (RequestQueue.run q ops).1 o).1.
Proof.
  revert q. induction ops as [|x ops IH]; intros q.
  - simpl. by destruct (RequestQueue.step q o).
  - change ((x :: ops) ++ [o]) with (x :: (ops ++ [o])).
    rewrite !run_cons. simpl. apply IH.
Qed.

(** Each atomic part of a manager's run leaves the queue alone or applies
    one operation of the queue to it. *)
Lemma manager_step_queue (s : t) (o : op) :
  requestQueue (step s o) = requestQueue s
  ∨ ∃ qo, requestQueue (step s o)
          = (RequestQueue.step (requestQueue s) qo).1.
Proof.
  destruct o as [m|m|g| |snapshot h gc g now|now|now|g now|n now
                 |rid a b|r oc a b|o']; simpl.
  - left. unfold registerModelManager. by case_bool_decide.
  - by left.
  - by left.
  - left. unfold optimizeResources_enter. by destruct (isOptimizing s).
  - unfold optimizeResources_resume. rewrite promiseAll_clean.
    destruct (clean_hooks h snapshot); simpl; [|by left].
    right. by exists RequestQueue.ClearHistory.
  - unfold enableGracefulDegradation. destruct (isDegraded s); [by left|].
    right. simpl.
    exists (RequestQueue.SetMaxConcurrent
              (Z.max 1 (maxConcurrentRequests (options s) / 2)) now).
    simpl. destruct (RequestQueue.setMaxConcurrent _ _ now).
    unfold optimizeResources_enter. simpl. by destruct (isOptimizing s).
  - unfold disableGracefulDegradation. destruct (isDegraded s); [|by left].
    right. simpl.
    exists (RequestQueue.SetMaxConcurrent
              (maxConcurrentRequests (options s)) now).
    simpl. by destruct (RequestQueue.setMaxConcurrent _ _ now).
  - unfold checkDegradationRecovery. simpl. case_match; [|by left].
    unfold disableGracefulDegradation. simpl.
    destruct (isDegraded s); [|by left].
    right. simpl.
    exists (RequestQueue.SetMaxConcurrent
              (maxConcurrentRequests (options s)) now).
    simpl. by destruct (RequestQueue.setMaxConcurrent _ _ now).
  - unfold updateResourceLimits.
    destruct (truthy (n_maxMemoryUsage n)),
      (truthy (n_maxProcessingTime n)),
      (truthy (n_maxConcurrentRequests n)) as [v|]; simpl; try (by left);
      (destruct (isDegraded s); simpl; [by left|]);
      right; exists (RequestQueue.SetMaxConcurrent v now); simpl;
      by destruct (RequestQueue.setMaxConcurrent _ _ now).
  - right. by exists (RequestQueue.Enqueue rid a b).
  - right. by exists (RequestQueue.Settle r oc a b).
  - by left.
Qed.

Lemma manager_queue_reachable (o : UserOptions) (n1 n2 : Z) (ops : list op) :
  ∃ qops,
    requestQueue (run (new o n1 n2) ops)
    = (RequestQueue.run
         (RequestQueue.new (Some (configured (new o n1 n2)))) qops).1.
Proof.
  induction ops as [|x ops [qops IH]] using rev_ind.
  - by exists [].
  - rewrite manager_run_snoc.
    destruct (manager_step_queue (run (new o n1 n2) ops) x) as [->|[qo ->]].
    + by exists qops.
    + exists (qops ++ [qo]). by rewrite queue_run_snoc, IH.
Qed.

(** X18: the manager drives its queue through the queue's own operations
    only, so what holds in every run of a queue holds for the queue of a
    manager.  In every run of a new manager the queue statistics of
    [getStatus] add up (queued + processing + completed + failed is
    [totalRequests]), the completed and failed counters are the lengths of
    the history lists, and the reported memory usage, flags and number of
    collaborators are those of the manager. *)
Theorem status_is_consistent (o : UserOptions) (n1 n2 : Z) (ops : list op)
        (g : gauges) (now : Z) :
  let s := run (new o n1 n2) ops in
  let st := (getStatus s g now).2 in
  let qs := st_queue st in
  (∃ qops,
     requestQueue s
     = (RequestQueue.run
          (RequestQueue.new (Some (configured (new o n1 n2)))) qops).1)
  ∧ RequestQueue.stat_queued qs + RequestQueue.stat_processing qs
    + RequestQueue.stat_completed qs + RequestQueue.stat_failed qs
    = RequestQueue.totalRequests (RequestQueue.stat_metrics qs)
  ∧ RequestQueue.completedRequests (RequestQueue.stat_metrics qs)
    = RequestQueue.stat_completed qs
  ∧ RequestQueue.failedRequests (RequestQueue.stat_metrics qs)
    = RequestQueue.stat_failed qs
  ∧ RequestQueue.stat_maxConcurrent qs = ceiling s
  ∧ st_memoryUsage st = totalMemory g (modelManagers s)
  ∧ st_isDegraded st = isDegraded s
  ∧ st_isOptimizing st = isOptimizing s
  ∧ st_registeredManagers st = Z.of_nat (length (modelManagers s)).
Proof.
  intros s st qs.
  destruct (manager_queue_reachable o n1 n2 ops) as [qops Hq].
  fold s in Hq.
  pose proof (run_conserved qops
                (RequestQueue.new (Some (configured (new o n1 n2)))) []
                (new_ordered _)) as Hc.
  pose proof (run_stats qops
                (RequestQueue.new (Some (configured (new o n1 n2)))))
    as Hs.
  rewrite <- Hq in Hc, Hs.
  split; [by exists qops|].
  subst qs st. simpl.
  unfold RequestQueue.conserved in Hc.
  destruct Hs as (H1 & H2 & _); [by split_and!|].
  rewrite Hc; [|unfold RequestQueue.conserved, RequestQueue.processingSize,
                  RequestQueue.queueLength; simpl; by rewrite map_size_empty].
  split_and!; try done. lia.
Qed.

End ManagerMoreFacts.

(** * Properties of the collaborator's gauge *)

Section ModelManagerFacts.

Import ModelManager.

Lemma estimate_values (mm : t) :
  estimateMemoryUsage mm
  = (if isLoaded mm then
       if bool_decide (quantization mm = Some "int8"%string) then 4000
       else 8000
     else 0).
Proof.
  unfold estimateMemoryUsage. destruct (isLoaded mm); [|done]. simpl.
  by case_bool_decide.
Qed.

Lemma optimizeMemory_state (mm : t) :
  (optimizeMemory mm).1.1 = set_memoryUsage mm (estimateMemoryUsage mm)
  ∧ (optimizeMemory mm).1.2 = Fulfils.
Proof.
  unfold optimizeMemory. rewrite estimate_values.
  destruct (isLoaded mm); simpl; [|done]. by case_bool_decide.
Qed.

Lemma estimate_ok (mm x : t) :
  gauge_ok (set_memoryUsage mm (estimateMemoryUsage x)).
Proof.
  unfold gauge_ok. simpl. rewrite estimate_values.
  destruct (isLoaded x); [|by left]. case_bool_decide; auto.
Qed.

Lemma step_gauge (mm : t) (o : op) : gauge_ok mm → gauge_ok (step mm o).
Proof.
  intros Hg. destruct o as [q|ok| | |]; cbn [step].
  - done.
  - destruct ok; [|done]. apply estimate_ok.
  - unfold unloadModel. cbn [fst].
    destruct (optimizeMemory_state (mkModel false (quantization mm) 0
                                            (maxMemoryUsage mm))) as [-> _].
    apply estimate_ok.
  - destruct (optimizeMemory_state mm) as [-> _]. apply estimate_ok.
  - unfold inference_check. destruct (negb (isLoaded mm)); [done|].
    destruct (maxMemoryUsage mm <? memoryUsage mm); [|done].
    destruct (optimizeMemory_state mm) as [-> _]. apply estimate_ok.
Qed.

Lemma run_gauge (ops : list op) (mm : t) : gauge_ok mm → gauge_ok (run mm ops).
Proof.
  revert mm. induction ops as [|o ops IH]; intros mm Hg; [done|].
  apply IH. by apply step_gauge.
Qed.

End ModelManagerFacts.

Section CollaboratorClaims.

Import ModelManager.

(** X19: the gauge of a model manager.  Whatever is done to a model
    manager since its construction (loading, with any configuration and
    either ending; unloading; optimising; the check at the start of an
    inference), its [memoryUsage] is 0, 4000 or 8000.  At any such point
    [optimizeMemory()] fulfils, leaves the gauge at 0 when no model is
    loaded, at 4000 when the loaded model is quantized as ["int8"] and at
    8000 otherwise, and a second call changes nothing more. *)
Theorem gauge_values (u : option Z) (ops : list op) :
  let mm := run (new u) ops in
  (memoryUsage mm = 0 ∨ memoryUsage mm = 4000 ∨ memoryUsage mm = 8000)
  ∧ (optimizeMemory mm).1.2 = Fulfils
  ∧ memoryUsage (optimizeMemory mm).1.1
    = (if isLoaded mm then
         if bool_decide (quantization mm = Some "int8"%string) then 4000
         else 8000
       else 0)
  ∧ (optimizeMemory (optimizeMemory mm).1.1).1.1 = (optimizeMemory mm).1.1.
Proof.
  intros mm. split; [|split; [|split]].
  - apply run_gauge. by left.
  - apply optimizeMemory_state.
  - destruct (optimizeMemory_state mm) as [-> _]. simpl.
    apply estimate_values.
  - destruct (optimizeMemory_state mm) as [-> _].
    destruct (optimizeMemory_state
                (set_memoryUsage mm (estimateMemoryUsage mm))) as [-> _].
    rewrite !estimate_values. by destruct mm.
Qed.

End CollaboratorClaims.

(** * A manager with one model manager registered *)

Section OneModelFacts.

Import ResourceManager.

Lemma below_four_fifths (v lim : Z) (thr : Q) :
  v <= 8000 → 10000 <= lim → (0.8 <= thr)%Q →
  (inject_Z v <= inject_Z lim * thr)%Q.
Proof.
  intros Hv Hlim Hthr.
  apply Qle_trans with (inject_Z 8000); [by rewrite <- Zle_Qle|].
  apply Qle_trans with (inject_Z lim * 0.8)%Q.
  - apply Qle_trans with (inject_Z 10000 * 0.8)%Q; [by vm_compute|].
    apply Qmult_le_compat_r; [by rewrite <- Zle_Qle | by vm_compute].
  - apply Qmult_le_l; [|done].
    change 0%Q with (inject_Z 0). rewrite <- Zlt_Qlt. lia.
Qed.

Lemma totalMemory_one (g : gauges) (m : nat) (v : Z) :
  g m = Some v → totalMemory g [m] = v.
Proof.
  intros Hg. unfold totalMemory. simpl. rewrite Hg. simpl.
  destruct (v =? 0) eqn:E; [|done]. apply Z.eqb_eq in E. lia.
Qed.

(** X20: a manager whose only collaborator is a model manager is never
    under pressure with the shipped limits.  When the collaborator's gauge
    is the [memoryUsage] of a model manager, at any point of its life, the
    memory limit is at least 10000 and both thresholds are at least 0.8
    (the defaults are 16000, 0.8 and 0.9), a pressure check only stores
    the usage it read: it starts no optimisation pass and does not
    degrade the manager. *)
Theorem one_model_no_pressure (s : t) (g : gauges) (m : nat)
        (u : option Z) (ops : list ModelManager.op)
        (p1 : pass) (now : Z) (p2 : pass) :
  modelManagers s = [m] →
  g m = Some (ModelManager.memoryUsage
                (ModelManager.run (ModelManager.new u) ops)) →
  10000 <= lim_maxMemoryUsage (resourceLimits s) →
  (0.8 <= memoryOptimizationThreshold (options s))%Q →
  (0.8 <= gracefulDegradationThreshold (options s))%Q →
  checkResourcePressure s g p1 now p2
  = (set_currentMemoryUsage s
       (ModelManager.memoryUsage (ModelManager.run (ModelManager.new u) ops)),
     Normal, []).
Proof.
  intros Hm Hg Hlim Ho Hd.
  set (v := ModelManager.memoryUsage _) in *.
  assert (v <= 8000) as Hv.
  { assert (ModelManager.gauge_ok (ModelManager.run (ModelManager.new u) ops))
      as Hok by (apply run_gauge; by left).
    unfold ModelManager.gauge_ok in Hok. fold v in Hok. lia. }
  clearbody v.
  pose proof (checkResourcePressure_effect s g p1 now p2
                (totalMemory g (modelManagers s)) _ _ _
                eq_refl eq_refl eq_refl eq_refl) as (_ & _ & _ & _ & _ & H).
  rewrite Hm, (totalMemory_one g m v Hg) in H.
  apply H; unfold memoryUtilization; rewrite ratio_gt_mult by lia;
    apply negb_false_iff, Qle_bool_iff; by apply below_four_fifths.
Qed.

Lemma one_model_no_pressure_witness :
  let s := registerModelManager (new noOptions 0 0) 7%nat in
  let mm :=
    ModelManager.run (ModelManager.new None)
      [ModelManager.LoadBegin (Some "fp16"%string); ModelManager.LoadEnd true] in
  let g : gauges := (λ _, Some (ModelManager.memoryUsage mm)) in
  let p := mkPass (λ _, Fulfils) false g 5 in
  ModelManager.memoryUsage mm = 8000
  ∧ checkResourcePressure s g p 5 p = (set_currentMemoryUsage s 8000, Normal, []).
Proof.
  split; [reflexivity|].
  refine (one_model_no_pressure
            (registerModelManager (new noOptions 0 0) 7%nat)
            (λ _, Some 8000) 7%nat None
            [ModelManager.LoadBegin (Some "fp16"%string);
             ModelManager.LoadEnd true]
            (mkPass (λ _, Fulfils) false (λ _, Some 8000) 5) 5
            (mkPass (λ _, Fulfils) false (λ _, Some 8000) 5)
            eq_refl eq_refl _ _ _).
  - vm_compute. discriminate.
  - vm_compute. discriminate.
  - vm_compute. discriminate.
Defined.

End OneModelFacts.

(** * Properties of the normalised analysis result *)

Section ContractFacts.

Import ContractProcessor.

Lemma clamp_bounds (lo hi x : Q) :
  (lo <= hi)%Q → (lo <= minQ hi (maxQ lo x) <= hi)%Q.
Proof.
  intros Hlh. unfold minQ, maxQ.
  destruct (Qle_bool lo x) eqn:E1.
  - apply Qle_bool_iff in E1.
    destruct (Qle_bool hi x) eqn:E2.
    + split; [done | apply Qle_refl].
    + apply Qle_bool_false in E2. split; [done | by apply Qlt_le_weak].
  - destruct (Qle_bool hi lo) eqn:E2.
    + split; [done | apply Qle_refl].
    + split; [apply Qle_refl | done].
Qed.

Lemma orString_nonempty (a : option string) (d : string) :
  d ≠ ""%string → orString a d ≠ ""%string.
Proof.
  intros Hd. unfold orString. destruct a as [v|]; [|done].
  destruct (String.eqb v "") eqn:E; [done|]. by apply String.eqb_neq in E.
Qed.

Lemma fold_Qplus_lower (lo : Q) (l : list Q) :
  Forall (λ v, (lo <= v)%Q) l →
  ∀ a, (a + inject_Z (Z.of_nat (length l)) * lo <= fold_left Qplus l a)%Q.
Proof.
  induction 1 as [|x l Hx _ IH]; intros a.
  - simpl. assert ((a + inject_Z 0 * lo == a)%Q) as -> by ring.
    apply Qle_refl.
  - cbn [fold_left length]. eapply Qle_trans; [|apply IH].
    rewrite Nat2Z.inj_succ, <- Z.add_1_r, inject_Z_plus.
    assert (((a + (inject_Z (Z.of_nat (length l)) + inject_Z 1) * lo)
             == (a + lo) + inject_Z (Z.of_nat (length l)) * lo)%Q) as ->
      by ring.
    apply Qplus_le_compat; [|apply Qle_refl].
    apply Qplus_le_compat; [apply Qle_refl | done].
Qed.

Lemma fold_Qplus_upper (hi : Q) (l : list Q) :
  Forall (λ v, (v <= hi)%Q) l →
  ∀ a, (fold_left Qplus l a <= a + inject_Z (Z.of_nat (length l)) * hi)%Q.
Proof.
  induction 1 as [|x l Hx _ IH]; intros a.
  - simpl. assert ((a + inject_Z 0 * hi == a)%Q) as -> by ring.
    apply Qle_refl.
  - cbn [fold_left length]. eapply Qle_trans; [apply IH|].
    rewrite Nat2Z.inj_succ, <- Z.add_1_r, inject_Z_plus.
    assert (((a + (inject_Z (Z.of_nat (length l)) + inject_Z 1) * hi)
             == (a + hi) + inject_Z (Z.of_nat (length l)) * hi)%Q) as ->
      by ring.
    apply Qplus_le_compat; [|apply Qle_refl].
    apply Qplus_le_compat; [apply Qle_refl | done].
Qed.

Lemma mean_bounds (lo hi : Q) (l : list Q) :
  l ≠ [] →
  Forall (λ v, (lo <= v <= hi)%Q) l →
  (lo <= sumQ l / inject_Z (Z.of_nat (length l)) <= hi)%Q.
Proof.
  intros Hne Hall.
  assert ((0 < inject_Z (Z.of_nat (length l)))%Q) as Hpos.
  { change 0%Q with (inject_Z 0). rewrite <- Zlt_Qlt.
    destruct l; [done | simpl; lia]. }
  split.
  - apply Qle_shift_div_l; [done|].
    pose proof (fold_Qplus_lower lo l) as H.
    specialize (H ltac:(eapply Forall_impl; [exact Hall | by intros ? [? ?]]) 0%Q).
    unfold sumQ. eapply Qle_trans; [|exact H].
    assert ((0 + inject_Z (Z.of_nat (length l)) * lo
             == lo * inject_Z (Z.of_nat (length l)))%Q) as -> by ring.
    apply Qle_refl.
  - apply Qle_shift_div_r; [done|].
    pose proof (fold_Qplus_upper hi l) as H.
    specialize (H ltac:(eapply Forall_impl; [exact Hall | by intros ? [? ?]]) 0%Q).
    unfold sumQ. eapply Qle_trans; [exact H|].
    assert ((0 + inject_Z (Z.of_nat (length l)) * hi
             == hi * inject_Z (Z.of_nat (length l)))%Q) as -> by ring.
    apply Qle_refl.
Qed.

Lemma scores_elem (l : list Item) (v : Q) :
  v ∈ scores l →
  ∃ i, i ∈ l ∧ item_confidence i = Some v ∧ ¬ (v == 0)%Q.
Proof.
  unfold scores. intros (i & Hi & Hv)%list_elem_of_omap.
  exists i. split; [done|].
  destruct (item_confidence i) as [w|]; [|done].
  destruct (Qeq_bool w 0) eqn:E; [done|].
  injection Hv as ->. split; [done|]. by apply Qeq_bool_neq.
Qed.

(** X21: what [validateAndNormalizeResult] guarantees, for a parsed
    response whose summary holds numbers where it holds a [riskScore] or
    a [confidence].  The risk score of the result lies between 0 and 100
    and its confidence between 0 and 1; [totalClauses] is the length of
    the clause list it returns, which is empty when [clauses] is not an
    array; the title and the document type are never empty.  A reported
    risk score of 0 is replaced by 50, and a reported confidence of 0 by
    0.7, like absent ones. *)
Theorem normalised_summary (raw : RawResult) :
  let r := validateAndNormalizeResult raw in
  (0 <= riskScore (summary r) <= 100)%Q
  ∧ (0 <= confidence (summary r) <= 1)%Q
  ∧ totalClauses (summary r) = Z.of_nat (length (clauses r))
  ∧ clauses r = default [] (r_clauses raw)
  ∧ title (summary r) ≠ ""%string
  ∧ documentType (summary r) ≠ ""%string
  ∧ (∀ t d c cl rk rc,
       let zero :=
         validateAndNormalizeResult
           (mkRawResult (Some (mkRawSummary t d (Some 0%Q) c)) cl rk rc) in
       let absent :=
         validateAndNormalizeResult
           (mkRawResult (Some (mkRawSummary t d None c)) cl rk rc) in
       riskScore (summary zero) = 50%Q ∧ riskScore (summary absent) = 50%Q)
  ∧ (∀ t d k cl rk rc,
       let zero :=
         validateAndNormalizeResult
           (mkRawResult (Some (mkRawSummary t d k (Some 0%Q))) cl rk rc) in
       let absent :=
         validateAndNormalizeResult
           (mkRawResult (Some (mkRawSummary t d k None)) cl rk rc) in
       confidence (summary zero) = 0.7%Q ∧ confidence (summary absent) = 0.7%Q).
Proof.
  intros r. subst r. unfold validateAndNormalizeResult.
  cbn [summary riskScore confidence totalClauses clauses title documentType].
  refine (conj _ (conj _ (conj _ (conj _ (conj _ (conj _ (conj _ _))))))).
  - by apply clamp_bounds.
  - by apply clamp_bounds.
  - done.
  - done.
  - by apply orString_nonempty.
  - by apply orString_nonempty.
  - intros. split; reflexivity.
  - intros. split; reflexivity.
Qed.

(** X22: the overall confidence is a confidence.  [calculateConfidence]
    leaves out the clauses and risks whose confidence is absent or 0; when
    every other confidence lies between 0 and 1, the result is a finite
    number between 0 and 1, never [NaN]; and when nothing is left to
    average it is the default 0.7. *)
Theorem overall_confidence_in_range (r : Result) :
  (∀ i v, i ∈ clauses r ++ risks r → item_confidence i = Some v →
          ¬ (v == 0)%Q → (0 <= v <= 1)%Q) →
  (∃ c, calculateConfidence r = Finite c ∧ (0 <= c <= 1)%Q)
  ∧ (scores (clauses r) ++ scores (risks r) = [] →
     calculateConfidence r = Finite 0.7).
Proof.
  intros Hall. unfold calculateConfidence.
  set (l := scores (clauses r) ++ scores (risks r)).
  split; [|by intros ->].
  destruct (0 <? Z.of_nat (length l)) eqn:E.
  - apply Z.ltb_lt in E.
    exists (sumQ l / inject_Z (Z.of_nat (length l)))%Q. split.
    + apply jsdiv_finite. change 0%Q with (inject_Z 0).
      rewrite inject_Z_injective. lia.
    + apply mean_bounds.
      * intros Hl. rewrite Hl in E. simpl in E. lia.
      * apply Forall_forall. intros v Hv. subst l.
        apply elem_of_app in Hv as [Hv|Hv];
          apply scores_elem in Hv as (i & Hi & Hc & Hnz);
          apply (Hall i v); try done; apply elem_of_app; auto.
  - exists 0.7%Q. split; [done|]. split; vm_compute; discriminate.
Qed.

Lemma overall_confidence_in_range_witness :
  let r :=
    mkResult (mkSummary "t" "d" 3 50 0.7)
             [mkItem "a" (Some 1%Q); mkItem "b" (Some 0%Q); mkItem "c" None]
             [mkItem "d" (Some 0.5%Q)] [] in
  ratio_is (calculateConfidence r) 0.75
  ∧ ∃ c, calculateConfidence r = Finite c ∧ (0 <= c <= 1)%Q.
Proof.
  split; [reflexivity|].
  apply (overall_confidence_in_range
           (mkResult (mkSummary "t" "d" 3 50 0.7)
                     [mkItem "a" (Some 1%Q); mkItem "b" (Some 0%Q);
                      mkItem "c" None]
                     [mkItem "d" (Some 0.5%Q)] [])).
  intros i v Hin Hc Hnz. cbn [clauses risks app] in Hin.
  rewrite !elem_of_cons in Hin.
  destruct Hin as [->|[->|[->|[->|Hin]]]]; cbn [item_confidence] in Hc.
  - injection Hc as <-. split; vm_compute; discriminate.
  - injection Hc as <-. exfalso. apply Hnz. reflexivity.
  - discriminate Hc.
  - injection Hc as <-. split; vm_compute; discriminate.
  - by apply elem_of_nil in Hin.
Defined.

End ContractFacts.
